(** * monsoon-pod: the binned joint/marginal statistics engine

    A shallow embedding of the notebook
    [notebooks/V2_4_calc_save_binned_stats.ipynb] ([get_bin_edges],
    [fast_binned_stats], [calc_binned_stats], [get_region],
    [process_by_subregion]) and of the explicit triple-loop kernel of the
    earlier revision [3_copy_calc_save_stats] ([calc_binned_stats]); and, of
    the notebook that computes the binned variables, [V1_2_calc_save_bl], the
    two look-ups in the pressure levels ([get_p_above], [get_p_below]).

    Numbers.  The notebooks compute on NumPy [float64] arrays.  The arithmetic
    the code uses is collected in the class [Arith], with two instances:
    - [binary64]: IEEE 754 binary64, the kernel's primitive floats, which is
      what NumPy computes, bit for bit;
    - [exact]: the rationals, where every operation is exact.
    Every function of the notebooks is translated once, over [Arith].  Laws
    that need no arithmetic fact are proved for every instance; laws about
    values (edges, intervals of the diagnostic) are proved in [binary64] on
    the computed, rounded quantities and for the notebook's configuration,
    and in [exact] where the statement says so; concrete runs are evaluated
    in [binary64].  The power [prval**2] of the earlier revision comes from
    the C library and is a parameter of its loops.

    Counters.  [Q0], [QE], [P0], [PE] are [float64] cells that only ever
    receive [+= 1]; below 2^53 such a cell holds its count exactly, so the
    cells are integers here.  Integer indices ([int32] after [astype]) are
    integers with the conversion written out. *)

From Stdlib Require Import Floats String.
From Stdlib Require Import ZArith QArith Qround Bool Lia Lqa Permutation List.
Import ListNotations.

Close Scope Q_scope.
Set Warnings "-inexact-float".
Set Implicit Arguments.

(* ================================================================== *)
(** * Arithmetic *)

(** The operations of [float64] that the notebooks use. *)
Class Arith (F : Type) : Type := {
  fzero : F;                    (* the cells of [np.zeros] *)
  fhalf : F;                    (* the literal [0.5] *)
  fof_Z : Z -> F;               (* integer to float *)
  fadd : F -> F -> F;
  fsub : F -> F -> F;
  fmul : F -> F -> F;
  fdiv : F -> F -> F;
  fltb : F -> F -> bool;        (* [<] *)
  fleb : F -> F -> bool;        (* [<=] *)
  isfinite : F -> bool;         (* [np.isfinite] *)
  ftrunc : F -> option Z;       (* rounding toward zero; [None] on nan, inf *)
  ffloor : F -> option Z;       (* rounding down *)
  fceil : F -> option Z         (* rounding up *)
}.

(** ** Exact rationals *)

Definition Qtrunc (x : Q) : Z := Z.quot (Qnum x) (Zpos (Qden x)).

Definition Qltb (x y : Q) : bool := negb (Qle_bool y x).

#[export] Instance exact : Arith Q := {
  fzero := 0%Q;
  fhalf := (1 # 2)%Q;
  fof_Z := inject_Z;
  fadd := Qplus;
  fsub := Qminus;
  fmul := Qmult;
  fdiv := Qdiv;
  fltb := Qltb;
  fleb := Qle_bool;
  isfinite := fun _ => true;
  ftrunc := fun x => Some (Qtrunc x);
  ffloor := fun x => Some (Qfloor x);
  fceil := fun x => Some (Qceiling x)
}.

(** ** IEEE 754 binary64 *)

(** Integer part [q] and remainder [r] of the magnitude [m * 2^e]. *)
Definition SFshift (m : positive) (e : Z) : Z * Z :=
  match e with
  | Z0 => (Zpos m, 0%Z)
  | Zpos _ => ((Zpos m) * 2 ^ e, 0)%Z
  | Zneg _ => ((Zpos m) / 2 ^ (- e), (Zpos m) mod 2 ^ (- e))%Z
  end.

Definition SFtrunc (x : spec_float) : option Z :=
  match x with
  | S754_zero _ => Some 0%Z
  | S754_finite s m e =>
      let (q, _) := SFshift m e in Some (if s then - q else q)%Z
  | _ => None
  end.

Definition SFfloor (x : spec_float) : option Z :=
  match x with
  | S754_zero _ => Some 0%Z
  | S754_finite s m e =>
      let (q, r) := SFshift m e in
      Some (if s then (if r =? 0 then - q else - q - 1) else q)%Z
  | _ => None
  end.

Definition SFceil (x : spec_float) : option Z :=
  match x with
  | S754_zero _ => Some 0%Z
  | S754_finite s m e =>
      let (q, r) := SFshift m e in
      Some (if s then - q else (if r =? 0 then q else q + 1))%Z
  | _ => None
  end.

Definition float_of_Z (z : Z) : float :=
  match z with
  | Z0 => PrimFloat.zero
  | Zpos _ => PrimFloat.of_uint63 (Uint63.of_Z z)
  | Zneg p => PrimFloat.opp (PrimFloat.of_uint63 (Uint63.of_Z (Zpos p)))
  end.

Definition float_isfinite (x : float) : bool :=
  match PrimFloat.classify x with
  | PInf | NInf | NaN => false
  | _ => true
  end.

#[export] Instance binary64 : Arith float := {
  fzero := PrimFloat.zero;
  fhalf := 0.5%float;
  fof_Z := float_of_Z;
  fadd := PrimFloat.add;
  fsub := PrimFloat.sub;
  fmul := PrimFloat.mul;
  fdiv := PrimFloat.div;
  fltb := PrimFloat.ltb;
  fleb := PrimFloat.leb;
  isfinite := float_isfinite;
  ftrunc := fun x => SFtrunc (Prim2SF x);
  ffloor := fun x => SFfloor (Prim2SF x);
  fceil := fun x => SFceil (Prim2SF x)
}.

(* ================================================================== *)
(** * Bin specifications and edges *)

(** One entry of [BINPARAMS]: [{'min':..,'max':..,'width':..}]. *)
Record binspec (F : Type) : Type := {
  bin_min : F;
  bin_max : F;
  bin_width : F
}.

(** The keys of [BINPARAMS]. *)
Inductive varkey : Type := bl | cape | subsat.

(** [BINPARAMS]: a dict with exactly the keys ['bl'], ['cape'], ['subsat']. *)
Record binparams (F : Type) : Type := {
  bp_bl : binspec F;
  bp_cape : binspec F;
  bp_subsat : binspec F
}.

Definition bp_get {F} (binparams : binparams F) (key : varkey) : binspec F :=
  match key with
  | bl => bp_bl binparams
  | cape => bp_cape binparams
  | subsat => bp_subsat binparams
  end.

Section Edges.
Context {F : Type} {A : Arith F}.

(** [np.arange(start, stop, step)] on floats: [ceil((stop - start)/step)]
    elements (none when that is not positive; NumPy raises when it is not a
    number, which is no edges here); NumPy writes [start] and [start + step],
    takes their difference as the stride and fills cell [i >= 2] with
    [start + i * stride]. *)
Definition np_arange (start stop step : F) : list F :=
  match fceil (fdiv (fsub stop start) step) with
  | Some n =>
      let delta := fsub (fadd start step) start in
      map (fun i : nat =>
             match i with
             | O => start
             | S O => fadd start step
             | _ => fadd start (fmul (fof_Z (Z.of_nat i)) delta)
             end)
          (seq 0 (Z.to_nat n))
  | None => []
  end.

Definition get_bin_edges (key : varkey) (binparams : binparams F) : list F :=
  let varname := bp_get binparams key in
  np_arange (bin_min varname)
            (fadd (bin_max varname) (bin_width varname))
            (bin_width varname).

(** ** Index computation *)

Definition INT32_MIN : Z := (- 2 ^ 31)%Z.
Definition INT32_MAX : Z := (2 ^ 31 - 1)%Z.

(** [.astype(np.int32)] on a float: the C conversion, which truncates
    toward zero.  A value with no [int32] image (nan, inf, too large) gives
    the x86-64 "integer indefinite" value, [INT32_MIN]. *)
Definition astype_int32 (x : F) : Z :=
  match ftrunc x with
  | Some z => if ((INT32_MIN <=? z) && (z <=? INT32_MAX))%Z then z else INT32_MIN
  | None => INT32_MIN
  end.

(** [.astype(int)], the 64-bit conversion of the earlier revision. *)
Definition INT64_MIN : Z := (- 2 ^ 63)%Z.
Definition INT64_MAX : Z := (2 ^ 63 - 1)%Z.

Definition astype_int (x : F) : Z :=
  match ftrunc x with
  | Some z => if ((INT64_MIN <=? z) && (z <=? INT64_MAX))%Z then z else INT64_MIN
  | None => INT64_MIN
  end.

(** [((bl - min)/width + 0.5).astype(np.int32)], per element. *)
Definition blidx_of (b : binspec F) (v : F) : Z :=
  astype_int32 (fadd (fdiv (fsub v (bin_min b)) (bin_width b)) fhalf).

(** [((cape - min)/width - 0.5).astype(np.int32)], per element; the same
    expression is used for [subsat]. *)
Definition jointidx_of (b : binspec F) (v : F) : Z :=
  astype_int32 (fsub (fdiv (fsub v (bin_min b)) (bin_width b)) fhalf).

(** The two policies as the specification words them, with [floor]. *)
Definition spec_policy_A (b : binspec F) (v : F) : option Z :=
  ffloor (fadd (fdiv (fsub v (bin_min b)) (bin_width b)) fhalf).

Definition spec_policy_B (b : binspec F) (v : F) : option Z :=
  ffloor (fsub (fdiv (fsub v (bin_min b)) (bin_width b)) fhalf).

(** The downstream bounds check [0 <= index < nbins]. *)
Definition in_range (idx : Z) (nbins : nat) : bool :=
  ((0 <=? idx) && (idx <? Z.of_nat nbins))%Z.

(** A bin specification the edges are defined for: [width > 0] and
    [max > min], which is what the specification calls valid, and a number of
    edges that is a number, so that [np.arange] does not raise. *)
Definition valid_binspec (b : binspec F) : Prop :=
  fltb fzero (bin_width b) = true /\
  fltb (bin_min b) (bin_max b) = true /\
  fceil (fdiv (fsub (fadd (bin_max b) (bin_width b)) (bin_min b)) (bin_width b))
    <> None.

Definition valid_binparams (binparams : binparams F) : Prop :=
  forall key, valid_binspec (bp_get binparams key).
End Edges.

(* ================================================================== *)
(** * Arrays and faults *)

(** What can stop a run.  [ShapeMismatch]: an input array has no cell at the
    loop index.  [IndexOutOfBounds]: an accumulator has no cell at the bin
    index; a negative index counts as out of bounds here, although NumPy
    would wrap it around.  [KeyError]: a dict has no such key.  [ValueError]:
    [xr.concat] of no dataset. *)
Inductive error : Type :=
  | ShapeMismatch
  | IndexOutOfBounds
  | KeyError
  | ValueError.

Inductive result (T : Type) : Type :=
  | Ok (x : T)
  | Err (e : error).
Arguments Ok {T} x.
Arguments Err {T} e.

Definition bind {T U} (r : result T) (k : T -> result U) : result U :=
  match r with
  | Ok x => k x
  | Err e => Err e
  end.

Notation "x <- r ;; k" := (bind r (fun x => k))
  (at level 61, r at next level, right associativity).

(** [for i in l: st = body(i, st)]. *)
Fixpoint for_each {I S} (l : list I) (st : S) (body : I -> S -> result S)
  : result S :=
  match l with
  | [] => Ok st
  | i :: l' => st' <- body i st ;; for_each l' st' body
  end.

(** [range(n)]. *)
Definition range (n : nat) : list nat := seq 0 n.

(** [a.flat[i]] of an input array. *)
Definition flat {T} (a : list T) (i : nat) : result T :=
  match nth_error a i with
  | Some x => Ok x
  | None => Err ShapeMismatch
  end.

(** [a[t, la, lo]] of a three-dimensional input array. *)
Definition at3 {T} (a : list (list (list T))) (t la lo : nat) : result T :=
  match nth_error a t with
  | Some plane =>
      match nth_error plane la with
      | Some row => flat row lo
      | None => Err ShapeMismatch
      end
  | None => Err ShapeMismatch
  end.

(** Cell [i] of an accumulator. *)
Definition cell {T} (a : list T) (i : Z) : result T :=
  if (i <? 0)%Z then Err IndexOutOfBounds
  else match nth_error a (Z.to_nat i) with
       | Some x => Ok x
       | None => Err IndexOutOfBounds
       end.

Fixpoint set_nth {T} (a : list T) (n : nat) (x : T) : list T :=
  match a, n with
  | [], _ => []
  | _ :: t, O => x :: t
  | y :: t, S n' => y :: set_nth t n' x
  end.

(** [a[i] = f(a[i])], the read-modify-write of [a[i] += d]. *)
Definition rmw {T} (a : list T) (i : Z) (f : T -> T) : result (list T) :=
  x <- cell a i ;; Ok (set_nth a (Z.to_nat i) (f x)).

(** [a[i, j] = f(a[i, j])]. *)
Definition rmw2 {T} (a : list (list T)) (i j : Z) (f : T -> T)
  : result (list (list T)) :=
  row <- cell a i ;;
  row' <- rmw row j f ;;
  Ok (set_nth a (Z.to_nat i) row').

(** [np.zeros(n)] and [np.zeros((rows, cols))]. *)
Definition zeros {T} (z : T) (n : nat) : list T := repeat z n.
Definition zeros2 {T} (z : T) (rows cols : nat) : list (list T) :=
  repeat (repeat z cols) rows.

(** [.flat] of a three-dimensional array: row-major order. *)
Definition flat3 {T} (a : list (list (list T))) : list T := concat (concat a).

(* ================================================================== *)
(** * The single-pass kernel *)

(** The tuple [Q0,QE,Q1,P0,PE,P1]. *)
Record stats (F : Type) : Type := {
  Q0 : list Z;
  QE : list Z;
  Q1 : list F;
  P0 : list (list Z);
  PE : list (list Z);
  P1 : list (list F)
}.

Section Kernel.
Context {F : Type} {A : Arith F}.

Definition incr (c : Z) : Z := (c + 1)%Z.

Definition fast_binned_stats
    (blidxs capeidxs subsatidxs : list Z) (prdata : list F)
    (nblbins ncapebins nsubsatbins : nat) (prthresh : F)
  : result (stats F) :=
  let init := {| Q0 := zeros 0%Z nblbins;
                 QE := zeros 0%Z nblbins;
                 Q1 := zeros fzero nblbins;
                 P0 := zeros2 0%Z nsubsatbins ncapebins;
                 PE := zeros2 0%Z nsubsatbins ncapebins;
                 P1 := zeros2 fzero nsubsatbins ncapebins |} in
  for_each (range (length prdata)) init (fun i st =>
    blidx <- flat blidxs i ;;
    capeidx <- flat capeidxs i ;;
    subsatidx <- flat subsatidxs i ;;
    prval <- flat prdata i ;;
    st <- (if (0 <=? blidx)%Z && (blidx <? Z.of_nat nblbins)%Z
              && isfinite prval
           then
             q0 <- rmw (Q0 st) blidx incr ;;
             q1 <- rmw (Q1 st) blidx (fun s => fadd s prval) ;;
             qe <- (if fltb prthresh prval
                    then rmw (QE st) blidx incr
                    else Ok (QE st)) ;;
             Ok {| Q0 := q0; QE := qe; Q1 := q1;
                   P0 := P0 st; PE := PE st; P1 := P1 st |}
           else Ok st) ;;
    (if (0 <=? subsatidx)%Z && (subsatidx <? Z.of_nat nsubsatbins)%Z
        && ((0 <=? capeidx)%Z && (capeidx <? Z.of_nat ncapebins)%Z)
        && isfinite prval
     then
       p0 <- rmw2 (P0 st) subsatidx capeidx incr ;;
       p1 <- rmw2 (P1 st) subsatidx capeidx (fun s => fadd s prval) ;;
       pe <- (if fltb prthresh prval
              then rmw2 (PE st) subsatidx capeidx incr
              else Ok (PE st)) ;;
       Ok {| Q0 := Q0 st; QE := QE st; Q1 := Q1 st;
             P0 := p0; PE := pe; P1 := p1 |}
     else Ok st)).
End Kernel.

(* ================================================================== *)
(** * Datasets *)

(** An [xr.Dataset] with dimensions [(time, lat, lon)]: the calendar month of
    each time stamp, the two coordinate vectors and the four variables the
    builder reads. *)
Record dataset (F : Type) : Type := {
  time_month : list Z;
  lat : list F;
  lon : list F;
  var_bl : list (list (list F));
  var_cape : list (list (list F));
  var_subsat : list (list (list F));
  var_pr : list (list (list F))
}.

Definition map3 {X Y} (f : X -> Y) (a : list (list (list X)))
  : list (list (list Y)) := map (map (map f)) a.

(* ================================================================== *)
(** * The earlier revision: explicit loops over time, lat and lon *)

Module Earlier.

(** The eight accumulators of the earlier [calc_binned_stats]. *)
Record stats8 (F : Type) : Type := {
  Q0 : list Z;
  Q1 : list F;
  Q2 : list F;
  QE : list Z;
  P0 : list (list Z);
  P1 : list (list F);
  P2 : list (list F);
  PE : list (list Z)
}.

Section Loops.
Context {F : Type} {A : Arith F}.

(** [prval**2] on a [float64] scalar is the power function of the platform's
    C library, which need not return the rounded product [prval * prval];
    nothing is assumed of it. *)
Variable square : F -> F.

(** The accumulation part of the earlier [calc_binned_stats]: from the
    creation of the accumulators to the end of the three loops, with
    [ntime = len(data.time)], [nlat = len(data.lat)],
    [nlon = len(data.lon)]. *)
Definition accumulate
    (blidxs capeidxs subsatidxs : list (list (list Z)))
    (pr : list (list (list F)))
    (ntime nlat nlon : nat)
    (nblbins ncapebins nsubsatbins : nat) (prthresh : F)
  : result (stats8 F) :=
  let init := {| Q0 := zeros 0%Z nblbins;
                 Q1 := zeros fzero nblbins;
                 Q2 := zeros fzero nblbins;
                 QE := zeros 0%Z nblbins;
                 P0 := zeros2 0%Z nsubsatbins ncapebins;
                 P1 := zeros2 fzero nsubsatbins ncapebins;
                 P2 := zeros2 fzero nsubsatbins ncapebins;
                 PE := zeros2 0%Z nsubsatbins ncapebins |} in
  for_each (range ntime) init (fun timeidx st =>
  for_each (range nlat) st (fun latidx st =>
  for_each (range nlon) st (fun lonidx st =>
    prval <- at3 pr timeidx latidx lonidx ;;
    blidx <- at3 blidxs timeidx latidx lonidx ;;
    capeidx <- at3 capeidxs timeidx latidx lonidx ;;
    subsatidx <- at3 subsatidxs timeidx latidx lonidx ;;
    let validpr := isfinite prval in
    let validbl := (0 <=? blidx)%Z && (blidx <? Z.of_nat nblbins)%Z in
    let validcape := (0 <=? capeidx)%Z && (capeidx <? Z.of_nat ncapebins)%Z in
    let validsubsat :=
      (0 <=? subsatidx)%Z && (subsatidx <? Z.of_nat nsubsatbins)%Z in
    st <- (if validbl && validpr
           then
             q0 <- rmw (Q0 st) blidx incr ;;
             q1 <- rmw (Q1 st) blidx (fun s => fadd s prval) ;;
             q2 <- rmw (Q2 st) blidx (fun s => fadd s (square prval)) ;;
             qe <- (if fltb prthresh prval
                    then rmw (QE st) blidx incr
                    else Ok (QE st)) ;;
             Ok {| Q0 := q0; Q1 := q1; Q2 := q2; QE := qe;
                   P0 := P0 st; P1 := P1 st; P2 := P2 st; PE := PE st |}
           else Ok st) ;;
    (if validcape && validsubsat && validpr
     then
       p0 <- rmw2 (P0 st) subsatidx capeidx incr ;;
       p1 <- rmw2 (P1 st) subsatidx capeidx (fun s => fadd s prval) ;;
       p2 <- rmw2 (P2 st) subsatidx capeidx
                  (fun s => fadd s (square prval)) ;;
       pe <- (if fltb prthresh prval
              then rmw2 (PE st) subsatidx capeidx incr
              else Ok (PE st)) ;;
       Ok {| Q0 := Q0 st; Q1 := Q1 st; Q2 := Q2 st; QE := QE st;
             P0 := p0; P1 := p1; P2 := p2; PE := pe |}
     else Ok st)))).

(** The outputs the earlier revision shares with [fast_binned_stats]. *)
Definition shared (r : stats8 F) : stats F :=
  Build_stats (Q0 r) (QE r) (Q1 r) (P0 r) (PE r) (P1 r).
End Loops.

(** The dataset the earlier [calc_binned_stats] returns. *)
Record statsds8 (F : Type) : Type := {
  data_vars : stats8 F;
  coord_subsat : list F;
  coord_cape : list F;
  coord_bl : list F
}.

Section Builder.
Context {F : Type} {A : Arith F}.

(** The global the function takes as default; [get_bin_edges] is called
    without [binparams], so the edges come from the global. *)
Variable BINPARAMS : binparams F.
Variable square : F -> F.

Definition calc_binned_stats (data : dataset F)
    (binparams : binparams F) (prthresh : F) : result (statsds8 F) :=
  let blbins := get_bin_edges bl BINPARAMS in
  let capebins := get_bin_edges cape BINPARAMS in
  let subsatbins := get_bin_edges subsat BINPARAMS in
  let blidxs :=
    map3 (fun v => astype_int (fadd (fdiv (fsub v (bin_min (bp_bl binparams)))
                                          (bin_width (bp_bl binparams))) fhalf))
         (var_bl data) in
  let capeidxs :=
    map3 (fun v => astype_int (fsub (fdiv (fsub v (bin_min (bp_cape binparams)))
                                          (bin_width (bp_cape binparams))) fhalf))
         (var_cape data) in
  let subsatidxs :=
    map3 (fun v => astype_int (fsub (fdiv (fsub v (bin_min (bp_subsat binparams)))
                                          (bin_width (bp_subsat binparams))) fhalf))
         (var_subsat data) in
  let nblbins := length blbins in
  let ncapebins := length capebins in
  let nsubsatbins := length subsatbins in
  r <- accumulate square blidxs capeidxs subsatidxs (var_pr data)
         (length (time_month data)) (length (lat data)) (length (lon data))
         nblbins ncapebins nsubsatbins prthresh ;;
  Ok {| data_vars := r;
        coord_subsat := subsatbins;
        coord_cape := capebins;
        coord_bl := blbins |}.
End Builder.

End Earlier.

(* ================================================================== *)
(** * The builder and the aggregator *)

(** The dataset [calc_binned_stats] returns: the six accumulators and the
    three coordinate vectors (the attribute strings are left out). *)
Record statsds (F : Type) : Type := {
  data_vars : stats F;
  coord_bl : list F;
  coord_cape : list F;
  coord_subsat : list F
}.

(** One entry of [REGIONS]. *)
Record region (F : Type) : Type := {
  latmin : F;
  latmax : F;
  lonmin : F;
  lonmax : F
}.

(** A dict with string keys, in insertion order. *)
Fixpoint dict_get {V} (d : list (string * V)) (key : string) : result V :=
  match d with
  | [] => Err KeyError
  | (k, v) :: d' => if String.eqb k key then Ok v else dict_get d' key
  end.

(** The cells of [l] at the positions where [mask] holds. *)
Fixpoint select {T} (mask : list bool) (l : list T) : list T :=
  match mask, l with
  | b :: mask', x :: l' => if b then x :: select mask' l' else select mask' l'
  | _, _ => []
  end.

(** [for x in l: out.append(f(x))]. *)
Fixpoint mapM {X Y} (f : X -> result Y) (l : list X) : result (list Y) :=
  match l with
  | [] => Ok []
  | x :: l' => y <- f x ;; ys <- mapM f l' ;; Ok (y :: ys)
  end.

(** [xr.concat(objs, dim)] along a new dimension: the objects in order; it
    raises on an empty list. *)
Definition xr_concat {T} (objs : list T) : result (list T) :=
  match objs with
  | [] => Err ValueError
  | _ => Ok objs
  end.

Section Builder.
Context {F : Type} {A : Arith F}.

(** The configuration cell: the globals the functions take as defaults. *)
Variable REGIONS : list (string * region F).
Variable BINPARAMS : binparams F.
Variable PRTHRESH : F.

(** [data.sel(lat=slice(latmin,latmax), lon=slice(lonmin,lonmax))] on
    ascending coordinates (the preprocessing sorts them): label slices
    keep both ends. *)
Definition sel_box (data : dataset F) (r : region F) : dataset F :=
  let latmask := map (fun y => fleb (latmin r) y && fleb y (latmax r)) (lat data) in
  let lonmask := map (fun x => fleb (lonmin r) x && fleb x (lonmax r)) (lon data) in
  let cut (v : list (list (list F))) :=
    map (fun plane => map (select lonmask) (select latmask plane)) v in
  {| time_month := time_month data;
     lat := select latmask (lat data);
     lon := select lonmask (lon data);
     var_bl := cut (var_bl data);
     var_cape := cut (var_cape data);
     var_subsat := cut (var_subsat data);
     var_pr := cut (var_pr data) |}.

Definition get_region (data : dataset F) (key : string)
    (regions : list (string * region F)) : result (dataset F) :=
  region <- dict_get regions key ;;
  Ok (sel_box data region).

(** [data.sel(time=data.time.dt.month==month)]. *)
Definition sel_month (data : dataset F) (month : Z) : dataset F :=
  let mask := map (fun m => (m =? month)%Z) (time_month data) in
  {| time_month := select mask (time_month data);
     lat := lat data;
     lon := lon data;
     var_bl := select mask (var_bl data);
     var_cape := select mask (var_cape data);
     var_subsat := select mask (var_subsat data);
     var_pr := select mask (var_pr data) |}.

(** [calc_binned_stats]: the kernel is called without [prthresh], so it
    counts exceedances of the global [PRTHRESH]; the argument [prthresh]
    only reaches the attribute strings. *)
Definition calc_binned_stats (data : dataset F)
    (binparams : binparams F) (prthresh : F) : result (statsds F) :=
  let bins := fun key => get_bin_edges key binparams in
  let blidxs := map3 (blidx_of (bp_bl binparams)) (var_bl data) in
  let capeidxs := map3 (jointidx_of (bp_cape binparams)) (var_cape data) in
  let subsatidxs := map3 (jointidx_of (bp_subsat binparams)) (var_subsat data) in
  r <- fast_binned_stats (flat3 blidxs) (flat3 capeidxs) (flat3 subsatidxs)
         (flat3 (var_pr data))
         (length (bins bl)) (length (bins cape)) (length (bins subsat))
         PRTHRESH ;;
  Ok {| data_vars := r;
        coord_bl := bins bl;
        coord_cape := bins cape;
        coord_subsat := bins subsat |}.

(** [process_by_subregion]: [get_region] and [calc_binned_stats] are called
    with their defaults, the globals. *)
Definition process_by_subregion (ds : dataset F) (months : list Z)
    (regions : list (string * region F))
  : result (list (string * list (Z * statsds F))) :=
  regionstatslist <-
    mapM (fun region =>
            regiondata <- get_region ds region REGIONS ;;
            monthstatslist <-
              mapM (fun month =>
                      let monthdata := sel_month regiondata month in
                      monthstats <- calc_binned_stats monthdata BINPARAMS PRTHRESH ;;
                      Ok (month, monthstats))
                   months ;;
            regionstats <- xr_concat monthstatslist ;;
            Ok (region, regionstats))
         (map fst regions) ;;
  xr_concat regionstatslist.
End Builder.

(* ================================================================== *)
(** * The notebook's configuration *)

Module Notebook.

Definition REGIONS : list (string * region float) := [
  ("Eastern Arabian Sea"%string,
   {| latmin := 9%float; latmax := 19.5%float; lonmin := 64%float; lonmax := 72%float |});
  ("Central India"%string,
   {| latmin := 18%float; latmax := 24%float; lonmin := 76%float; lonmax := 83%float |});
  ("Central Bay of Bengal"%string,
   {| latmin := 9%float; latmax := 14.5%float; lonmin := 86.5%float; lonmax := 90%float |});
  ("Equatorial Indian Ocean"%string,
   {| latmin := 5%float; latmax := 10%float; lonmin := 62%float; lonmax := 67.5%float |});
  ("Konkan Coast"%string,
   {| latmin := 15%float; latmax := 19.5%float; lonmin := 69%float; lonmax := 72.5%float |})
].

Definition BINPARAMS : binparams float := {|
  bp_bl := {| bin_min := (-0.6)%float; bin_max := 0.1%float; bin_width := 0.0025%float |};
  bp_cape := {| bin_min := (-70)%float; bin_max := 20%float; bin_width := 1%float |};
  bp_subsat := {| bin_min := (-20)%float; bin_max := 70%float; bin_width := 1%float |}
|}.

Definition PRTHRESH : float := 0.25%float.

Definition MONTHS : list Z := [6; 7; 8]%Z.

(** The same bin parameters read as exact decimals. *)
Definition BINPARAMS_exact : binparams Q := {|
  bp_bl := {| bin_min := (-6 # 10)%Q; bin_max := (1 # 10)%Q; bin_width := (25 # 10000)%Q |};
  bp_cape := {| bin_min := (-70 # 1)%Q; bin_max := (20 # 1)%Q; bin_width := 1%Q |};
  bp_subsat := {| bin_min := (-20 # 1)%Q; bin_max := (70 # 1)%Q; bin_width := 1%Q |}
|}.

End Notebook.

(* ================================================================== *)
(** * Reference model of the kernel

    The kernel's result, cell by cell, as a function of the list of points:
    the definitions the theorems below state the kernel against. *)

(** One space-time point as the kernel reads it. *)
Record point (F : Type) : Type := {
  p_bl : Z;
  p_cape : Z;
  p_subsat : Z;
  p_pr : F
}.

Fixpoint zip4 {X1 X2 X3 X4 Y} (f : X1 -> X2 -> X3 -> X4 -> Y)
    (l1 : list X1) (l2 : list X2) (l3 : list X3) (l4 : list X4) : list Y :=
  match l1, l2, l3, l4 with
  | x1 :: t1, x2 :: t2, x3 :: t3, x4 :: t4 => f x1 x2 x3 x4 :: zip4 f t1 t2 t3 t4
  | _, _, _, _ => []
  end.

(** The points of four parallel input arrays. *)
Definition points {F} (blidxs capeidxs subsatidxs : list Z) (prdata : list F)
  : list (point F) :=
  zip4 (@Build_point F) blidxs capeidxs subsatidxs prdata.

(** [a[n] = f(a[n])] when the cell exists, nothing otherwise. *)
Fixpoint apply_at {T} (n : nat) (f : T -> T) (a : list T) : list T :=
  match a, n with
  | [], _ => []
  | x :: t, O => f x :: t
  | x :: t, S n' => x :: apply_at n' f t
  end.

(** Number of elements that satisfy [f]. *)
Definition count {T} (f : T -> bool) (l : list T) : Z :=
  Z.of_nat (length (filter f l)).

Definition Zsum (l : list Z) : Z := fold_right Z.add 0%Z l.


Section Reference.
Context {F : Type} {A : Arith F}.

(** The sum a cell holds after [+=] of the values of [l], in order. *)
Definition fsum (l : list F) : F := fold_left fadd l fzero.

(** The point counts in 1-D bin [i]: its index is [i], its value finite. *)
Definition in_bin (i : nat) (p : point F) : bool :=
  (p_bl p =? Z.of_nat i)%Z && isfinite (p_pr p).

(** The point counts in 2-D cell [(a, b)]. *)
Definition in_cell (a b : nat) (p : point F) : bool :=
  (p_subsat p =? Z.of_nat a)%Z && (p_cape p =? Z.of_nat b)%Z && isfinite (p_pr p).

(** [prval > prthresh]. *)
Definition exceeds (prthresh : F) (p : point F) : bool := fltb prthresh (p_pr p).

(** The point counts in some 1-D bin, in some 2-D cell. *)
Definition valid1 (nblbins : nat) (p : point F) : bool :=
  in_range (p_bl p) nblbins && isfinite (p_pr p).

Definition valid2 (ncapebins nsubsatbins : nat) (p : point F) : bool :=
  in_range (p_subsat p) nsubsatbins && in_range (p_cape p) ncapebins
  && isfinite (p_pr p).

Definition init_stats (nblbins ncapebins nsubsatbins : nat) : stats F :=
  {| Q0 := zeros 0%Z nblbins;
     QE := zeros 0%Z nblbins;
     Q1 := zeros fzero nblbins;
     P0 := zeros2 0%Z nsubsatbins ncapebins;
     PE := zeros2 0%Z nsubsatbins ncapebins;
     P1 := zeros2 fzero nsubsatbins ncapebins |}.

(** One iteration of the kernel's loop on a point, with total updates. *)
Definition step (nblbins ncapebins nsubsatbins : nat) (prthresh : F)
    (st : stats F) (p : point F) : stats F :=
  let i := Z.to_nat (p_bl p) in
  let a := Z.to_nat (p_subsat p) in
  let b := Z.to_nat (p_cape p) in
  let st :=
    if valid1 nblbins p
    then {| Q0 := apply_at i incr (Q0 st);
            QE := if exceeds prthresh p then apply_at i incr (QE st) else QE st;
            Q1 := apply_at i (fun s => fadd s (p_pr p)) (Q1 st);
            P0 := P0 st; PE := PE st; P1 := P1 st |}
    else st in
  if valid2 ncapebins nsubsatbins p
  then {| Q0 := Q0 st; QE := QE st; Q1 := Q1 st;
          P0 := apply_at a (apply_at b incr) (P0 st);
          PE := if exceeds prthresh p
                then apply_at a (apply_at b incr) (PE st) else PE st;
          P1 := apply_at a (apply_at b (fun s => fadd s (p_pr p))) (P1 st) |}
  else st.

Definition run (nblbins ncapebins nsubsatbins : nat) (prthresh : F)
    (pts : list (point F)) : stats F :=
  fold_left (step nblbins ncapebins nsubsatbins prthresh) pts
            (init_stats nblbins ncapebins nsubsatbins).

(** The accumulators have the shape they were created with. *)
Definition shaped (nblbins ncapebins nsubsatbins : nat) (st : stats F) : Prop :=
  length (Q0 st) = nblbins /\ length (QE st) = nblbins /\
  length (Q1 st) = nblbins /\
  length (P0 st) = nsubsatbins /\ Forall (fun r => length r = ncapebins) (P0 st) /\
  length (PE st) = nsubsatbins /\ Forall (fun r => length r = ncapebins) (PE st) /\
  length (P1 st) = nsubsatbins /\ Forall (fun r => length r = ncapebins) (P1 st).


End Reference.

(** A three-dimensional array of shape [(ntime, nlat, nlon)]. *)
Definition shape3 {T} (a : list (list (list T))) (ntime nlat nlon : nat) : Prop :=
  length a = ntime /\
  Forall (fun plane => length plane = nlat /\
                       Forall (fun row => length row = nlon) plane) a.

(** The points of four parallel three-dimensional arrays, in place. *)
Definition points3 {F} (blidxs capeidxs subsatidxs : list (list (list Z)))
    (pr : list (list (list F))) : list (list (list (point F))) :=
  zip4 (zip4 (zip4 (@Build_point F))) blidxs capeidxs subsatidxs pr.

Section EarlierReference.
Context {F : Type} {A : Arith F}.
Variable square : F -> F.

(** One iteration of the earlier revision's innermost loop, with total
    updates. *)
Definition step8 (nblbins ncapebins nsubsatbins : nat) (prthresh : F)
    (st : Earlier.stats8 F) (p : point F) : Earlier.stats8 F :=
  let i := Z.to_nat (p_bl p) in
  let a := Z.to_nat (p_subsat p) in
  let b := Z.to_nat (p_cape p) in
  let sq := square (p_pr p) in
  let st :=
    if valid1 nblbins p
    then {| Earlier.Q0 := apply_at i incr (Earlier.Q0 st);
            Earlier.Q1 := apply_at i (fun s => fadd s (p_pr p)) (Earlier.Q1 st);
            Earlier.Q2 := apply_at i (fun s => fadd s sq) (Earlier.Q2 st);
            Earlier.QE := if exceeds prthresh p
                          then apply_at i incr (Earlier.QE st) else Earlier.QE st;
            Earlier.P0 := Earlier.P0 st; Earlier.P1 := Earlier.P1 st;
            Earlier.P2 := Earlier.P2 st; Earlier.PE := Earlier.PE st |}
    else st in
  if valid2 ncapebins nsubsatbins p
  then {| Earlier.Q0 := Earlier.Q0 st; Earlier.Q1 := Earlier.Q1 st;
          Earlier.Q2 := Earlier.Q2 st; Earlier.QE := Earlier.QE st;
          Earlier.P0 := apply_at a (apply_at b incr) (Earlier.P0 st);
          Earlier.P1 := apply_at a (apply_at b (fun s => fadd s (p_pr p))) (Earlier.P1 st);
          Earlier.P2 := apply_at a (apply_at b (fun s => fadd s sq)) (Earlier.P2 st);
          Earlier.PE := if exceeds prthresh p
                        then apply_at a (apply_at b incr) (Earlier.PE st)
                        else Earlier.PE st |}
  else st.

Definition init8 (nblbins ncapebins nsubsatbins : nat) : Earlier.stats8 F :=
  {| Earlier.Q0 := zeros 0%Z nblbins;
     Earlier.Q1 := zeros fzero nblbins;
     Earlier.Q2 := zeros fzero nblbins;
     Earlier.QE := zeros 0%Z nblbins;
     Earlier.P0 := zeros2 0%Z nsubsatbins ncapebins;
     Earlier.P1 := zeros2 fzero nsubsatbins ncapebins;
     Earlier.P2 := zeros2 fzero nsubsatbins ncapebins;
     Earlier.PE := zeros2 0%Z nsubsatbins ncapebins |}.

Definition shaped8 (nblbins ncapebins nsubsatbins : nat) (st : Earlier.stats8 F)
  : Prop :=
  shaped nblbins ncapebins nsubsatbins (Earlier.shared st) /\
  length (Earlier.Q2 st) = nblbins /\
  length (Earlier.P2 st) = nsubsatbins /\
  Forall (fun r => length r = ncapebins) (Earlier.P2 st).
End EarlierReference.

(** [l[i] < l[i+1]] for every [i]. *)
Fixpoint ascending {F} {A : Arith F} (l : list F) : bool :=
  match l with
  | x :: (y :: _) as t => fltb x y && ascending t
  | _ => true
  end.

(** Two three-dimensional arrays with the same shape. *)
Definition same_shape3 {X Y} (a : list (list (list X))) (b : list (list (list Y)))
  : Prop :=
  Forall2 (Forall2 (fun r r' => length r = length r')) a b.

(** The four variables of a dataset share one index space. *)
Definition aligned {F} (ds : dataset F) : Prop :=
  same_shape3 (var_bl ds) (var_pr ds) /\
  same_shape3 (var_cape ds) (var_pr ds) /\
  same_shape3 (var_subsat ds) (var_pr ds).

(** The four variables of a dataset have the shape of its coordinates,
    [(len(time), len(lat), len(lon))]. *)
Definition on_grid {F} (ds : dataset F) : Prop :=
  let ntime := length (time_month ds) in
  let nlat := length (lat ds) in
  let nlon := length (lon ds) in
  shape3 (var_bl ds) ntime nlat nlon /\ shape3 (var_cape ds) ntime nlat nlon /\
  shape3 (var_subsat ds) ntime nlat nlon /\ shape3 (var_pr ds) ntime nlat nlon.

Section Subset.
Context {F : Type} {A : Arith F}.

(** The positions [i] of a coordinate vector with [keep coord[i]]. *)
Definition positions {T} (keep : T -> bool) (coord : list T) (d : T) : list nat :=
  filter (fun i => keep (nth i coord d)) (seq 0 (length coord)).

(** The time stamps of a calendar month, and the latitudes and longitudes of
    a bounding box, ends included, by position. *)
Definition times_in (data : dataset F) (month : Z) : list nat :=
  positions (fun m => (m =? month)%Z) (time_month data) 0%Z.

Definition lats_in (data : dataset F) (r : region F) : list nat :=
  positions (fun y => fleb (latmin r) y && fleb y (latmax r)) (lat data) fzero.

Definition lons_in (data : dataset F) (r : region F) : list nat :=
  positions (fun x => fleb (lonmin r) x && fleb x (lonmax r)) (lon data) fzero.

(** Cell [(t, la, lo)] of a variable. *)
Definition at_pos (v : list (list (list F))) (pos : nat * nat * nat) : F :=
  let '(t, la, lo) := pos in nth lo (nth la (nth t v []) []) fzero.

(** The subset of the data restricted to a region's bounding box and to a
    calendar month, as the specification words it and without the selection
    functions of the code: each variable keeps the cells at the time stamps
    of the month, the latitudes and the longitudes of the box, in their
    order. *)
Definition spec_subset (data : dataset F) (r : region F) (month : Z) : dataset F :=
  let pick (v : list (list (list F))) :=
    map (fun t =>
           map (fun la => map (fun lo => at_pos v (t, la, lo)) (lons_in data r))
               (lats_in data r))
        (times_in data month) in
  {| time_month := map (fun t => nth t (time_month data) 0%Z) (times_in data month);
     lat := map (fun la => nth la (lat data) fzero) (lats_in data r);
     lon := map (fun lo => nth lo (lon data) fzero) (lons_in data r);
     var_bl := pick (var_bl data);
     var_cape := pick (var_cape data);
     var_subsat := pick (var_subsat data);
     var_pr := pick (var_pr data) |}.

(** The grid positions inside the box and the month, in row-major order. *)
Definition inside (data : dataset F) (r : region F) (month : Z)
  : list (nat * nat * nat) :=
  flat_map (fun t =>
              flat_map (fun la => map (fun lo => (t, la, lo)) (lons_in data r))
                       (lats_in data r))
           (times_in data month).

(** The point the kernel gets for a grid position: the three index
    expressions of the builder on the diagnostics there, and the
    precipitation there. *)
Definition point_at (data : dataset F) (binparams : binparams F)
    (pos : nat * nat * nat) : point F :=
  {| p_bl := blidx_of (bp_bl binparams) (at_pos (var_bl data) pos);
     p_cape := jointidx_of (bp_cape binparams) (at_pos (var_cape data) pos);
     p_subsat := jointidx_of (bp_subsat binparams) (at_pos (var_subsat data) pos);
     p_pr := at_pos (var_pr data) pos |}.
End Subset.

(** A run stops on a shape mismatch or not at all. *)
Definition no_index_fault {T} (r : result T) (Inv : T -> Prop) : Prop :=
  (exists x, r = Ok x /\ Inv x) \/ r = Err ShapeMismatch.

(** A small dataset for examples: four time stamps (June, July, August,
    June), two latitudes, two longitudes; and the first two regions of the
    notebook. *)
Module Sample.

Definition data : dataset float := {|
  time_month := [6; 7; 8; 6]%Z;
  lat := [10; 20]%float;
  lon := [65; 80]%float;
  var_bl := [[[-0.3; -0.2]; [0.05; -0.61]]; [[-0.1; 0]; [nan; -0.45]];
             [[-0.5; -0.25]; [-0.3; -0.3]]; [[0.2; -0.6]; [-0.55; -0.05]]]%float;
  var_cape := [[[-10; 5]; [0; -75]]; [[-30; 12]; [nan; -1]];
               [[-69.4; 19]; [3; 3]]; [[25; -70]; [-20; 7]]]%float;
  var_subsat := [[[10; 50]; [0; -25]]; [[30; 12]; [nan; 69]];
                 [[-19.2; 5]; [20; 20]]; [[75; -20]; [40; 33]]]%float;
  var_pr := [[[0; 1.5]; [0.25; 3]]; [[nan; 12]; [4; 0.1]];
             [[0.3; 0]; [infinity; 7]]; [[2; 2]; [0; 30]]]%float
|}.

Definition regions : list (string * region float) := firstn 2 Notebook.REGIONS.

End Sample.

(** Two points the guards of the kernel cannot tell apart: the same value,
    and indices that pass the bounds checks together, and are equal when they
    pass. *)
Definition same_bins {F} (nblbins ncapebins nsubsatbins : nat) (p p' : point F)
  : Prop :=
  p_pr p = p_pr p' /\
  in_range (p_bl p) nblbins = in_range (p_bl p') nblbins /\
  (in_range (p_bl p') nblbins = true -> p_bl p = p_bl p') /\
  in_range (p_cape p) ncapebins = in_range (p_cape p') ncapebins /\
  (in_range (p_cape p') ncapebins = true -> p_cape p = p_cape p') /\
  in_range (p_subsat p) nsubsatbins = in_range (p_subsat p') nsubsatbins /\
  (in_range (p_subsat p') nsubsatbins = true -> p_subsat p = p_subsat p').

(* ================================================================== *)
(** * The buoyancy notebook

    The two functions of [notebooks/V1/V1_2_calc_save_bl] that look a
    pressure up in the sorted pressure levels; the notebook applies them to
    arrays, cell by cell. *)

Module CalcBL.

Section Terms.
Context {F : Type} {A : Arith F}.

(** The argument [side] of [np.searchsorted]. *)
Inductive side : Type := side_left | side_right.

(** NumPy's order on floats, which puts nan last: [x < y], or [y] is nan and
    [x] is not. *)
Definition np_less (x y : F) : bool := fltb x y || (negb (fleb y y) && fleb x x).

(** [np.searchsorted(levels, a, side)] on a sorted array: the number of
    levels before [a], strictly for ['left'], before or equal for
    ['right']. *)
Definition np_searchsorted (levels : list F) (a : F) (s : side) : nat :=
  length (filter (fun l => match s with
                           | side_left => np_less l a
                           | side_right => negb (np_less a l)
                           end) levels).

Definition get_p_above (a : F) (levels : list F) (s : side) : result F :=
  let idx := np_searchsorted levels a s in
  cell levels (Z.max (Z.of_nat idx - 1) 0).

Definition get_p_below (a : F) (levels : list F) (s : side) : result F :=
  let idx := np_searchsorted levels a s in
  cell levels (Z.min (Z.of_nat idx) (Z.of_nat (length levels) - 1)).
End Terms.

End CalcBL.

(** What the comparisons of the rationals and of binary64 both satisfy. *)
Definition comparison_laws {F} {A : Arith F} : Prop :=
  (forall x y z : F, fltb x y = true -> fltb y z = true -> fltb x z = true) /\
  (forall x y : F, fleb x y = true -> fltb y x = false) /\
  (forall x y : F, fleb x x = true -> fleb y y = true ->
                   fltb x y = false -> fleb y x = true).

(* ================================================================== *)
(** * Lists, arrays and loops *)

Unset Implicit Arguments.

Lemma set_nth_apply_at {T} (a : list T) (n : nat) (f : T -> T) (x : T) :
  nth_error a n = Some x -> set_nth a n (f x) = apply_at n f a.
Proof.
  revert n; induction a as [|y t IH]; intros [|n] H; simpl in *; try discriminate.
  - now inversion H.
  - f_equal; auto.
Qed.

Lemma length_apply_at {T} (n : nat) (f : T -> T) (a : list T) :
  length (apply_at n f a) = length a.
Proof.
  revert n; induction a as [|y t IH]; intros [|n]; simpl; auto.
Qed.

Lemma nth_apply_at {T} (n j : nat) (f : T -> T) (a : list T) (d : T) :
  j < length a ->
  nth j (apply_at n f a) d = if Nat.eqb n j then f (nth j a d) else nth j a d.
Proof.
  revert n j; induction a as [|y t IH]; intros [|n] [|j] H; simpl in *;
    try lia; auto.
  apply IH; lia.
Qed.

Lemma rmw_ok {T} (a : list T) (i : Z) (f : T -> T) :
  in_range i (length a) = true ->
  rmw a i f = Ok (apply_at (Z.to_nat i) f a).
Proof.
  unfold in_range, rmw, cell; intros H.
  apply andb_prop in H; destruct H as [H0 H1].
  apply Z.leb_le in H0; apply Z.ltb_lt in H1.
  destruct (Z.ltb_spec i 0) as [?|_]; [lia|].
  destruct (nth_error a (Z.to_nat i)) as [x|] eqn:E.
  - simpl; now rewrite (set_nth_apply_at a _ f x E).
  - apply nth_error_None in E; lia.
Qed.

Lemma rmw2_ok {T} (a : list (list T)) (i j : Z) (f : T -> T) (ncols : nat) :
  Forall (fun r => length r = ncols) a ->
  in_range i (length a) = true -> in_range j ncols = true ->
  rmw2 a i j f = Ok (apply_at (Z.to_nat i) (apply_at (Z.to_nat j) f) a).
Proof.
  intros Hrows Hi Hj; unfold rmw2, cell.
  pose proof Hi as Hi'; unfold in_range in Hi'.
  apply andb_prop in Hi'; destruct Hi' as [H0 H1].
  apply Z.leb_le in H0; apply Z.ltb_lt in H1.
  destruct (Z.ltb_spec i 0) as [?|_]; [lia|].
  destruct (nth_error a (Z.to_nat i)) as [row|] eqn:E.
  - simpl. assert (Hlen : length row = ncols).
    { rewrite Forall_forall in Hrows; apply Hrows; eapply nth_error_In; eauto. }
    rewrite rmw_ok by (now rewrite Hlen). simpl.
    f_equal; revert E; generalize (Z.to_nat i); clear.
    induction a as [|y t IH]; intros [|n] E; simpl in *; try discriminate.
    + now inversion E.
    + f_equal; auto.
  - apply nth_error_None in E; lia.
Qed.

Lemma for_each_list {P St} (pts : list P) (g : St -> P -> St)
    (Inv : St -> Prop) (body : nat -> St -> result St) :
  (forall i p st, nth_error pts i = Some p -> Inv st ->
                  body i st = Ok (g st p) /\ Inv (g st p)) ->
  forall st, Inv st ->
    for_each (range (length pts)) st body = Ok (fold_left g pts st)
    /\ Inv (fold_left g pts st).
Proof.
  unfold range.
  assert (G : forall (l : list P) k st,
             (forall i p st, nth_error l i = Some p -> Inv st ->
                             body (k + i) st = Ok (g st p) /\ Inv (g st p)) ->
             Inv st ->
             for_each (seq k (length l)) st body = Ok (fold_left g l st)
             /\ Inv (fold_left g l st)).
  { induction l as [|p l IH]; intros k st H Hst; simpl; [auto|].
    destruct (H 0 p st eq_refl Hst) as [E Hst'].
    rewrite Nat.add_0_r in E; rewrite E; simpl.
    apply IH; auto.
    intros i q st0 Hq Hst0.
    replace (S k + i) with (k + S i) by lia. now apply H. }
  intros H st Hst. apply (G pts 0 st); auto.
Qed.

Lemma zip4_nth_error {X1 X2 X3 X4 Y} (f : X1 -> X2 -> X3 -> X4 -> Y)
    l1 l2 l3 l4 i y :
  nth_error (zip4 f l1 l2 l3 l4) i = Some y ->
  exists x1 x2 x3 x4,
    nth_error l1 i = Some x1 /\ nth_error l2 i = Some x2 /\
    nth_error l3 i = Some x3 /\ nth_error l4 i = Some x4 /\ y = f x1 x2 x3 x4.
Proof.
  revert l2 l3 l4 i.
  induction l1 as [|x1 t1 IH]; intros [|x2 t2] [|x3 t3] [|x4 t4] [|i] H;
    simpl in *; try discriminate.
  - inversion H; subst. now exists x1, x2, x3, x4.
  - now apply IH.
Qed.

Lemma length_zip4 {X1 X2 X3 X4 Y} (f : X1 -> X2 -> X3 -> X4 -> Y) l1 l2 l3 l4 :
  length l1 = length l4 -> length l2 = length l4 -> length l3 = length l4 ->
  length (zip4 f l1 l2 l3 l4) = length l4.
Proof.
  revert l2 l3 l4.
  induction l1 as [|x1 t1 IH]; intros [|x2 t2] [|x3 t3] [|x4 t4] H1 H2 H3;
    simpl in *; try discriminate; auto.
Qed.

Lemma Forall_apply_at {T} (Pr : T -> Prop) (n : nat) (f : T -> T) (a : list T) :
  (forall x, Pr x -> Pr (f x)) -> Forall Pr a -> Forall Pr (apply_at n f a).
Proof.
  intros Hf; revert n; induction a as [|y t IH]; intros [|n] H; simpl; auto;
    inversion H; subst; constructor; auto.
Qed.

(** The case analysis on the guards of one loop iteration, shared by the two
    kernels: under a guard the read-modify-writes succeed, by [rmw_ok] and
    [rmw2_ok]. *)
Ltac in_bounds := solve [auto | unfold in_range; congruence].

Ltac joint_cases capeidx subsatidx ncapebins nsubsatbins :=
  let E2 := fresh "E2" in
  let E3 := fresh "E3" in
  destruct ((0 <=? subsatidx)%Z && (subsatidx <? Z.of_nat nsubsatbins)%Z) eqn:E2;
  simpl; auto;
  destruct ((0 <=? capeidx)%Z && (capeidx <? Z.of_nat ncapebins)%Z) eqn:E3;
  simpl; auto.

Ltac guard_cases blidx capeidx subsatidx prval prthresh
                 nblbins ncapebins nsubsatbins :=
  let E1 := fresh "E1" in
  let Ef := fresh "Ef" in
  let Et := fresh "Et" in
  destruct ((0 <=? blidx)%Z && (blidx <? Z.of_nat nblbins)%Z) eqn:E1; simpl;
  (destruct (isfinite prval) eqn:Ef; simpl;
   [|rewrite !andb_false_r; reflexivity]);
  [ rewrite !rmw_ok by in_bounds; simpl;
    destruct (fltb prthresh prval) eqn:Et; simpl;
    rewrite ?rmw_ok by in_bounds; simpl;
    rewrite !andb_true_r;
    joint_cases capeidx subsatidx ncapebins nsubsatbins;
    rewrite ?Et; simpl;
    rewrite !(@rmw2_ok _ _ _ _ _ ncapebins) by in_bounds; reflexivity
  | rewrite !andb_true_r;
    joint_cases capeidx subsatidx ncapebins nsubsatbins;
    destruct (fltb prthresh prval) eqn:Et; simpl;
    rewrite !(@rmw2_ok _ _ _ _ _ ncapebins) by in_bounds; reflexivity ].

Section KernelFacts.
Context {F : Type} {A : Arith F}.
Variables nblbins ncapebins nsubsatbins : nat.
Variable prthresh : F.

Lemma shaped_init : shaped nblbins ncapebins nsubsatbins (init_stats nblbins ncapebins nsubsatbins).
Proof.
  unfold shaped, init_stats, zeros, zeros2; simpl.
  rewrite !repeat_length.
  repeat split; auto; apply Forall_forall; intros r Hr;
    apply repeat_spec in Hr; subst; apply repeat_length.
Qed.

Lemma shaped_step st p :
  shaped nblbins ncapebins nsubsatbins st ->
  shaped nblbins ncapebins nsubsatbins (step nblbins ncapebins nsubsatbins prthresh st p).
Proof.
  unfold shaped, step.
  intros (H1 & H2 & H3 & H4 & H5 & H6 & H7 & H8 & H9).
  assert (R : forall T (f : T -> T) n (a : list (list T)),
             Forall (fun r => length r = ncapebins) a ->
             Forall (fun r => length r = ncapebins) (apply_at n (apply_at (Z.to_nat (p_cape p)) f) a)).
  { intros T f n a Ha. apply Forall_apply_at; auto.
    intros x Hx. now rewrite length_apply_at. }
  destruct (valid1 nblbins p), (valid2 ncapebins nsubsatbins p),
    (exceeds prthresh p); simpl;
    rewrite ?length_apply_at; repeat split; auto.
Qed.

Lemma kernel_body_step blidx capeidx subsatidx prval st :
  shaped nblbins ncapebins nsubsatbins st ->
  (st' <- (if (0 <=? blidx)%Z && (blidx <? Z.of_nat nblbins)%Z
              && isfinite prval
           then
             q0 <- rmw (Q0 st) blidx incr ;;
             q1 <- rmw (Q1 st) blidx (fun s => fadd s prval) ;;
             qe <- (if fltb prthresh prval
                    then rmw (QE st) blidx incr
                    else Ok (QE st)) ;;
             Ok {| Q0 := q0; QE := qe; Q1 := q1;
                   P0 := P0 st; PE := PE st; P1 := P1 st |}
           else Ok st) ;;
   (if (0 <=? subsatidx)%Z && (subsatidx <? Z.of_nat nsubsatbins)%Z
       && ((0 <=? capeidx)%Z && (capeidx <? Z.of_nat ncapebins)%Z)
       && isfinite prval
    then
      p0 <- rmw2 (P0 st') subsatidx capeidx incr ;;
      p1 <- rmw2 (P1 st') subsatidx capeidx (fun s => fadd s prval) ;;
      pe <- (if fltb prthresh prval
             then rmw2 (PE st') subsatidx capeidx incr
             else Ok (PE st')) ;;
      Ok {| Q0 := Q0 st'; QE := QE st'; Q1 := Q1 st';
            P0 := p0; PE := pe; P1 := p1 |}
    else Ok st'))
  = Ok (step nblbins ncapebins nsubsatbins prthresh st
             (Build_point blidx capeidx subsatidx prval)).
Proof.
  intros (H1 & H2 & H3 & H4 & H5 & H6 & H7 & H8 & H9).
  unfold step, valid1, valid2, exceeds, in_range; simpl.
  guard_cases blidx capeidx subsatidx prval prthresh
              nblbins ncapebins nsubsatbins.
Qed.

(** With input arrays of one length the kernel runs to the end, and its
    result is the reference [run] on the points. *)
Lemma fast_binned_stats_run blidxs capeidxs subsatidxs prdata :
  length blidxs = length prdata ->
  length capeidxs = length prdata ->
  length subsatidxs = length prdata ->
  fast_binned_stats blidxs capeidxs subsatidxs prdata
                    nblbins ncapebins nsubsatbins prthresh
  = Ok (run nblbins ncapebins nsubsatbins prthresh
            (points blidxs capeidxs subsatidxs prdata)).
Proof.
  intros L1 L2 L3. unfold fast_binned_stats, run.
  rewrite <- (length_zip4 (@Build_point F) _ _ _ _ L1 L2 L3).
  fold (points blidxs capeidxs subsatidxs prdata).
  change {| Q0 := zeros 0%Z nblbins; QE := zeros 0%Z nblbins;
            Q1 := zeros fzero nblbins;
            P0 := zeros2 0%Z nsubsatbins ncapebins;
            PE := zeros2 0%Z nsubsatbins ncapebins;
            P1 := zeros2 fzero nsubsatbins ncapebins |}
    with (init_stats nblbins ncapebins nsubsatbins).
  apply (for_each_list (points blidxs capeidxs subsatidxs prdata)
           (step nblbins ncapebins nsubsatbins prthresh)
           (shaped nblbins ncapebins nsubsatbins)); [|apply shaped_init].
  intros i p st Hp Hst.
  apply zip4_nth_error in Hp.
  destruct Hp as (b & c & s & v & Hb & Hc & Hs & Hv & ->).
  unfold flat. rewrite Hb, Hc, Hs, Hv. simpl bind at 1.
  split; [|now apply shaped_step].
  cbn [bind]. now apply kernel_body_step.
Qed.

End KernelFacts.

(* ================================================================== *)
(** * Scatter-add, cell by cell *)

Lemma fold_left_if {T P} (g : P -> bool) (h : T -> P -> T) (pts : list P) (a : T) :
  fold_left (fun a p => if g p then h a p else a) pts a
  = fold_left h (filter g pts) a.
Proof.
  revert a; induction pts as [|p pts IH]; intros a; simpl; auto.
  destruct (g p); simpl; auto.
Qed.

Lemma filter_and {T} (f g : T -> bool) (l : list T) :
  filter f (filter g l) = filter (fun x => g x && f x) l.
Proof.
  induction l as [|x l IH]; simpl; auto.
  destruct (g x); simpl; [destruct (f x)|]; simpl; congruence.
Qed.

Lemma length_fold_apply_at {T P} (key : P -> nat) (f : P -> T -> T) pts (a : list T) :
  length (fold_left (fun a p => apply_at (key p) (f p) a) pts a) = length a.
Proof.
  revert a; induction pts as [|p pts IH]; intros a; simpl; auto.
  now rewrite IH, length_apply_at.
Qed.

(** Cell [j] after a scatter of updates keyed by [key]: the updates of the
    points whose key is [j], applied in order. *)
Lemma nth_scatter {T P} (key : P -> Z) (f : P -> T -> T) (pts : list P)
    (a : list T) (j : nat) (d : T) :
  Forall (fun p => (0 <= key p)%Z) pts -> j < length a ->
  nth j (fold_left (fun a p => apply_at (Z.to_nat (key p)) (f p) a) pts a) d
  = fold_left (fun x p => f p x)
              (filter (fun p => (key p =? Z.of_nat j)%Z) pts) (nth j a d).
Proof.
  intros Hk; revert a; induction Hk as [|p pts Hp Hk IH]; intros a Hj; simpl; auto.
  rewrite IH by (now rewrite length_apply_at).
  rewrite nth_apply_at by assumption.
  destruct (Z.eqb_spec (key p) (Z.of_nat j)) as [E|E].
  - rewrite E, Nat2Z.id, Nat.eqb_refl. reflexivity.
  - destruct (Nat.eqb_spec (Z.to_nat (key p)) j) as [E'|E']; [|reflexivity].
    exfalso; apply E; lia.
Qed.

Lemma fold_incr {P} (l : list P) (z : Z) :
  fold_left (fun x _ => incr x) l z = (z + Z.of_nat (length l))%Z.
Proof.
  revert z; induction l as [|p l IH]; intros z; simpl length.
  - simpl; lia.
  - simpl fold_left. rewrite IH. unfold incr. lia.
Qed.

Lemma nth_zeros {T} (z : T) (n j : nat) : nth j (zeros z n) z = z.
Proof.
  unfold zeros. revert j; induction n as [|n IH]; intros [|j]; simpl; auto.
Qed.

Lemma nth_zeros2 {T} (z : T) (rows cols a : nat) :
  a < rows -> nth a (zeros2 z rows cols) [] = zeros z cols.
Proof.
  unfold zeros2, zeros. intros H. apply nth_repeat_lt; exact H.
Qed.

Lemma fold_left_map_r {X Y T} (h : T -> Y -> T) (k : X -> Y) (l : list X) (z : T) :
  fold_left (fun x p => h x (k p)) l z = fold_left h (map k l) z.
Proof.
  revert z; induction l as [|p l IH]; intros z; simpl; auto.
Qed.

(** One accumulator of the folded state is the fold of its own updates. *)
Ltac project_fold pts st :=
  rewrite <- fold_left_if;
  revert st; induction pts as [|? pts IH]; intros st; simpl; auto;
  rewrite IH; f_equal; unfold step;
  repeat match goal with
         | |- context [valid1 ?n ?p] => destruct (valid1 n p)
         | |- context [valid2 ?n ?m ?p] => destruct (valid2 n m p)
         | |- context [exceeds ?t ?p] => destruct (exceeds t p)
         end;
  reflexivity.

Section Cells.
Context {F : Type} {A : Arith F}.
Variables nblbins ncapebins nsubsatbins : nat.
Variable prthresh : F.

Local Abbreviation step' := (step nblbins ncapebins nsubsatbins prthresh).

Lemma Q0_fold pts st :
  Q0 (fold_left step' pts st)
  = fold_left (fun a p => apply_at (Z.to_nat (p_bl p)) incr a)
              (filter (valid1 nblbins) pts) (Q0 st).
Proof.
  project_fold pts st.
Qed.

Lemma QE_fold pts st :
  QE (fold_left step' pts st)
  = fold_left (fun a p => apply_at (Z.to_nat (p_bl p)) incr a)
              (filter (fun p => valid1 nblbins p && exceeds prthresh p) pts) (QE st).
Proof.
  project_fold pts st.
Qed.

Lemma Q1_fold pts st :
  Q1 (fold_left step' pts st)
  = fold_left (fun a p => apply_at (Z.to_nat (p_bl p)) (fun s => fadd s (p_pr p)) a)
              (filter (valid1 nblbins) pts) (Q1 st).
Proof.
  project_fold pts st.
Qed.

Lemma P0_fold pts st :
  P0 (fold_left step' pts st)
  = fold_left (fun a p => apply_at (Z.to_nat (p_subsat p))
                                   (apply_at (Z.to_nat (p_cape p)) incr) a)
              (filter (valid2 ncapebins nsubsatbins) pts) (P0 st).
Proof.
  project_fold pts st.
Qed.

Lemma PE_fold pts st :
  PE (fold_left step' pts st)
  = fold_left (fun a p => apply_at (Z.to_nat (p_subsat p))
                                   (apply_at (Z.to_nat (p_cape p)) incr) a)
              (filter (fun p => valid2 ncapebins nsubsatbins p && exceeds prthresh p) pts)
              (PE st).
Proof.
  project_fold pts st.
Qed.

Lemma P1_fold pts st :
  P1 (fold_left step' pts st)
  = fold_left (fun a p => apply_at (Z.to_nat (p_subsat p))
                            (apply_at (Z.to_nat (p_cape p)) (fun s => fadd s (p_pr p))) a)
              (filter (valid2 ncapebins nsubsatbins) pts) (P1 st).
Proof.
  project_fold pts st.
Qed.

Lemma valid1_in_bin (g : point F -> bool) i pts :
  i < nblbins ->
  filter (fun p => (p_bl p =? Z.of_nat i)%Z) (filter (fun p => valid1 nblbins p && g p) pts)
  = filter (fun p => in_bin i p && g p) pts.
Proof.
  intros Hi. rewrite filter_and. apply filter_ext. intros p.
  unfold valid1, in_bin, in_range.
  destruct (Z.eqb_spec (p_bl p) (Z.of_nat i)) as [E|E].
  - rewrite E. destruct (Z.leb_spec 0 (Z.of_nat i)); [|lia].
    destruct (Z.ltb_spec (Z.of_nat i) (Z.of_nat nblbins)); [|lia].
    simpl. now rewrite !andb_true_r.
  - now rewrite !andb_false_r.
Qed.

Lemma valid2_in_cell (g : point F -> bool) a b pts :
  a < nsubsatbins -> b < ncapebins ->
  filter (fun p => (p_cape p =? Z.of_nat b)%Z)
    (filter (fun p => (p_subsat p =? Z.of_nat a)%Z)
       (filter (fun p => valid2 ncapebins nsubsatbins p && g p) pts))
  = filter (fun p => in_cell a b p && g p) pts.
Proof.
  intros Ha Hb. rewrite !filter_and. apply filter_ext. intros p.
  unfold valid2, in_cell, in_range.
  destruct (Z.eqb_spec (p_subsat p) (Z.of_nat a)) as [E|E];
    [|now rewrite ?andb_false_r].
  destruct (Z.eqb_spec (p_cape p) (Z.of_nat b)) as [E'|E'];
    [|now rewrite ?andb_false_r].
  rewrite E, E'.
  destruct (Z.leb_spec 0 (Z.of_nat a)); [|lia].
  destruct (Z.ltb_spec (Z.of_nat a) (Z.of_nat nsubsatbins)); [|lia].
  destruct (Z.leb_spec 0 (Z.of_nat b)); [|lia].
  destruct (Z.ltb_spec (Z.of_nat b) (Z.of_nat ncapebins)); [|lia].
  simpl. now rewrite !andb_true_r.
Qed.

Lemma valid1_nonneg (g : point F -> bool) pts :
  Forall (fun p => (0 <= p_bl p)%Z) (filter (fun p => valid1 nblbins p && g p) pts).
Proof.
  apply Forall_forall. intros p Hp. apply filter_In in Hp. destruct Hp as [_ Hp].
  unfold valid1, in_range in Hp.
  destruct (Z.leb_spec 0 (p_bl p)); [assumption|discriminate].
Qed.

Lemma valid2_nonneg (g : point F -> bool) pts :
  Forall (fun p => (0 <= p_subsat p)%Z /\ (0 <= p_cape p)%Z)
         (filter (fun p => valid2 ncapebins nsubsatbins p && g p) pts).
Proof.
  apply Forall_forall. intros p Hp. apply filter_In in Hp. destruct Hp as [_ Hp].
  unfold valid2, in_range in Hp.
  destruct (Z.leb_spec 0 (p_subsat p)); [|discriminate].
  destruct (Z.leb_spec 0 (p_cape p)); [auto|].
  simpl in Hp. now rewrite !andb_false_r in Hp.
Qed.

Lemma cell1 {T} (g : point F -> bool) (f : point F -> T -> T) pts (a : list T) i d :
  i < nblbins -> length a = nblbins ->
  nth i (fold_left (fun a p => apply_at (Z.to_nat (p_bl p)) (f p) a)
                   (filter (fun p => valid1 nblbins p && g p) pts) a) d
  = fold_left (fun x p => f p x) (filter (fun p => in_bin i p && g p) pts) (nth i a d).
Proof.
  intros Hi Ha.
  rewrite (nth_scatter (@p_bl F) f) by (auto using valid1_nonneg; lia).
  now rewrite valid1_in_bin.
Qed.

Lemma cell2 {T} (g : point F -> bool) (f : point F -> T -> T) pts
    (P : list (list T)) a b d :
  a < nsubsatbins -> b < ncapebins ->
  length P = nsubsatbins -> length (nth a P []) = ncapebins ->
  nth b (nth a (fold_left (fun P p => apply_at (Z.to_nat (p_subsat p))
                                        (apply_at (Z.to_nat (p_cape p)) (f p)) P)
                          (filter (fun p => valid2 ncapebins nsubsatbins p && g p) pts) P)
               []) d
  = fold_left (fun x p => f p x) (filter (fun p => in_cell a b p && g p) pts)
              (nth b (nth a P []) d).
Proof.
  intros Ha Hb HP Hrow.
  pose proof (valid2_nonneg g pts) as Hnn.
  rewrite (nth_scatter (@p_subsat F) (fun p => apply_at (Z.to_nat (p_cape p)) (f p)));
    [|apply (Forall_impl _ (fun p H => proj1 H) Hnn)|lia].
  rewrite (nth_scatter (@p_cape F) f); try lia.
  - now rewrite valid2_in_cell.
  - apply Forall_forall. intros p Hp. apply filter_In in Hp. destruct Hp as [Hp _].
    rewrite Forall_forall in Hnn. now apply Hnn.
Qed.

Lemma filter_true_r {T} (f : T -> bool) (l : list T) :
  filter f l = filter (fun x => f x && true) l.
Proof. apply filter_ext. intros x. now rewrite andb_true_r. Qed.

(** The cells of the reference run. *)
Lemma run_cells1 pts i :
  i < nblbins ->
  let r := run nblbins ncapebins nsubsatbins prthresh pts in
  nth i (Q0 r) 0%Z = count (in_bin i) pts /\
  nth i (Q1 r) fzero = fsum (map (@p_pr F) (filter (in_bin i) pts)) /\
  nth i (QE r) 0%Z = count (fun p => in_bin i p && exceeds prthresh p) pts.
Proof.
  intros Hi r. unfold r, run.
  rewrite Q0_fold, Q1_fold, QE_fold. unfold init_stats; simpl.
  rewrite (filter_true_r (valid1 nblbins)).
  rewrite !cell1 by (auto; unfold zeros; apply repeat_length).
  rewrite !nth_zeros, !fold_incr. unfold count.
  rewrite <- !filter_true_r. repeat split; auto.
  unfold fsum. now rewrite <- fold_left_map_r.
Qed.

Lemma run_cells2 pts a b :
  a < nsubsatbins -> b < ncapebins ->
  let r := run nblbins ncapebins nsubsatbins prthresh pts in
  nth b (nth a (P0 r) []) 0%Z = count (in_cell a b) pts /\
  nth b (nth a (P1 r) []) fzero = fsum (map (@p_pr F) (filter (in_cell a b) pts)) /\
  nth b (nth a (PE r) []) 0%Z = count (fun p => in_cell a b p && exceeds prthresh p) pts.
Proof.
  intros Ha Hb r. unfold r, run.
  rewrite P0_fold, P1_fold, PE_fold. unfold init_stats; simpl.
  rewrite (filter_true_r (valid2 ncapebins nsubsatbins)).
  rewrite !cell2
    by (auto; unfold zeros2; rewrite ?repeat_length; auto;
        rewrite nth_repeat_lt by assumption; apply repeat_length).
  rewrite !nth_zeros2 by assumption.
  rewrite !nth_zeros, !fold_incr. unfold count.
  rewrite <- !filter_true_r. repeat split; auto.
  unfold fsum. now rewrite <- fold_left_map_r.
Qed.

Lemma shaped_run pts :
  shaped nblbins ncapebins nsubsatbins (run nblbins ncapebins nsubsatbins prthresh pts).
Proof.
  unfold run. generalize (shaped_init (F:=F) nblbins ncapebins nsubsatbins).
  generalize (init_stats (F:=F) nblbins ncapebins nsubsatbins).
  induction pts as [|p pts IH]; intros st Hst; simpl; auto.
  apply IH. now apply shaped_step.
Qed.

End Cells.

(* ================================================================== *)
(** * Order of the points, chunks, totals *)



Lemma count_app {T} (f : T -> bool) (l l' : list T) :
  count f (l ++ l') = (count f l + count f l')%Z.
Proof. unfold count. rewrite filter_app, length_app. lia. Qed.

Lemma count_le {T} (f g : T -> bool) (l : list T) :
  (count (fun x => f x && g x) l <= count f l)%Z.
Proof.
  unfold count. apply inj_le.
  induction l as [|x l IH]; simpl; auto.
  destruct (f x), (g x); simpl; lia.
Qed.

Lemma zip4_app {X1 X2 X3 X4 Y} (f : X1 -> X2 -> X3 -> X4 -> Y)
    a1 a2 a3 a4 b1 b2 b3 b4 :
  length a1 = length a4 -> length a2 = length a4 -> length a3 = length a4 ->
  zip4 f (a1 ++ b1) (a2 ++ b2) (a3 ++ b3) (a4 ++ b4)
  = zip4 f a1 a2 a3 a4 ++ zip4 f b1 b2 b3 b4.
Proof.
  revert a2 a3 a4.
  induction a1 as [|x1 t1 IH]; intros [|x2 t2] [|x3 t3] [|x4 t4] H1 H2 H3;
    simpl in *; try discriminate; auto.
  f_equal. apply IH; congruence.
Qed.




Lemma Zsum_cons (x : Z) (l : list Z) : Zsum (x :: l) = (x + Zsum l)%Z.
Proof. reflexivity. Qed.

Lemma Zsum_apply_at_incr (n : nat) (a : list Z) :
  n < length a -> Zsum (apply_at n incr a) = (Zsum a + 1)%Z.
Proof.
  revert n; induction a as [|x a IH]; intros [|n] H; simpl in H; try lia;
    simpl apply_at; rewrite !Zsum_cons.
  - unfold incr. lia.
  - rewrite IH by lia. lia.
Qed.

Lemma Zsum2_apply_at_incr (i j cols : nat) (a : list (list Z)) :
  Forall (fun r => length r = cols) a -> i < length a -> j < cols ->
  Zsum (map Zsum (apply_at i (apply_at j incr) a)) = (Zsum (map Zsum a) + 1)%Z.
Proof.
  intros Fa; revert i; induction Fa as [|r a Hr Fa IH]; intros [|i] Hi Hj;
    simpl in Hi; try lia; simpl apply_at; simpl map; rewrite !Zsum_cons.
  - rewrite Zsum_apply_at_incr by lia. lia.
  - rewrite IH by lia. lia.
Qed.

Lemma Zsum_zeros (n : nat) : Zsum (zeros 0%Z n) = 0%Z.
Proof. unfold zeros. induction n; simpl repeat; rewrite ?Zsum_cons; auto. Qed.

Lemma Zsum_zeros2 (rows cols : nat) : Zsum (map Zsum (zeros2 0%Z rows cols)) = 0%Z.
Proof.
  unfold zeros2. induction rows; simpl repeat; simpl map; auto.
  rewrite Zsum_cons. fold (zeros 0%Z cols). rewrite Zsum_zeros. auto.
Qed.

Section Sums.
Context {F : Type} {A : Arith F}.





Variables nblbins ncapebins nsubsatbins : nat.
Variable prthresh : F.

Lemma Zsum_Q0_run pts :
  Zsum (Q0 (run nblbins ncapebins nsubsatbins prthresh pts))
  = count (valid1 nblbins) pts.
Proof.
  unfold run. rewrite Q0_fold. unfold count, init_stats; simpl.
  assert (G : forall l a, length a = nblbins ->
    Forall (fun p => valid1 nblbins p = true) l ->
    Zsum (fold_left (fun a p => apply_at (Z.to_nat (p_bl p)) incr a) l a)
    = (Zsum a + Z.of_nat (length l))%Z).
  { induction l as [|p l IH]; intros a Ha Hl; simpl fold_left; simpl length; [lia|].
    apply Forall_cons_iff in Hl; destruct Hl as [Hp Hl'].
    rewrite IH by (rewrite ?length_apply_at; auto).
    rewrite Zsum_apply_at_incr; [lia|].
    unfold valid1, in_range in Hp.
    destruct (Z.leb_spec 0 (p_bl p)); [|discriminate].
    destruct (Z.ltb_spec (p_bl p) (Z.of_nat nblbins)); [|discriminate]. lia. }
  rewrite G.
  - rewrite Zsum_zeros. lia.
  - unfold zeros. apply repeat_length.
  - apply Forall_forall. intros p Hp. now apply filter_In in Hp.
Qed.

Lemma Zsum_P0_run pts :
  Zsum (map Zsum (P0 (run nblbins ncapebins nsubsatbins prthresh pts)))
  = count (valid2 ncapebins nsubsatbins) pts.
Proof.
  unfold run. rewrite P0_fold. unfold count, init_stats; simpl.
  assert (G : forall l a, length a = nsubsatbins ->
    Forall (fun r => length r = ncapebins) a ->
    Forall (fun p => valid2 ncapebins nsubsatbins p = true) l ->
    Zsum (map Zsum (fold_left
           (fun a p => apply_at (Z.to_nat (p_subsat p))
                                (apply_at (Z.to_nat (p_cape p)) incr) a) l a))
    = (Zsum (map Zsum a) + Z.of_nat (length l))%Z).
  { induction l as [|p l IH]; intros a Ha Fa Hl; simpl fold_left; simpl length; [lia|].
    apply Forall_cons_iff in Hl; destruct Hl as [Hp Hl'].
    rewrite IH; auto.
    - unfold valid2, in_range in Hp.
      apply andb_prop in Hp; destruct Hp as [Hp _].
      apply andb_prop in Hp; destruct Hp as [Hs Hc].
      apply andb_prop in Hs; destruct Hs as [Hs0 Hs1].
      apply andb_prop in Hc; destruct Hc as [Hc0 Hc1].
      apply Z.leb_le in Hs0, Hc0. apply Z.ltb_lt in Hs1, Hc1.
      rewrite (@Zsum2_apply_at_incr _ _ ncapebins) by (auto; lia). lia.
    - now rewrite length_apply_at.
    - apply Forall_apply_at; auto. intros r Hr. now rewrite length_apply_at. }
  rewrite G.
  - rewrite Zsum_zeros2. lia.
  - unfold zeros2. apply repeat_length.
  - apply Forall_forall. intros r Hr. unfold zeros2 in Hr.
    apply repeat_spec in Hr. subst. apply repeat_length.
  - apply Forall_forall. intros p Hp. now apply filter_In in Hp.
Qed.

End Sums.

(* ================================================================== *)
(** * The loops of the earlier revision *)

Lemma fold_left_concat {T P} (g : T -> P -> T) (ll : list (list P)) (st : T) :
  fold_left (fun st l => fold_left g l st) ll st = fold_left g (concat ll) st.
Proof.
  revert st; induction ll as [|l ll IH]; intros st; simpl; auto.
  now rewrite fold_left_app, IH.
Qed.

Lemma length_concat_rect {T} (a : list (list T)) (m : nat) :
  Forall (fun r => length r = m) a -> length (concat a) = length a * m.
Proof.
  induction 1 as [|r a Hr _ IH]; simpl; auto.
  rewrite length_app, IH, Hr. reflexivity.
Qed.

Lemma concat_zip4 {X1 X2 X3 X4 Y} (f : X1 -> X2 -> X3 -> X4 -> Y) (m : nat)
    a1 a2 a3 a4 :
  length a1 = length a4 -> length a2 = length a4 -> length a3 = length a4 ->
  Forall (fun r => length r = m) a1 -> Forall (fun r => length r = m) a2 ->
  Forall (fun r => length r = m) a3 -> Forall (fun r => length r = m) a4 ->
  concat (zip4 (zip4 f) a1 a2 a3 a4)
  = zip4 f (concat a1) (concat a2) (concat a3) (concat a4).
Proof.
  revert a2 a3 a4.
  induction a1 as [|r1 a1 IH]; intros [|r2 a2] [|r3 a3] [|r4 a4] L1 L2 L3 F1 F2 F3 F4;
    simpl in *; try discriminate; auto.
  apply Forall_cons_iff in F1, F2, F3, F4.
  destruct F1 as [H1 F1], F2 as [H2 F2], F3 as [H3 F3], F4 as [H4 F4].
  rewrite zip4_app by congruence.
  f_equal. apply IH; auto.
Qed.

Lemma Forall_concat' {T} (Pr : T -> Prop) (a : list (list T)) :
  Forall (Forall Pr) a -> Forall Pr (concat a).
Proof.
  induction 1 as [|r a Hr _ IH]; simpl; auto.
  apply Forall_app; auto.
Qed.

Lemma shape3_rows {T} (a : list (list (list T))) ntime nlat nlon :
  shape3 a ntime nlat nlon ->
  length a = ntime /\ Forall (fun plane => length plane = nlat) a /\
  length (concat a) = ntime * nlat /\
  Forall (fun row => length row = nlon) (concat a).
Proof.
  intros [L Fa]. split; [exact L|].
  assert (F1 : Forall (fun plane => length plane = nlat) a)
    by (eapply Forall_impl; [|exact Fa]; simpl; tauto).
  split; [exact F1|]. split.
  - rewrite (length_concat_rect _ _ F1). now rewrite L.
  - apply Forall_concat'. eapply Forall_impl; [|exact Fa]. simpl; tauto.
Qed.

(** The points of four arrays of one shape, flattened, are the points of the
    flattened arrays. *)
Lemma flat3_points3 {F} blidxs capeidxs subsatidxs (pr : list (list (list F)))
    ntime nlat nlon :
  shape3 blidxs ntime nlat nlon -> shape3 capeidxs ntime nlat nlon ->
  shape3 subsatidxs ntime nlat nlon -> shape3 pr ntime nlat nlon ->
  flat3 (points3 blidxs capeidxs subsatidxs pr)
  = points (flat3 blidxs) (flat3 capeidxs) (flat3 subsatidxs) (flat3 pr).
Proof.
  intros S1 S2 S3 S4. unfold flat3, points3, points.
  apply shape3_rows in S1, S2, S3, S4.
  destruct S1 as (L1 & P1 & C1 & R1), S2 as (L2 & P2 & C2 & R2),
           S3 as (L3 & P3 & C3 & R3), S4 as (L4 & P4 & C4 & R4).
  rewrite (@concat_zip4 _ _ _ _ _ (zip4 (@Build_point F)) nlat) by congruence.
  apply (@concat_zip4 _ _ _ _ _ (@Build_point F) nlon); congruence.
Qed.

Section EarlierFacts.
Context {F : Type} {A : Arith F}.
Variable square : F -> F.
Variables nblbins ncapebins nsubsatbins : nat.
Variable prthresh : F.

Lemma shared_step8 st p :
  Earlier.shared (step8 square nblbins ncapebins nsubsatbins prthresh st p)
  = step nblbins ncapebins nsubsatbins prthresh (Earlier.shared st) p.
Proof.
  unfold step8, step, Earlier.shared.
  destruct (valid1 nblbins p), (valid2 ncapebins nsubsatbins p),
    (exceeds prthresh p); reflexivity.
Qed.

Lemma shared_fold8 pts st :
  Earlier.shared (fold_left (step8 square nblbins ncapebins nsubsatbins prthresh) pts st)
  = fold_left (step nblbins ncapebins nsubsatbins prthresh) pts (Earlier.shared st).
Proof.
  revert st; induction pts as [|p pts IH]; intros st; simpl; auto.
  now rewrite IH, shared_step8.
Qed.

Lemma shaped8_init : shaped8 nblbins ncapebins nsubsatbins (init8 nblbins ncapebins nsubsatbins).
Proof.
  unfold shaped8. split; [apply (shaped_init (F:=F))|].
  unfold init8, zeros, zeros2; simpl. rewrite !repeat_length.
  repeat split; auto. apply Forall_forall; intros r Hr.
  apply repeat_spec in Hr; subst; apply repeat_length.
Qed.

Lemma shaped8_step8 st p :
  shaped8 nblbins ncapebins nsubsatbins st ->
  shaped8 nblbins ncapebins nsubsatbins (step8 square nblbins ncapebins nsubsatbins prthresh st p).
Proof.
  intros (Hs & H2 & H3 & H4). unfold shaped8.
  rewrite shared_step8. split; [now apply shaped_step|].
  unfold step8.
  destruct (valid1 nblbins p), (valid2 ncapebins nsubsatbins p); simpl;
    rewrite ?length_apply_at; repeat split; auto;
    apply Forall_apply_at; auto; intros r Hr; now rewrite length_apply_at.
Qed.

Lemma shaped8_fold8 pts st :
  shaped8 nblbins ncapebins nsubsatbins st ->
  shaped8 nblbins ncapebins nsubsatbins
          (fold_left (step8 square nblbins ncapebins nsubsatbins prthresh) pts st).
Proof.
  revert st; induction pts as [|p pts IH]; intros st H; simpl; auto.
  apply IH. now apply shaped8_step8.
Qed.

Lemma earlier_body_step blidx capeidx subsatidx prval st :
  shaped8 nblbins ncapebins nsubsatbins st ->
  (let validpr := isfinite prval in
   let validbl := (0 <=? blidx)%Z && (blidx <? Z.of_nat nblbins)%Z in
   let validcape := (0 <=? capeidx)%Z && (capeidx <? Z.of_nat ncapebins)%Z in
   let validsubsat :=
     (0 <=? subsatidx)%Z && (subsatidx <? Z.of_nat nsubsatbins)%Z in
   st' <- (if validbl && validpr
           then
             q0 <- rmw (Earlier.Q0 st) blidx incr ;;
             q1 <- rmw (Earlier.Q1 st) blidx (fun s => fadd s prval) ;;
             q2 <- rmw (Earlier.Q2 st) blidx (fun s => fadd s (square prval)) ;;
             qe <- (if fltb prthresh prval
                    then rmw (Earlier.QE st) blidx incr
                    else Ok (Earlier.QE st)) ;;
             Ok {| Earlier.Q0 := q0; Earlier.Q1 := q1; Earlier.Q2 := q2;
                   Earlier.QE := qe;
                   Earlier.P0 := Earlier.P0 st; Earlier.P1 := Earlier.P1 st;
                   Earlier.P2 := Earlier.P2 st; Earlier.PE := Earlier.PE st |}
           else Ok st) ;;
   (if validcape && validsubsat && validpr
    then
      p0 <- rmw2 (Earlier.P0 st') subsatidx capeidx incr ;;
      p1 <- rmw2 (Earlier.P1 st') subsatidx capeidx (fun s => fadd s prval) ;;
      p2 <- rmw2 (Earlier.P2 st') subsatidx capeidx
                 (fun s => fadd s (square prval)) ;;
      pe <- (if fltb prthresh prval
             then rmw2 (Earlier.PE st') subsatidx capeidx incr
             else Ok (Earlier.PE st')) ;;
      Ok {| Earlier.Q0 := Earlier.Q0 st'; Earlier.Q1 := Earlier.Q1 st';
            Earlier.Q2 := Earlier.Q2 st'; Earlier.QE := Earlier.QE st';
            Earlier.P0 := p0; Earlier.P1 := p1; Earlier.P2 := p2;
            Earlier.PE := pe |}
    else Ok st'))
  = Ok (step8 square nblbins ncapebins nsubsatbins prthresh st
              (Build_point blidx capeidx subsatidx prval)).
Proof.
  intros ((H1 & H2 & H3 & H4 & H5 & H6 & H7 & H8 & H9) & G1 & G2 & G3).
  simpl in H1, H2, H3, H4, H5, H6, H7, H8, H9.
  cbv zeta.
  rewrite (andb_comm ((0 <=? capeidx)%Z && (capeidx <? Z.of_nat ncapebins)%Z)).
  unfold step8, valid1, valid2, exceeds, in_range; simpl.
  guard_cases blidx capeidx subsatidx prval prthresh
              nblbins ncapebins nsubsatbins.
Qed.

(** On four arrays of shape [(ntime, nlat, nlon)] the three loops run to the
    end, and visit the points in row-major order. *)
Lemma accumulate_run blidxs capeidxs subsatidxs pr ntime nlat nlon :
  shape3 blidxs ntime nlat nlon -> shape3 capeidxs ntime nlat nlon ->
  shape3 subsatidxs ntime nlat nlon -> shape3 pr ntime nlat nlon ->
  Earlier.accumulate square blidxs capeidxs subsatidxs pr ntime nlat nlon
                     nblbins ncapebins nsubsatbins prthresh
  = Ok (fold_left (step8 square nblbins ncapebins nsubsatbins prthresh)
                  (flat3 (points3 blidxs capeidxs subsatidxs pr))
                  (init8 nblbins ncapebins nsubsatbins)).
Proof.
  intros S1 S2 S3 S4. unfold Earlier.accumulate, flat3.
  rewrite <- !fold_left_concat.
  change {| Earlier.Q0 := zeros 0%Z nblbins;
            Earlier.Q1 := zeros fzero nblbins;
            Earlier.Q2 := zeros fzero nblbins;
            Earlier.QE := zeros 0%Z nblbins;
            Earlier.P0 := zeros2 0%Z nsubsatbins ncapebins;
            Earlier.P1 := zeros2 fzero nsubsatbins ncapebins;
            Earlier.P2 := zeros2 fzero nsubsatbins ncapebins;
            Earlier.PE := zeros2 0%Z nsubsatbins ncapebins |}
    with (init8 nblbins ncapebins nsubsatbins).
  destruct S1 as [L1 F1], S2 as [L2 F2], S3 as [L3 F3], S4 as [L4 F4].
  rewrite Forall_forall in F1, F2, F3, F4.
  replace ntime with (length (points3 blidxs capeidxs subsatidxs pr))
    by (unfold points3; rewrite length_zip4; congruence).
  apply (for_each_list (points3 blidxs capeidxs subsatidxs pr)
           (fun st plane => fold_left
              (fun st row => fold_left (step8 square nblbins ncapebins nsubsatbins prthresh) row st)
              plane st)
           (shaped8 nblbins ncapebins nsubsatbins)); [|apply shaped8_init].
  intros t plane st Hplane Hst.
  apply zip4_nth_error in Hplane.
  destruct Hplane as (pb & pc & ps & pv & Hb & Hc & Hs & Hv & ->).
  destruct (F1 pb (nth_error_In _ _ Hb)) as [Lb Rb].
  destruct (F2 pc (nth_error_In _ _ Hc)) as [Lc Rc].
  destruct (F3 ps (nth_error_In _ _ Hs)) as [Ls Rs].
  destruct (F4 pv (nth_error_In _ _ Hv)) as [Lv Rv].
  rewrite Forall_forall in Rb, Rc, Rs, Rv.
  replace nlat with (length (zip4 (zip4 (@Build_point F)) pb pc ps pv))
    by (rewrite length_zip4; congruence).
  apply (for_each_list (zip4 (zip4 (@Build_point F)) pb pc ps pv)
           (fun st row => fold_left (step8 square nblbins ncapebins nsubsatbins prthresh) row st)
           (shaped8 nblbins ncapebins nsubsatbins)); [|exact Hst].
  intros la row st1 Hrow Hst1.
  apply zip4_nth_error in Hrow.
  destruct Hrow as (rb & rc & rs & rv & Hrb & Hrc & Hrs & Hrv & ->).
  pose proof (Rb rb (nth_error_In _ _ Hrb)) as Lrb.
  pose proof (Rc rc (nth_error_In _ _ Hrc)) as Lrc.
  pose proof (Rs rs (nth_error_In _ _ Hrs)) as Lrs.
  pose proof (Rv rv (nth_error_In _ _ Hrv)) as Lrv.
  replace nlon with (length (zip4 (@Build_point F) rb rc rs rv))
    by (rewrite length_zip4; congruence).
  apply (for_each_list (zip4 (@Build_point F) rb rc rs rv)
           (step8 square nblbins ncapebins nsubsatbins prthresh)
           (shaped8 nblbins ncapebins nsubsatbins)); [|exact Hst1].
  intros lo p st2 Hp Hst2.
  apply zip4_nth_error in Hp.
  destruct Hp as (b & c & s & v & Hpb & Hpc & Hps & Hpv & ->).
  split; [|now apply shaped8_step8].
  unfold at3, flat. rewrite Hb, Hc, Hs, Hv, Hrb, Hrc, Hrs, Hrv, Hpb, Hpc, Hps, Hpv.
  cbn [bind]. now apply earlier_body_step.
Qed.

End EarlierFacts.

(* ================================================================== *)
(** * Faults *)

Lemma for_each_safe {I St} (l : list I) (Inv : St -> Prop)
    (body : I -> St -> result St) :
  (forall i st, Inv st -> no_index_fault (body i st) Inv) ->
  forall st, Inv st -> no_index_fault (for_each l st body) Inv.
Proof.
  intros H. induction l as [|i l IH]; intros st Hst; simpl.
  - left. now exists st.
  - destruct (H i st Hst) as [(st' & E & Hst')|E]; rewrite E; simpl.
    + now apply IH.
    + now right.
Qed.

Lemma flat_cases {T} (a : list T) (i : nat) :
  (exists x, flat a i = Ok x) \/ flat a i = Err ShapeMismatch.
Proof. unfold flat. destruct (nth_error a i); eauto. Qed.

Lemma at3_cases {T} (a : list (list (list T))) (t la lo : nat) :
  (exists x, at3 a t la lo = Ok x) \/ at3 a t la lo = Err ShapeMismatch.
Proof.
  unfold at3. destruct (nth_error a t) as [plane|]; auto.
  destruct (nth_error plane la) as [row|]; auto. apply flat_cases.
Qed.

Section Safety.
Context {F : Type} {A : Arith F}.
Variable square : F -> F.
Variables nblbins ncapebins nsubsatbins : nat.
Variable prthresh : F.

Lemma fast_binned_stats_safe blidxs capeidxs subsatidxs prdata :
  no_index_fault
    (fast_binned_stats blidxs capeidxs subsatidxs prdata
                       nblbins ncapebins nsubsatbins prthresh)
    (shaped nblbins ncapebins nsubsatbins).
Proof.
  unfold fast_binned_stats.
  apply for_each_safe; [|apply (shaped_init (F:=F))].
  intros i st Hst.
  destruct (flat_cases blidxs i) as [(b & ->) | ->]; [|now right].
  destruct (flat_cases capeidxs i) as [(c & ->) | ->]; [|now right].
  destruct (flat_cases subsatidxs i) as [(s & ->) | ->]; [|now right].
  destruct (flat_cases prdata i) as [(v & ->) | ->]; [|now right].
  cbn [bind]. left. eexists. split.
  - now apply kernel_body_step.
  - now apply shaped_step.
Qed.

Lemma accumulate_safe blidxs capeidxs subsatidxs pr ntime nlat nlon :
  no_index_fault
    (Earlier.accumulate square blidxs capeidxs subsatidxs pr ntime nlat nlon
                        nblbins ncapebins nsubsatbins prthresh)
    (shaped8 nblbins ncapebins nsubsatbins).
Proof.
  unfold Earlier.accumulate.
  apply for_each_safe; [|apply (shaped8_init (F:=F))].
  intros t st Hst. apply for_each_safe; [|exact Hst].
  intros la st1 Hst1. apply for_each_safe; [|exact Hst1].
  intros lo st2 Hst2.
  destruct (at3_cases pr t la lo) as [(v & ->) | ->]; [|now right].
  destruct (at3_cases blidxs t la lo) as [(b & ->) | ->]; [|now right].
  destruct (at3_cases capeidxs t la lo) as [(c & ->) | ->]; [|now right].
  destruct (at3_cases subsatidxs t la lo) as [(s & ->) | ->]; [|now right].
  cbn [bind]. left. eexists. split.
  - now apply earlier_body_step.
  - now apply shaped8_step8.
Qed.

End Safety.

(* ================================================================== *)
(** * Strictness of the threshold test *)

Lemma float_ltb_irrefl (x : float) : PrimFloat.ltb x x = false.
Proof.
  rewrite ltb_spec. unfold SFltb.
  destruct (Prim2SF x) as [s|s| |s m e]; simpl; auto.
  - now destruct s.
  - destruct s; rewrite Z.compare_refl, Pos.compare_cont_refl; reflexivity.
Qed.

Lemma Qltb_irrefl (x : Q) : Qltb x x = false.
Proof.
  unfold Qltb. apply negb_false_iff. apply Qle_bool_iff. apply Qle_refl.
Qed.

(* ================================================================== *)
(** * The reference run under reordering and chunking *)

Lemma map_pr_points {F} blidxs capeidxs subsatidxs (prdata : list F) :
  length blidxs = length prdata -> length capeidxs = length prdata ->
  length subsatidxs = length prdata ->
  map (@p_pr F) (points blidxs capeidxs subsatidxs prdata) = prdata.
Proof.
  unfold points. revert capeidxs subsatidxs prdata.
  induction blidxs as [|b bs IH]; intros [|c cs] [|s ss] [|v vs] L1 L2 L3;
    simpl in *; try discriminate; auto.
  f_equal. apply IH; congruence.
Qed.

Lemma count_map {X Y} (f : Y -> bool) (g : X -> Y) (l : list X) :
  count f (map g l) = count (fun x => f (g x)) l.
Proof.
  unfold count. f_equal.
  induction l as [|x l IH]; simpl; auto.
  destruct (f (g x)); simpl; auto.
Qed.

Section Reorder.
Context {F : Type} {A : Arith F}.
Variables nblbins ncapebins nsubsatbins : nat.
Variable prthresh : F.

Local Abbreviation run' := (run nblbins ncapebins nsubsatbins prthresh).







End Reorder.

(* ================================================================== *)
(** * The single-pass kernel: what it returns *)

(** C2.  On input arrays of one length the kernel runs to the end.  For each
    1-D bin [i] in range: [Q0[i]] is the number of points whose 1-D index is
    exactly [i] and whose precipitation is finite; [Q1[i]] is the sum of
    those points' values, added in point order to [0.0]; [QE[i]] is the number
    of those points with [prval > prthresh].  For each 2-D cell [(a, b)] in
    range, [P0], [P1], [PE] are the same over the points whose two 2-D
    indices are exactly [(a, b)] and whose value is finite: the 1-D test
    reads no 2-D index and the 2-D test no 1-D index.  The comparison is
    strict: a value equal to the threshold does not exceed it, in binary64
    and in exact arithmetic alike. *)
Theorem fast_binned_stats_cells :
  (forall (F : Type) (A : Arith F) blidxs capeidxs subsatidxs (prdata : list F)
          nblbins ncapebins nsubsatbins prthresh,
     length blidxs = length prdata ->
     length capeidxs = length prdata ->
     length subsatidxs = length prdata ->
     let pts := points blidxs capeidxs subsatidxs prdata in
     exists r,
       fast_binned_stats blidxs capeidxs subsatidxs prdata
                         nblbins ncapebins nsubsatbins prthresh = Ok r /\
       shaped nblbins ncapebins nsubsatbins r /\
       (forall i, i < nblbins ->
          nth i (Q0 r) 0%Z = count (in_bin i) pts /\
          nth i (Q1 r) fzero = fsum (map (@p_pr F) (filter (in_bin i) pts)) /\
          nth i (QE r) 0%Z = count (fun p => in_bin i p && exceeds prthresh p) pts) /\
       (forall a b, a < nsubsatbins -> b < ncapebins ->
          nth b (nth a (P0 r) []) 0%Z = count (in_cell a b) pts /\
          nth b (nth a (P1 r) []) fzero
            = fsum (map (@p_pr F) (filter (in_cell a b) pts)) /\
          nth b (nth a (PE r) []) 0%Z
            = count (fun p => in_cell a b p && exceeds prthresh p) pts)) /\
  (forall (x : float) b c s,
     exceeds (A:=binary64) x (Build_point b c s x) = false) /\
  (forall (x : Q) b c s,
     exceeds (A:=exact) x (Build_point b c s x) = false).
Proof.
  split; [|split].
  - intros F A blidxs capeidxs subsatidxs prdata nblbins ncapebins nsubsatbins
           prthresh L1 L2 L3 pts.
    exists (run nblbins ncapebins nsubsatbins prthresh pts). split; [|split; [|split]].
    + now apply fast_binned_stats_run.
    + apply shaped_run.
    + intros i Hi. now apply run_cells1.
    + intros a b Ha Hb. now apply run_cells2.
  - intros x b c s. apply float_ltb_irrefl.
  - intros x b c s. apply Qltb_irrefl.
Qed.

(** Five points in binary64, threshold 0.25: three in 1-D bin 0 with values
    0.1, 0.2 and 0.25 (one equal to the threshold), one nan, one with 1-D
    index -1 and value 1. *)
Lemma fast_binned_stats_cells_witness :
  exists r,
    fast_binned_stats (A:=binary64) [0; 0; 0; 1; -1]%Z [0; 0; 1; 1; 1]%Z
                      [0; 1; 1; 1; 1]%Z
                      [0.1; 0.2; 0.25; nan; 1]%float 2 2 2 0.25%float = Ok r /\
    nth 0 (Q0 r) 0%Z = 3%Z /\ nth 0 (QE r) 0%Z = 0%Z /\
    nth 1 (Q0 r) 0%Z = 0%Z /\
    nth 1 (nth 1 (P0 r) []) 0%Z = 2%Z /\ nth 1 (nth 1 (PE r) []) 0%Z = 1%Z.
Proof.
  destruct (proj1 fast_binned_stats_cells float binary64
              [0; 0; 0; 1; -1]%Z [0; 0; 1; 1; 1]%Z [0; 1; 1; 1; 1]%Z
              [0.1; 0.2; 0.25; nan; 1]%float 2 2 2 0.25%float
              eq_refl eq_refl eq_refl) as (r & E & _ & H1 & H2).
  exists r. split; [exact E|].
  destruct (H1 0 (Nat.lt_0_succ 1)) as (-> & _ & ->).
  destruct (H1 1 (Nat.lt_succ_diag_r 1)) as (-> & _ & _).
  destruct (H2 1 1 (Nat.lt_succ_diag_r 1) (Nat.lt_succ_diag_r 1)) as (-> & _ & ->).
  repeat split; reflexivity.
Defined.

(** C7.  Conservation.  The sum of [Q0] over the 1-D bins is the number of
    points with finite precipitation and 1-D index in range; the sum of [P0]
    over the 2-D cells is the number of points with finite precipitation and
    both 2-D indices in range.  Both hold for every threshold, so neither sum
    depends on it.  With 100 points, 50 of them finite, and every finite point
    in a 1-D bin, the sum of [Q0] is 50. *)
Theorem fast_binned_stats_conservation :
  forall (F : Type) (A : Arith F) blidxs capeidxs subsatidxs (prdata : list F)
         nblbins ncapebins nsubsatbins,
    length blidxs = length prdata ->
    length capeidxs = length prdata ->
    length subsatidxs = length prdata ->
    let pts := points blidxs capeidxs subsatidxs prdata in
    forall prthresh,
    exists r,
      fast_binned_stats blidxs capeidxs subsatidxs prdata
                        nblbins ncapebins nsubsatbins prthresh = Ok r /\
      Zsum (Q0 r) = count (valid1 nblbins) pts /\
      Zsum (map Zsum (P0 r)) = count (valid2 ncapebins nsubsatbins) pts /\
      (length prdata = 100 ->
       count isfinite prdata = 50%Z ->
       (forall p, In p pts -> isfinite (p_pr p) = true ->
                  in_range (p_bl p) nblbins = true) ->
       Zsum (Q0 r) = 50%Z).
Proof.
  intros F A blidxs capeidxs subsatidxs prdata nblbins ncapebins nsubsatbins
         L1 L2 L3 pts prthresh.
  exists (run nblbins ncapebins nsubsatbins prthresh pts).
  split; [now apply fast_binned_stats_run|].
  split; [apply Zsum_Q0_run|]. split; [apply Zsum_P0_run|].
  intros _ H50 Hin. rewrite Zsum_Q0_run, <- H50.
  rewrite <- (map_pr_points blidxs capeidxs subsatidxs prdata L1 L2 L3) at 1.
  rewrite count_map. fold pts. unfold count. f_equal. f_equal.
  apply filter_ext_in. intros p Hp. unfold valid1.
  destruct (isfinite (p_pr p)) eqn:E; [|apply andb_false_r].
  now rewrite (Hin p Hp E).
Qed.

(** 100 points in binary64: 50 nan and 50 of value 1, all with indices 0. *)
Lemma fast_binned_stats_conservation_witness :
  exists r,
    fast_binned_stats (A:=binary64) (repeat 0%Z 100) (repeat 0%Z 100)
                      (repeat 0%Z 100)
                      (repeat nan 50 ++ repeat 1%float 50) 3 2 2 0.25%float = Ok r /\
    Zsum (Q0 r) = 50%Z /\ Zsum (map Zsum (P0 r)) = 50%Z.
Proof.
  destruct (fast_binned_stats_conservation float binary64
              (repeat 0%Z 100) (repeat 0%Z 100) (repeat 0%Z 100)
              (repeat nan 50 ++ repeat 1%float 50) 3 2 2
              eq_refl eq_refl eq_refl 0.25%float) as (r & E & _ & H2 & H3).
  exists r. split; [exact E|]. split; [|rewrite H2; reflexivity].
  apply H3; [reflexivity|reflexivity|].
  intros p Hp _. revert p Hp. apply Forall_forall.
  repeat (constructor; [reflexivity|]). constructor.
Defined.

(** C8.  Exceedance counts never pass the total counts: [QE[i] <= Q0[i]] for
    every bin and [PE[a,b] <= P0[a,b]] for every cell, whatever the threshold
    (non-negative or not). *)
Theorem fast_binned_stats_exceedance_le :
  forall (F : Type) (A : Arith F) blidxs capeidxs subsatidxs (prdata : list F)
         nblbins ncapebins nsubsatbins prthresh,
    length blidxs = length prdata ->
    length capeidxs = length prdata ->
    length subsatidxs = length prdata ->
    exists r,
      fast_binned_stats blidxs capeidxs subsatidxs prdata
                        nblbins ncapebins nsubsatbins prthresh = Ok r /\
      (forall i, (nth i (QE r) 0 <= nth i (Q0 r) 0)%Z) /\
      (forall a b, (nth b (nth a (PE r) []) 0 <= nth b (nth a (P0 r) []) 0)%Z).
Proof.
  intros F A blidxs capeidxs subsatidxs prdata nblbins ncapebins nsubsatbins
         prthresh L1 L2 L3.
  set (pts := points blidxs capeidxs subsatidxs prdata).
  exists (run nblbins ncapebins nsubsatbins prthresh pts).
  split; [now apply fast_binned_stats_run|].
  destruct (shaped_run nblbins ncapebins nsubsatbins prthresh pts)
    as (H1 & H2 & H3 & H4 & H5 & H6 & H7 & H8 & H9).
  split.
  - intros i. destruct (Nat.lt_ge_cases i nblbins) as [Hi|Hi].
    + destruct (run_cells1 nblbins ncapebins nsubsatbins prthresh pts _ Hi)
        as (-> & _ & ->).
      apply count_le.
    + rewrite !nth_overflow by lia. lia.
  - intros a b. destruct (Nat.lt_ge_cases a nsubsatbins) as [Ha|Ha].
    + destruct (Nat.lt_ge_cases b ncapebins) as [Hb|Hb].
      * destruct (run_cells2 nblbins ncapebins nsubsatbins prthresh pts _ _ Ha Hb)
          as (-> & _ & ->).
        apply count_le.
      * rewrite Forall_forall in H5, H7.
        rewrite !(nth_overflow (nth a _ _)); [lia| |].
        -- rewrite H5; [lia|]. apply nth_In. lia.
        -- rewrite H7; [lia|]. apply nth_In. lia.
    + rewrite !(nth_overflow _ _ (n:=a)) by lia. destruct b; simpl; lia.
Qed.

(** Three points in binary64 with a negative threshold: every finite point
    exceeds it, and the counts meet. *)
Lemma fast_binned_stats_exceedance_le_witness :
  exists r,
    fast_binned_stats (A:=binary64) [0; 1; 1]%Z [0; 0; 1]%Z [1; 1; 0]%Z
                      [0.5; 0; 3]%float 2 2 2 (-1)%float = Ok r /\
    (nth 1 (QE r) 0 <= nth 1 (Q0 r) 0)%Z /\
    (nth 0 (nth 1 (PE r) []) 0 <= nth 0 (nth 1 (P0 r) []) 0)%Z.
Proof.
  destruct (fast_binned_stats_exceedance_le float binary64
              [0; 1; 1]%Z [0; 0; 1]%Z [1; 1; 0]%Z [0.5; 0; 3]%float 2 2 2 (-1)%float
              eq_refl eq_refl eq_refl) as (r & E & H1 & H2).
  exists r. split; [exact E|]. split; [apply H1|apply H2].
Defined.

(** C10.  Whatever the index arrays hold (negative, over-large) and whatever
    the precipitation values, no read-modify-write of an accumulator leaves
    its bounds: the kernel, and the three loops of the earlier revision, end
    with accumulators of the shape they were created with, or stop on an
    input array that has no cell at the loop index; the out-of-bounds fault of
    an accumulator access is never returned.  This holds of the earlier
    revision whatever its power [prval**2] returns. *)
Theorem accumulator_accesses_in_bounds :
  forall (F : Type) (A : Arith F) nblbins ncapebins nsubsatbins (prthresh : F),
    (forall blidxs capeidxs subsatidxs prdata,
       let r := fast_binned_stats blidxs capeidxs subsatidxs prdata
                                  nblbins ncapebins nsubsatbins prthresh in
       r <> Err IndexOutOfBounds /\
       ((exists st, r = Ok st /\ shaped nblbins ncapebins nsubsatbins st) \/
        r = Err ShapeMismatch)) /\
    (forall (square : F -> F) blidxs capeidxs subsatidxs pr ntime nlat nlon,
       let r := Earlier.accumulate square blidxs capeidxs subsatidxs pr ntime nlat nlon
                                   nblbins ncapebins nsubsatbins prthresh in
       r <> Err IndexOutOfBounds /\
       ((exists st, r = Ok st /\ shaped8 nblbins ncapebins nsubsatbins st) \/
        r = Err ShapeMismatch)).
Proof.
  intros F A nblbins ncapebins nsubsatbins prthresh. split.
  - intros blidxs capeidxs subsatidxs prdata r.
    pose proof (fast_binned_stats_safe nblbins ncapebins nsubsatbins prthresh
                  blidxs capeidxs subsatidxs prdata) as H.
    fold r in H. split; [|exact H].
    destruct H as [(st & E & _)|E]; rewrite E; discriminate.
  - intros square blidxs capeidxs subsatidxs pr ntime nlat nlon r.
    pose proof (accumulate_safe square nblbins ncapebins nsubsatbins prthresh
                  blidxs capeidxs subsatidxs pr ntime nlat nlon) as H.
    fold r in H. split; [|exact H].
    destruct H as [(st & E & _)|E]; rewrite E; discriminate.
Qed.

(** C6.  The explicit loops over time, lat and lon of the earlier revision
    and the flat single loop agree: on four arrays of one shape
    [(ntime, nlat, nlon)], with the same bin counts and threshold, both run to
    the end and [Q0], [QE], [Q1], [P0], [PE], [P1] are equal (in any
    arithmetic, binary64 included: the points are visited in the same
    order), whatever the power [prval**2] returns, which reaches [Q2] and
    [P2] only. *)
Theorem loops_agree_with_fast_binned_stats :
  forall (F : Type) (A : Arith F) (square : F -> F) blidxs capeidxs subsatidxs
         (pr : list (list (list F))) ntime nlat nlon
         nblbins ncapebins nsubsatbins prthresh,
    shape3 blidxs ntime nlat nlon -> shape3 capeidxs ntime nlat nlon ->
    shape3 subsatidxs ntime nlat nlon -> shape3 pr ntime nlat nlon ->
    exists r8 r,
      Earlier.accumulate square blidxs capeidxs subsatidxs pr ntime nlat nlon
                         nblbins ncapebins nsubsatbins prthresh = Ok r8 /\
      fast_binned_stats (flat3 blidxs) (flat3 capeidxs) (flat3 subsatidxs)
                        (flat3 pr) nblbins ncapebins nsubsatbins prthresh = Ok r /\
      Earlier.Q0 r8 = Q0 r /\ Earlier.QE r8 = QE r /\ Earlier.Q1 r8 = Q1 r /\
      Earlier.P0 r8 = P0 r /\ Earlier.PE r8 = PE r /\ Earlier.P1 r8 = P1 r.
Proof.
  intros F A square blidxs capeidxs subsatidxs pr ntime nlat nlon
         nblbins ncapebins nsubsatbins prthresh S1 S2 S3 S4.
  eexists. eexists.
  split; [now apply (accumulate_run _ _ _ _ _ _ _ _ _ ntime nlat nlon)|].
  pose proof (shape3_rows _ _ _ _ S1) as (_ & _ & C1 & R1).
  pose proof (shape3_rows _ _ _ _ S2) as (_ & _ & C2 & R2).
  pose proof (shape3_rows _ _ _ _ S3) as (_ & _ & C3 & R3).
  pose proof (shape3_rows _ _ _ _ S4) as (_ & _ & C4 & R4).
  assert (L : forall T (a : list (list (list T))),
             length (concat a) = ntime * nlat ->
             Forall (fun row => length row = nlon) (concat a) ->
             length (flat3 a) = ntime * nlat * nlon).
  { intros T a Ha Ra. unfold flat3. now rewrite (length_concat_rect _ _ Ra), Ha. }
  split.
  - apply fast_binned_stats_run; rewrite !L; auto.
  - rewrite (flat3_points3 blidxs capeidxs subsatidxs pr ntime nlat nlon S1 S2 S3 S4).
    set (pts := points _ _ _ _).
    pose proof (shared_fold8 square nblbins ncapebins nsubsatbins prthresh pts
                  (init8 nblbins ncapebins nsubsatbins)) as H.
    change (Earlier.shared (init8 nblbins ncapebins nsubsatbins))
      with (init_stats (F:=F) nblbins ncapebins nsubsatbins) in H.
    fold (run nblbins ncapebins nsubsatbins prthresh pts) in H.
    rewrite <- H. repeat split; reflexivity.
Qed.

(** A 2 x 1 x 2 grid in binary64, with the rounded product for the square. *)
Lemma loops_agree_with_fast_binned_stats_witness :
  exists r8 r,
    Earlier.accumulate (A:=binary64) (fun x => PrimFloat.mul x x)
      [[[0; 1]]; [[1; 7]]]%Z [[[0; 0]]; [[1; -1]]]%Z [[[0; 1]]; [[1; 1]]]%Z
      [[[0.1; 0.3]]; [[nan; 2]]]%float 2 1 2 2 2 2 0.25%float = Ok r8 /\
    fast_binned_stats (A:=binary64)
      [0; 1; 1; 7]%Z [0; 0; 1; -1]%Z [0; 1; 1; 1]%Z
      [0.1; 0.3; nan; 2]%float 2 2 2 0.25%float = Ok r /\
    Earlier.Q0 r8 = Q0 r /\ Earlier.QE r8 = QE r /\ Earlier.Q1 r8 = Q1 r /\
    Earlier.P0 r8 = P0 r /\ Earlier.PE r8 = PE r /\ Earlier.P1 r8 = P1 r.
Proof.
  apply (loops_agree_with_fast_binned_stats float binary64
           (fun x => PrimFloat.mul x x)
           [[[0; 1]]; [[1; 7]]]%Z [[[0; 0]]; [[1; -1]]]%Z [[[0; 1]]; [[1; 1]]]%Z
           [[[0.1; 0.3]]; [[nan; 2]]]%float 2 1 2 2 2 2 0.25%float);
    (split; [reflexivity|]; repeat constructor).
Defined.





(* ================================================================== *)
(** * Rounding of rationals *)

Lemma Qtrunc_nonneg (x : Q) : (0 <= x)%Q -> Qtrunc x = Qfloor x.
Proof.
  destruct x as [n d]. unfold Qle, Qtrunc, Qfloor; simpl. intros H.
  apply Z.quot_div_nonneg; lia.
Qed.

Lemma Qtrunc_neg (x : Q) : (x < 0)%Q -> Qtrunc x = Qceiling x.
Proof.
  destruct x as [n d]. unfold Qlt, Qtrunc, Qceiling, Qfloor, Qopp; simpl. intros H.
  replace n with (- - n)%Z at 1 by lia.
  rewrite Z.quot_opp_l by lia. f_equal.
  apply Z.quot_div_nonneg; lia.
Qed.

Lemma Qtrunc_small (x : Q) : (- (1) < x)%Q -> (x < 1)%Q -> Qtrunc x = 0%Z.
Proof.
  destruct x as [n d]. unfold Qlt, Qtrunc; simpl. intros H1 H2.
  apply Z.quot_small_iff; lia.
Qed.

Lemma Qceiling_unique (x : Q) (z : Z) :
  (inject_Z z - 1 < x)%Q -> (x <= inject_Z z)%Q -> Qceiling x = z.
Proof.
  intros H1 H2.
  pose proof (Qle_ceiling x) as H3. pose proof (Qceiling_lt x) as H4.
  assert (A1 : (inject_Z (Qceiling x - 1) < inject_Z z)%Q)
    by (eapply Qlt_le_trans; eauto).
  assert (A2 : (inject_Z (z - 1) < inject_Z (Qceiling x))%Q).
  { eapply Qlt_le_trans; [|exact H3].
    unfold Z.sub. rewrite inject_Z_plus. exact H1. }
  rewrite <- Zlt_Qlt in A1, A2. lia.
Qed.

Lemma Qceiling_plus_1 (x : Q) : Qceiling (x + 1) = (Qceiling x + 1)%Z.
Proof.
  apply Qceiling_unique.
  - rewrite inject_Z_plus. pose proof (Qceiling_lt x) as H.
    unfold Z.sub in H. rewrite inject_Z_plus in H.
    apply Qplus_lt_l with (z := (- (1))%Q).
    ring_simplify. ring_simplify in H. exact H.
  - rewrite inject_Z_plus. apply Qplus_le_l. apply Qle_ceiling.
Qed.

Lemma Qceiling_floor (x : Q) :
  ((inject_Z (Qfloor x) == x)%Q -> Qceiling x = Qfloor x) /\
  (~ (inject_Z (Qfloor x) == x)%Q -> Qceiling x = (Qfloor x + 1)%Z).
Proof.
  split; intros H.
  - rewrite <- H at 1. apply Qceiling_Z.
  - apply Qceiling_unique.
    + rewrite inject_Z_plus. ring_simplify.
      destruct (Qle_lt_or_eq _ _ (Qfloor_le x)) as [L|E]; [exact L|contradiction].
    + apply Qlt_le_weak. apply Qlt_floor.
Qed.

(** * Edges in exact arithmetic *)

Lemma np_arange_exact (start stop step : Q) :
  np_arange (A:=exact) start stop step
  = map (fun i : nat =>
           match i with
           | O => start
           | S O => (start + step)%Q
           | _ => (start + inject_Z (Z.of_nat i) * (start + step - start))%Q
           end)
        (seq 0 (Z.to_nat (Qceiling ((stop - start) / step)))).
Proof. reflexivity. Qed.

Lemma np_arange_exact_length (start stop step : Q) :
  length (np_arange (A:=exact) start stop step)
  = Z.to_nat (Qceiling ((stop - start) / step)).
Proof. rewrite np_arange_exact. now rewrite length_map, length_seq. Qed.

Lemma np_arange_exact_nth (start stop step : Q) (i : nat) :
  i < length (np_arange (A:=exact) start stop step) ->
  (nth i (np_arange (A:=exact) start stop step) 0
   == start + inject_Z (Z.of_nat i) * step)%Q.
Proof.
  rewrite np_arange_exact_length. intros Hi. rewrite np_arange_exact.
  set (g := fun i : nat => _).
  rewrite (nth_indep _ 0%Q (g 0)) by (now rewrite length_map, length_seq).
  rewrite map_nth, seq_nth by assumption. simpl Nat.add.
  unfold g. destruct i as [|[|i]].
  - simpl. ring.
  - simpl. ring.
  - ring.
Qed.

Lemma edges_count_exact (bmin bmax w : Q) :
  (0 < w)%Q -> (bmin < bmax)%Q ->
  Qceiling ((bmax + w - bmin) / w) = (Qceiling ((bmax - bmin) / w) + 1)%Z /\
  (1 <= Qceiling ((bmax - bmin) / w))%Z.
Proof.
  intros Hw Hm. split.
  - rewrite <- Qceiling_plus_1. apply Qceiling_comp.
    field. intros E. rewrite E in Hw. discriminate.
  - assert (P : (0 < (bmax - bmin) / w)%Q).
    { apply Qlt_shift_div_l; auto. rewrite Qmult_0_l. unfold Qminus.
      now apply (proj1 (Qlt_minus_iff bmin bmax)). }
    pose proof (Qle_ceiling ((bmax - bmin) / w)) as H.
    assert (Q0 : (inject_Z 0 < inject_Z (Qceiling ((bmax - bmin) / w)))%Q)
      by (eapply Qlt_le_trans; eauto).
    rewrite <- Zlt_Qlt in Q0. lia.
Qed.

(** The edges of a specification with [width > 0] and [max > min] when no
    operation rounds. *)
Lemma get_bin_edges_rational (key : varkey) (binparams : binparams Q) :
  let b := bp_get binparams key in
  let x := ((bin_max b - bin_min b) / bin_width b)%Q in
  let edges := get_bin_edges (A:=exact) key binparams in
  (0 < bin_width b)%Q -> (bin_min b < bin_max b)%Q ->
  length edges
    = Z.to_nat (Qceiling ((bin_max b + bin_width b - bin_min b) / bin_width b)) /\
  Z.of_nat (length edges) = (Qceiling x + 1)%Z /\
  ((inject_Z (Qfloor x) == x)%Q -> Z.of_nat (length edges) = (Qfloor x + 1)%Z) /\
  (~ (inject_Z (Qfloor x) == x)%Q -> Z.of_nat (length edges) = (Qfloor x + 2)%Z) /\
  nth 0 edges 0%Q = bin_min b /\
  (forall i, i < length edges ->
     (nth i edges 0 == bin_min b + inject_Z (Z.of_nat i) * bin_width b)%Q) /\
  (forall i, S i < length edges ->
     (nth i edges 0 < nth (S i) edges 0)%Q /\
     (nth (S i) edges 0 - nth i edges 0 == bin_width b)%Q).
Proof.
  intros b x edges Hw Hm.
  destruct (edges_count_exact (bin_min b) (bin_max b) (bin_width b) Hw Hm) as [E1 E2].
  fold x in E1, E2.
  assert (L : length edges
              = Z.to_nat (Qceiling ((bin_max b + bin_width b - bin_min b) / bin_width b)))
    by apply np_arange_exact_length.
  assert (LZ : Z.of_nat (length edges) = (Qceiling x + 1)%Z) by (rewrite L, E1; lia).
  destruct (Qceiling_floor x) as [C1 C2].
  split; [exact L|]. split; [exact LZ|].
  split; [intros H; rewrite LZ, (C1 H); reflexivity|].
  split; [intros H; rewrite LZ, (C2 H); lia|].
  assert (N : forall i, i < length edges ->
                (nth i edges 0 == bin_min b + inject_Z (Z.of_nat i) * bin_width b)%Q)
    by (intros i Hi; now apply np_arange_exact_nth).
  split.
  - unfold edges, get_bin_edges. fold b. rewrite np_arange_exact.
    destruct (Z.to_nat _) eqn:En; [|reflexivity].
    unfold edges, get_bin_edges in L. fold b in L. rewrite np_arange_exact_length in L.
    change (fadd (bin_max b) (bin_width b)) with (bin_max b + bin_width b)%Q in L.
    lia.
  - split; [exact N|]. intros i Hi.
    rewrite (N i) by lia. rewrite (N (S i)) by lia.
    rewrite Nat2Z.inj_succ. unfold Z.succ. rewrite inject_Z_plus. split.
    + apply Qplus_lt_r. rewrite <- (Qplus_0_r (inject_Z (Z.of_nat i) * bin_width b)).
      setoid_replace ((inject_Z (Z.of_nat i) + inject_Z 1) * bin_width b)%Q
        with (inject_Z (Z.of_nat i) * bin_width b + bin_width b)%Q by ring.
      apply Qplus_lt_r. exact Hw.
    + ring.
Qed.

(** * Edges in every arithmetic *)

(** The cells of [np.arange] when the number of elements is a number. *)
Lemma np_arange_cells {F} {A : Arith F} (start stop step : F) (n : Z) :
  fceil (fdiv (fsub stop start) step) = Some n ->
  length (np_arange start stop step) = Z.to_nat n /\
  (forall i, i < Z.to_nat n ->
     nth_error (np_arange start stop step) i
     = Some (match i with
             | O => start
             | S O => fadd start step
             | _ => fadd start (fmul (fof_Z (Z.of_nat i))
                                     (fsub (fadd start step) start))
             end)).
Proof.
  intros E. unfold np_arange. rewrite E. split.
  - now rewrite length_map, length_seq.
  - intros i Hi. rewrite nth_error_map, nth_error_seq.
    destruct (Nat.ltb_spec i (Z.to_nat n)); [reflexivity|lia].
Qed.

(** C3, as amended.  [get_bin_edges] returns
    [np.arange(min, max + width, width)] as the arithmetic computes it, in
    binary64 with every operation rounded: for a valid specification whose
    number of edges [ceil(((max + width) - min) / width)] is a number, that
    many edges, of which the first is [min], the second [min + width] and edge
    [i >= 2] is [min + i * stride] with [stride = (min + width) - min].  The
    three specifications of the notebook give, in binary64, 281 ([bl]), 91
    ([cape]) and 91 ([subsat]) edges, which is [floor((max - min)/width) + 1]
    for them, starting at [min] and strictly ascending; those of [cape] and
    [subsat] are the integers from [min] to [max].  Where no operation rounds
    (the rationals), a specification with [width > 0] and [max > min] has
    [ceil((max - min)/width) + 1] edges, [floor((max - min)/width) + 1] when
    [max - min] is a multiple of [width] and one more otherwise, edge [i] is
    [min + i * width], and the edges are strictly ascending with constant step
    [width]; none of this holds of every valid specification in binary64. *)
Theorem get_bin_edges_arange :
  (forall (F : Type) (A : Arith F) (key : varkey) (binparams : binparams F) (n : Z),
     let b := bp_get binparams key in
     let edges := get_bin_edges key binparams in
     valid_binspec b ->
     fceil (fdiv (fsub (fadd (bin_max b) (bin_width b)) (bin_min b)) (bin_width b))
       = Some n ->
     length edges = Z.to_nat n /\
     (forall i, i < length edges ->
        nth_error edges i
        = Some (match i with
                | O => bin_min b
                | S O => fadd (bin_min b) (bin_width b)
                | _ => fadd (bin_min b)
                            (fmul (fof_Z (Z.of_nat i))
                                  (fsub (fadd (bin_min b) (bin_width b)) (bin_min b)))
                end))) /\
  (forall key : varkey,
     let b := bp_get Notebook.BINPARAMS key in
     let edges := get_bin_edges (A:=binary64) key Notebook.BINPARAMS in
     valid_binspec b /\
     length edges = match key with bl => 281 | _ => 91 end /\
     ffloor (fdiv (fsub (bin_max b) (bin_min b)) (bin_width b))
       = Some (Z.of_nat (length edges) - 1)%Z /\
     nth_error edges 0 = Some (bin_min b) /\
     ascending edges = true) /\
  get_bin_edges (A:=binary64) cape Notebook.BINPARAMS
    = map (fun i => float_of_Z (Z.of_nat i - 70)) (seq 0 91) /\
  get_bin_edges (A:=binary64) subsat Notebook.BINPARAMS
    = map (fun i => float_of_Z (Z.of_nat i - 20)) (seq 0 91) /\
  (forall (key : varkey) (binparams : binparams Q),
     let b := bp_get binparams key in
     let x := ((bin_max b - bin_min b) / bin_width b)%Q in
     let edges := get_bin_edges (A:=exact) key binparams in
     (0 < bin_width b)%Q -> (bin_min b < bin_max b)%Q ->
     Z.of_nat (length edges) = (Qceiling x + 1)%Z /\
     ((inject_Z (Qfloor x) == x)%Q -> Z.of_nat (length edges) = (Qfloor x + 1)%Z) /\
     (~ (inject_Z (Qfloor x) == x)%Q -> Z.of_nat (length edges) = (Qfloor x + 2)%Z) /\
     nth 0 edges 0%Q = bin_min b /\
     (forall i, i < length edges ->
        (nth i edges 0 == bin_min b + inject_Z (Z.of_nat i) * bin_width b)%Q) /\
     (forall i, S i < length edges ->
        (nth i edges 0 < nth (S i) edges 0)%Q /\
        (nth (S i) edges 0 - nth i edges 0 == bin_width b)%Q)).
Proof.
  split; [|split; [|split; [|split]]].
  - intros F A key binparams n b edges _ E.
    destruct (np_arange_cells (bin_min b) (fadd (bin_max b) (bin_width b))
                (bin_width b) n E) as [L N].
    fold (get_bin_edges key binparams) in L, N. fold edges in L, N.
    split; [exact L|]. intros i Hi. apply N. now rewrite <- L.
  - intros [| |]; cbv zeta; repeat split; try (vm_compute; congruence).
  - vm_compute; reflexivity.
  - vm_compute; reflexivity.
  - intros key binparams b x edges Hw Hm.
    destruct (get_bin_edges_rational key binparams Hw Hm)
      as (_ & H2 & H3 & H4 & H5 & H6 & H7).
    repeat split; try assumption; apply H7; assumption.
Qed.

(** The specification [bl] of the notebook in binary64. *)
Lemma get_bin_edges_arange_witness :
  length (get_bin_edges (A:=binary64) bl Notebook.BINPARAMS) = 281 /\
  nth_error (get_bin_edges (A:=binary64) bl Notebook.BINPARAMS) 2
  = Some (fadd (-0.6) (fmul 2 (fsub (fadd (-0.6) 0.0025) (-0.6))))%float.
Proof.
  destruct (proj1 get_bin_edges_arange float binary64 bl Notebook.BINPARAMS 281%Z)
    as [L N].
  - repeat split; vm_compute; congruence.
  - vm_compute; reflexivity.
  - split; [exact L|]. apply N. rewrite L. repeat constructor.
Defined.

(** C3 as stated fails, all in binary64 where nothing else is said.  The
    length: [{min: 0, max: 3, width: 2}] has the three edges 0, 2, 4 although
    [floor((3 - 0)/2) + 1 = 2] (in exact arithmetic too, last line); and
    [{min: 0, max: 0.2, width: 0.1}] has four edges although
    [ceil((0.2 - 0)/0.1) + 1 = 3], because [0.2 + 0.1] rounds up.  The order:
    [{min: 2^53, max: 2^53 + 4, width: 1}] has four edges, all [2^53], because
    [2^53 + 1] rounds to [2^53].  The step: the first two edges of the
    notebook's [bl] do not differ by [width], and its last edge is below
    [max]. *)
Lemma get_bin_edges_length_counterexample :
  let spec := fun a b w : float =>
    let s := {| bin_min := a; bin_max := b; bin_width := w |} in
    {| bp_bl := s; bp_cape := s; bp_subsat := s |} in
  let floor_count := fun a b w : float => ffloor (fdiv (fsub b a) w) in
  let ceil_count := fun a b w : float => fceil (fdiv (fsub b a) w) in
  (* the length: min 0, max 3, width 2 *)
  (valid_binspec (bp_bl (spec 0 3 2)) /\
   get_bin_edges (A:=binary64) bl (spec 0 3 2) = [0; 2; 4] /\
   floor_count 0 3 2 = Some 1%Z)%float /\
  (* the length without rounding: min 0, max 0.2, width 0.1 *)
  (valid_binspec (bp_bl (spec 0 0.2 0.1)) /\
   length (get_bin_edges (A:=binary64) bl (spec 0 0.2 0.1)) = 4%nat /\
   ceil_count 0 0.2 0.1 = Some 2%Z)%float /\
  (* the order: min 2^53, max 2^53 + 4, width 1 *)
  (valid_binspec (bp_bl (spec 0x1p+53 0x1.0000000000002p+53 1)) /\
   get_bin_edges (A:=binary64) bl (spec 0x1p+53 0x1.0000000000002p+53 1)
   = [0x1p+53; 0x1p+53; 0x1p+53; 0x1p+53] /\
   ascending (get_bin_edges (A:=binary64) bl (spec 0x1p+53 0x1.0000000000002p+53 1))
   = false)%float /\
  (* the step: the notebook's [bl] *)
  (let edges := get_bin_edges (A:=binary64) bl Notebook.BINPARAMS in
   PrimFloat.eqb (fsub (nth 1 edges 0) (nth 0 edges 0)) 0.0025 = false /\
   fltb (nth 280 edges 0) 0.1 = true)%float /\
  (* the length, in exact arithmetic *)
  (let q := {| bin_min := 0%Q; bin_max := (3 # 1)%Q; bin_width := (2 # 1)%Q |} in
   length (get_bin_edges (A:=exact) bl {| bp_bl := q; bp_cape := q; bp_subsat := q |}) = 3 /\
   Qfloor ((bin_max q - bin_min q) / bin_width q) = 1%Z).
Proof. cbv zeta. repeat split; vm_compute; congruence. Qed.

(** * Truncation in binary64 *)

Lemma digits2_pos_bound (m : positive) : (Zpos m < 2 ^ Zpos (digits2_pos m))%Z.
Proof.
  induction m as [m IH|m IH|]; simpl digits2_pos.
  - rewrite Pos2Z.inj_succ, Z.pow_succ_r by lia. lia.
  - rewrite Pos2Z.inj_succ, Z.pow_succ_r by lia. lia.
  - simpl. lia.
Qed.

(** A valid binary64 significand has at most 53 bits. *)
Lemma valid_mantissa_bound (s : bool) (m : positive) (e : Z) :
  valid_binary (S754_finite s m e) = true -> (Zpos m < 2 ^ 53)%Z.
Proof.
  unfold valid_binary, SpecFloat.valid_binary, bounded, canonical_mantissa, fexp.
  intros H. apply andb_prop in H. destruct H as [H _].
  apply Z.eqb_eq in H. unfold prec in H.
  pose proof (digits2_pos_bound m) as B.
  assert (D : (Zpos (digits2_pos m) <= 53)%Z) by lia.
  eapply Z.lt_le_trans; [exact B|].
  apply Z.pow_le_mono_r; lia.
Qed.

Lemma SFshift_small (m : positive) (e : Z) :
  (Zpos m < 2 ^ (- e))%Z -> fst (SFshift m e) = 0%Z.
Proof.
  intros H. destruct e as [|p|p]; simpl in *.
  - lia.
  - exfalso. change (2 ^ Z.neg p)%Z with 0%Z in H. lia.
  - unfold SFshift. simpl fst. apply Z.div_small. simpl. lia.
Qed.

Lemma below_one_bound (m : positive) (e : Z) :
  (Zpos m < 2 ^ 53)%Z ->
  SFltb (S754_finite false m e) (S754_finite false 4503599627370496 (-52)) = true ->
  (Zpos m < 2 ^ (- e))%Z.
Proof.
  intros M. unfold SFltb, SFcompare.
  destruct (Z.compare_spec e (-52)) as [E|E|E]; try discriminate.
  - subst e. rewrite Pos.compare_cont_spec. cbv [Pos.switch_Eq].
    destruct (Pos.compare_spec m 4503599627370496) as [E'|E'|E'];
      try discriminate.
    intros _. apply Z.lt_le_trans with (Zpos 4503599627370496); [exact E'|].
    vm_compute. discriminate.
  - intros _. eapply Z.lt_le_trans; [exact M|]. apply Z.pow_le_mono_r; lia.
Qed.

Lemma above_minus_one_bound (m : positive) (e : Z) :
  (Zpos m < 2 ^ 53)%Z ->
  SFltb (S754_finite true 4503599627370496 (-52)) (S754_finite true m e) = true ->
  (Zpos m < 2 ^ (- e))%Z.
Proof.
  intros M. unfold SFltb, SFcompare.
  destruct (Z.compare_spec (-52) e) as [E|E|E]; try discriminate.
  - subst e. rewrite Pos.compare_cont_spec. cbv [Pos.switch_Eq].
    destruct (Pos.compare_spec 4503599627370496 m) as [E'|E'|E'];
      try discriminate.
    intros _. apply Z.lt_le_trans with (Zpos 4503599627370496); [exact E'|].
    vm_compute. discriminate.
  - intros _. eapply Z.lt_le_trans; [exact M|]. apply Z.pow_le_mono_r; lia.
Qed.

Lemma SFtrunc_small_spec (sx : spec_float) :
  valid_binary sx = true ->
  SFltb (S754_finite true 4503599627370496 (-52)) sx = true ->
  SFltb sx (S754_finite false 4503599627370496 (-52)) = true ->
  SFtrunc sx = Some 0%Z.
Proof.
  intros V. destruct sx as [s|s| |s m e].
  - reflexivity.
  - destruct s; intros; discriminate.
  - intros; discriminate.
  - pose proof (valid_mantissa_bound s m e V) as M. clear V.
    intros H1 H2.
    assert (B : (Zpos m < 2 ^ (- e))%Z).
    { destruct s.
      - now apply above_minus_one_bound.
      - now apply below_one_bound. }
    pose proof (SFshift_small m e B) as S.
    unfold SFtrunc. destruct (SFshift m e) as [q r]. cbv [fst] in S. subst q.
    now destruct s.
Qed.

(** A binary64 value strictly between -1 and 1 truncates to 0. *)
Lemma SFtrunc_small (x : float) :
  PrimFloat.ltb (-1)%float x = true -> PrimFloat.ltb x 1%float = true ->
  SFtrunc (Prim2SF x) = Some 0%Z.
Proof.
  rewrite !ltb_spec.
  assert (E1 : Prim2SF (-1)%float = S754_finite true 4503599627370496 (-52))
    by (vm_compute; reflexivity).
  assert (E2 : Prim2SF 1%float = S754_finite false 4503599627370496 (-52))
    by (vm_compute; reflexivity).
  rewrite E1, E2. apply SFtrunc_small_spec. apply Prim2SF_valid.
Qed.

(** * The two index policies *)

Lemma astype_int32_exact (x : Q) :
  (INT32_MIN <= Qtrunc x <= INT32_MAX)%Z -> astype_int32 (A:=exact) x = Qtrunc x.
Proof.
  intros [H1 H2].
  change (astype_int32 (A:=exact) x)
    with (if ((INT32_MIN <=? Qtrunc x) && (Qtrunc x <=? INT32_MAX))%Z
          then Qtrunc x else INT32_MIN).
  apply Z.leb_le in H1, H2. now rewrite H1, H2.
Qed.

Lemma astype_int32_exact_small (x : Q) :
  (- (1) < x)%Q -> (x < 1)%Q -> astype_int32 (A:=exact) x = 0%Z.
Proof.
  intros H1 H2. rewrite astype_int32_exact; rewrite (Qtrunc_small x H1 H2).
  - reflexivity.
  - split; discriminate.
Qed.

(** In binary64 truncation is [floor] unless the value is negative, and
    [ceil] then. *)
Lemma SFtrunc_floor_ceil (x : float) :
  (PrimFloat.ltb x 0%float = false -> SFtrunc (Prim2SF x) = SFfloor (Prim2SF x)) /\
  (PrimFloat.ltb x 0%float = true -> SFtrunc (Prim2SF x) = SFceil (Prim2SF x)).
Proof.
  rewrite ltb_spec.
  assert (E : Prim2SF 0%float = S754_zero false) by (vm_compute; reflexivity).
  rewrite E. unfold SFltb, SFcompare, SFtrunc, SFfloor, SFceil.
  destruct (Prim2SF x) as [s|s| |s m e]; try (split; reflexivity).
  destruct (SFshift m e) as [q r].
  destruct s; split; intros H; try discriminate; reflexivity.
Qed.

Lemma astype_int32_binary64_small (x : float) :
  PrimFloat.ltb (-1)%float x = true -> PrimFloat.ltb x 1%float = true ->
  astype_int32 (A:=binary64) x = 0%Z.
Proof.
  intros H1 H2.
  change (astype_int32 (A:=binary64) x)
    with (match SFtrunc (Prim2SF x) with
          | Some z => if ((INT32_MIN <=? z) && (z <=? INT32_MAX))%Z then z else INT32_MIN
          | None => INT32_MIN
          end).
  now rewrite (SFtrunc_small x H1 H2).
Qed.

(** The offset quotient against the bounds of an interval around [min]. *)
Lemma offset_bounds (bmin w v lo hi : Q) :
  (0 < w)%Q -> (bmin + lo * w < v)%Q -> (v < bmin + hi * w)%Q ->
  (lo < (v - bmin) / w)%Q /\ ((v - bmin) / w < hi)%Q.
Proof.
  intros Hw H1 H2. split.
  - apply Qlt_shift_div_l; auto. lra.
  - apply Qlt_shift_div_r; auto. lra.
Qed.

Lemma index_zero_exact (b : binspec Q) (v : Q) :
  (0 < bin_width b)%Q ->
  ((bin_min b + - (3 # 2) * bin_width b < v)%Q ->
   (v < bin_min b + (1 # 2) * bin_width b)%Q -> blidx_of b v = 0%Z) /\
  ((bin_min b + - (1 # 2) * bin_width b < v)%Q ->
   (v < bin_min b + (3 # 2) * bin_width b)%Q -> jointidx_of b v = 0%Z).
Proof.
  intros Hw. split; intros H1 H2;
    destruct (offset_bounds _ _ _ _ _ Hw H1 H2) as [L U].
  - unfold blidx_of. apply astype_int32_exact_small; simpl; lra.
  - unfold jointidx_of. apply astype_int32_exact_small; simpl; lra.
Qed.

(** C1, as amended.  The 1-D index is the offset quotient
    [(v - min)/width + 0.5] converted by truncation toward zero, and each 2-D
    index is [(v - min)/width - 0.5] converted the same way (when the result
    fits [int32]).  Truncation is [floor] on a non-negative argument and
    [ceil] on a negative one, so the 1-D index is [floor((v - min)/width +
    0.5)] exactly when that argument is non-negative or whole, and likewise
    for the 2-D index.  The index is a plain integer, negative for values far
    enough below [min]; only the bounds check [0 <= index < nbins] decides
    inclusion.  For [v = min] the 1-D index is 0 and the 2-D index is 0 too
    (in range), not -1.  Stated in exact arithmetic, then in binary64 on the
    computed offsets, then on the notebook's three specifications. *)
Theorem index_policies_truncate :
  (forall (b : binspec Q) (v : Q),
     let xA := ((v - bin_min b) / bin_width b + (1 # 2))%Q in
     let xB := ((v - bin_min b) / bin_width b - (1 # 2))%Q in
     (0 < bin_width b)%Q ->
     ((INT32_MIN <= Qtrunc xA <= INT32_MAX)%Z -> blidx_of b v = Qtrunc xA) /\
     ((INT32_MIN <= Qtrunc xB <= INT32_MAX)%Z -> jointidx_of b v = Qtrunc xB) /\
     ((0 <= xA)%Q -> Qtrunc xA = Qfloor xA) /\
     ((xA < 0)%Q -> Qtrunc xA = Qceiling xA) /\
     ((0 <= xB)%Q -> Qtrunc xB = Qfloor xB) /\
     ((xB < 0)%Q -> Qtrunc xB = Qceiling xB) /\
     blidx_of b (bin_min b) = 0%Z /\
     jointidx_of b (bin_min b) = 0%Z) /\
  (forall (b : binspec float) (v : float),
     let q := PrimFloat.div (PrimFloat.sub v (bin_min b)) (bin_width b) in
     let xA := PrimFloat.add q 0.5%float in
     let xB := PrimFloat.sub q 0.5%float in
     blidx_of b v = astype_int32 xA /\ jointidx_of b v = astype_int32 xB /\
     (PrimFloat.ltb xA 0%float = false -> ftrunc xA = spec_policy_A b v) /\
     (PrimFloat.ltb xA 0%float = true -> ftrunc xA = fceil xA) /\
     (PrimFloat.ltb xB 0%float = false -> ftrunc xB = spec_policy_B b v) /\
     (PrimFloat.ltb xB 0%float = true -> ftrunc xB = fceil xB)) /\
  (blidx_of (A:=binary64) (bp_bl Notebook.BINPARAMS) (-0.6)%float = 0%Z /\
   jointidx_of (A:=binary64) (bp_cape Notebook.BINPARAMS) (-70)%float = 0%Z /\
   jointidx_of (A:=binary64) (bp_subsat Notebook.BINPARAMS) (-20)%float = 0%Z /\
   in_range 0 91 = true /\
   blidx_of (A:=binary64) (bp_bl Notebook.BINPARAMS) (-0.7)%float = (-39)%Z /\
   in_range (-39) 281 = false).
Proof.
  split; [|split; [|repeat split; vm_compute; reflexivity]].
  2:{ intros b v q xA xB.
      split; [reflexivity|]. split; [reflexivity|].
      destruct (SFtrunc_floor_ceil xA) as [A1 A2].
      destruct (SFtrunc_floor_ceil xB) as [B1 B2].
      repeat split; assumption. }
  intros b v xA xB Hw.
  split; [apply astype_int32_exact|].
  split; [apply astype_int32_exact|].
  split; [apply Qtrunc_nonneg|]. split; [apply Qtrunc_neg|].
  split; [apply Qtrunc_nonneg|]. split; [apply Qtrunc_neg|].
  destruct (index_zero_exact b (bin_min b) Hw) as [HA HB].
  split; [apply HA|apply HB]; lra.
Qed.

(** The specification [cape] of the notebook read exactly, at [v = -70.3]:
    the 2-D offset is -0.8, truncated to 0 where [floor] gives -1. *)
Lemma index_policies_truncate_witness :
  jointidx_of (A:=exact) (bp_cape Notebook.BINPARAMS_exact) (-703 # 10)%Q
  = Qceiling (((-703 # 10) - (-70 # 1)) / 1 - (1 # 2))%Q /\
  jointidx_of (A:=exact) (bp_cape Notebook.BINPARAMS_exact) (-70 # 1)%Q = 0%Z.
Proof.
  destruct (proj1 index_policies_truncate (bp_cape Notebook.BINPARAMS_exact)
              (-703 # 10)%Q eq_refl) as (_ & HB & _ & _ & _ & HC & _ & H0).
  split; [|exact H0].
  rewrite HB.
  - apply HC. reflexivity.
  - split; discriminate.
Defined.

(** C1 as stated fails.  For [v = min] the 2-D index of the code is 0, in
    range, where the stated [floor((v - min)/width - 0.5)] is -1; and a value
    below [min] gets the 1-D index 0 where the stated [floor] is -1.  Shown
    on the notebook's [cape] and [bl] specifications in binary64. *)
Lemma index_policies_counterexample :
  fltb 0%float (bin_width (bp_cape Notebook.BINPARAMS)) = true /\
  jointidx_of (A:=binary64) (bp_cape Notebook.BINPARAMS) (-70)%float = 0%Z /\
  spec_policy_B (A:=binary64) (bp_cape Notebook.BINPARAMS) (-70)%float = Some (-1)%Z /\
  in_range 0 (length (get_bin_edges (A:=binary64) cape Notebook.BINPARAMS)) = true /\
  fltb 0%float (bin_width (bp_bl Notebook.BINPARAMS)) = true /\
  blidx_of (A:=binary64) (bp_bl Notebook.BINPARAMS) (-0.602)%float = 0%Z /\
  spec_policy_A (A:=binary64) (bp_bl Notebook.BINPARAMS) (-0.602)%float = Some (-1)%Z.
Proof. repeat split; vm_compute; reflexivity. Qed.

(** C9, as amended.  Because [astype] truncates toward zero, the 1-D index
    is 0 whenever the computed offset [(v - min)/width + 0.5] lies strictly
    between -1 and 1, and a 2-D index is 0 whenever [(v - min)/width - 0.5]
    does.  In exact arithmetic these are the values with
    [min - 1.5*width < v < min + 0.5*width], and
    [min - 0.5*width < v < min + 1.5*width]; in binary64 the offset is
    rounded, and the condition is on the rounded offset.  So values strictly
    below [min] are counted in the first bin of both schemes, and [v = min]
    gets the 2-D index 0, in range. *)
Theorem index_zero_intervals :
  (forall (b : binspec Q) (v : Q),
     (0 < bin_width b)%Q ->
     ((bin_min b + - (3 # 2) * bin_width b < v)%Q ->
      (v < bin_min b + (1 # 2) * bin_width b)%Q -> blidx_of b v = 0%Z) /\
     ((bin_min b + - (1 # 2) * bin_width b < v)%Q ->
      (v < bin_min b + (3 # 2) * bin_width b)%Q -> jointidx_of b v = 0%Z) /\
     jointidx_of b (bin_min b) = 0%Z /\
     (exists v', (v' < bin_min b)%Q /\ blidx_of b v' = 0%Z /\ jointidx_of b v' = 0%Z)) /\
  (forall (b : binspec float) (v : float),
     let q := PrimFloat.div (PrimFloat.sub v (bin_min b)) (bin_width b) in
     (PrimFloat.ltb (-1)%float (PrimFloat.add q 0.5%float) = true ->
      PrimFloat.ltb (PrimFloat.add q 0.5%float) 1%float = true ->
      blidx_of b v = 0%Z) /\
     (PrimFloat.ltb (-1)%float (PrimFloat.sub q 0.5%float) = true ->
      PrimFloat.ltb (PrimFloat.sub q 0.5%float) 1%float = true ->
      jointidx_of b v = 0%Z)) /\
  (PrimFloat.ltb (-0.603)%float (bin_min (bp_bl Notebook.BINPARAMS)) = true /\
   blidx_of (A:=binary64) (bp_bl Notebook.BINPARAMS) (-0.603)%float = 0%Z /\
   in_range 0 (length (get_bin_edges (A:=binary64) bl Notebook.BINPARAMS)) = true /\
   PrimFloat.ltb (-70.4)%float (bin_min (bp_cape Notebook.BINPARAMS)) = true /\
   jointidx_of (A:=binary64) (bp_cape Notebook.BINPARAMS) (-70.4)%float = 0%Z /\
   jointidx_of (A:=binary64) (bp_cape Notebook.BINPARAMS) (-70)%float = 0%Z /\
   jointidx_of (A:=binary64) (bp_subsat Notebook.BINPARAMS) (-20)%float = 0%Z /\
   in_range 0 (length (get_bin_edges (A:=binary64) cape Notebook.BINPARAMS)) = true).
Proof.
  split; [|split; [|repeat split; vm_compute; reflexivity]].
  - intros b v Hw.
    destruct (index_zero_exact b v Hw) as [HA HB].
    split; [exact HA|]. split; [exact HB|].
    destruct (index_zero_exact b (bin_min b) Hw) as [_ HB0].
    split; [apply HB0; lra|].
    exists (bin_min b + - (1 # 4) * bin_width b)%Q.
    destruct (index_zero_exact b (bin_min b + - (1 # 4) * bin_width b)%Q Hw)
      as [HA' HB'].
    split; [lra|]. split; [apply HA'|apply HB']; lra.
  - intros b v q. split; intros H1 H2.
    + now apply astype_int32_binary64_small.
    + now apply astype_int32_binary64_small.
Qed.

(** The specification [bl] of the notebook read exactly, at [v = -0.601]. *)
Lemma index_zero_intervals_witness :
  blidx_of (A:=exact) (bp_bl Notebook.BINPARAMS_exact) (-601 # 1000)%Q = 0%Z.
Proof.
  destruct (proj1 index_zero_intervals (bp_bl Notebook.BINPARAMS_exact)
              (-601 # 1000)%Q eq_refl) as (HA & _).
  apply HA; reflexivity.
Defined.

(** C9 as stated fails in binary64 at the upper end of the interval.  With
    [min = 0] and [width = 1], the value 0.49999999999999994 is below
    [min + 0.5*width], but the sum [v + 0.5] rounds to 1.0 and the 1-D index
    is 1. *)
Lemma index_zero_interval_counterexample :
  let b := {| bin_min := 0%float; bin_max := 1%float; bin_width := 1%float |} in
  let v := 0x1.fffffffffffffp-2%float in
  fltb 0%float (bin_width b) = true /\ float_isfinite v = true /\
  fltb (fsub (bin_min b) (fmul 1.5%float (bin_width b))) v = true /\
  fltb v (fadd (bin_min b) (fmul 0.5%float (bin_width b))) = true /\
  fadd (fdiv (fsub v (bin_min b)) (bin_width b)) fhalf = 1%float /\
  blidx_of b v = 1%Z.
Proof. repeat split; vm_compute; reflexivity. Qed.

(* ================================================================== *)
(** * Subsets of a dataset *)

Lemma Forall2_select {X Y} (R : X -> Y -> Prop) (mask : list bool) a b :
  Forall2 R a b -> Forall2 R (select mask a) (select mask b).
Proof.
  intros H; revert mask.
  induction H as [|x y a b Hxy _ IH]; intros [|[|] mask]; simpl; auto.
Qed.

Lemma length_select {X Y} (mask : list bool) (a : list X) (b : list Y) :
  length a = length b -> length (select mask a) = length (select mask b).
Proof.
  revert a b; induction mask as [|[|] mask IH]; intros [|x a] [|y b] H;
    simpl in *; try discriminate; auto.
Qed.

Lemma Forall2_map {X Y X' Y'} (R : X -> Y -> Prop) (R' : X' -> Y' -> Prop)
    (f : X -> X') (g : Y -> Y') a b :
  (forall x y, R x y -> R' (f x) (g y)) ->
  Forall2 R a b -> Forall2 R' (map f a) (map g b).
Proof.
  intros H; induction 1; simpl; constructor; auto.
Qed.

Lemma same_shape3_flat3 {X Y} (a : list (list (list X))) (b : list (list (list Y))) :
  same_shape3 a b -> length (flat3 a) = length (flat3 b).
Proof.
  unfold same_shape3, flat3. induction 1 as [|p q a b Hpq _ IH]; simpl; auto.
  rewrite !concat_app, !length_app, IH. f_equal.
  clear - Hpq. induction Hpq as [|r r' p q Hr _ IH]; simpl; auto.
  rewrite !length_app. congruence.
Qed.

Lemma same_shape3_map3 {X Y Z} (f : X -> Z) (a : list (list (list X)))
    (b : list (list (list Y))) :
  same_shape3 a b -> same_shape3 (map3 f a) b.
Proof.
  unfold same_shape3, map3. intros H.
  induction H as [|p q a b Hpq _ IH]; simpl; constructor; auto.
  clear - Hpq. induction Hpq as [|r r' p q Hr _ IH]; simpl; constructor; auto.
  now rewrite length_map.
Qed.

Lemma aligned_sel_month {F} (ds : dataset F) (month : Z) :
  aligned ds -> aligned (sel_month ds month).
Proof.
  unfold aligned, sel_month, same_shape3; simpl.
  intros (H1 & H2 & H3). repeat split; now apply Forall2_select.
Qed.

Lemma aligned_sel_box {F} {A : Arith F} (ds : dataset F) (r : region F) :
  aligned ds -> aligned (sel_box ds r).
Proof.
  unfold aligned, sel_box, same_shape3; simpl.
  assert (G : forall latmask lonmask (a b : list (list (list F))),
             Forall2 (Forall2 (fun r r' : list F => length r = length r')) a b ->
             Forall2 (Forall2 (fun r r' : list F => length r = length r'))
               (map (fun plane => map (select lonmask) (select latmask plane)) a)
               (map (fun plane => map (select lonmask) (select latmask plane)) b)).
  { intros latmask lonmask a b H.
    eapply Forall2_map; [|exact H]. intros p q Hpq.
    eapply Forall2_map; [|apply Forall2_select; exact Hpq].
    intros x y Hxy. now apply length_select. }
  intros (H1 & H2 & H3). repeat split; now apply G.
Qed.

(** On an aligned dataset the builder runs to the end. *)
Lemma calc_binned_stats_ok {F} {A : Arith F} (PRTHRESH : F) (data : dataset F)
    (binparams : binparams F) (prthresh : F) :
  aligned data ->
  exists rec, calc_binned_stats PRTHRESH data binparams prthresh = Ok rec.
Proof.
  intros (H1 & H2 & H3). unfold calc_binned_stats.
  rewrite fast_binned_stats_run.
  - simpl. eauto.
  - now apply same_shape3_flat3, same_shape3_map3.
  - now apply same_shape3_flat3, same_shape3_map3.
  - now apply same_shape3_flat3, same_shape3_map3.
Qed.

(** * Dicts and list-building loops *)

Lemma dict_get_nth {V} (d : list (string * V)) (i : nat) (k : string) (v : V) :
  NoDup (map fst d) -> nth_error d i = Some (k, v) -> dict_get d k = Ok v.
Proof.
  revert i; induction d as [|[k' v'] d IH]; intros [|i] Hnd H; simpl in *;
    try discriminate.
  - inversion H; subst. now rewrite String.eqb_refl.
  - inversion Hnd as [|? ? Hnotin Hnd']; subst.
    destruct (String.eqb_spec k' k) as [E|E].
    + subst k'. exfalso. apply Hnotin.
      apply nth_error_In in H. now apply (in_map fst) in H.
    + eapply IH; eauto.
Qed.

Lemma mapM_Forall2 {X Y} (f : X -> result Y) (l : list X) :
  (forall x, In x l -> exists y, f x = Ok y) ->
  exists ys, mapM f l = Ok ys /\ Forall2 (fun x y => f x = Ok y) l ys.
Proof.
  induction l as [|x l IH]; intros H; simpl.
  - exists []. split; auto.
  - destruct (H x (or_introl eq_refl)) as [y Hy].
    destruct IH as (ys & E & Hys); [intros; apply H; now right|].
    exists (y :: ys). rewrite Hy, E. simpl. split; auto.
Qed.

Lemma Forall2_nth_error {X Y} (R : X -> Y -> Prop) (l : list X) (l' : list Y)
    (i : nat) (x : X) :
  Forall2 R l l' -> nth_error l i = Some x ->
  exists y, nth_error l' i = Some y /\ R x y.
Proof.
  intros H; revert i; induction H as [|a b l l' Hab _ IH]; intros [|i] Hi;
    simpl in *; try discriminate.
  - inversion Hi; subst. eauto.
  - now apply IH.
Qed.

(** With a region dict of distinct keys, not empty, a month list that is not
    empty and a dataset whose four variables share one index space, the
    aggregator runs to the end: one entry per region, in order and labelled
    with the key, each with one record per month, in order and labelled with
    the month; the record is what the builder returns on the month of the
    region, as the code selects them. *)
Lemma process_by_subregion_product :
  forall (F : Type) (A : Arith F) (REGIONS : list (string * region F))
         (BINPARAMS : binparams F) (PRTHRESH : F) (ds : dataset F)
         (months : list Z),
    NoDup (map fst REGIONS) -> REGIONS <> [] -> months <> [] -> aligned ds ->
    exists product,
      process_by_subregion REGIONS BINPARAMS PRTHRESH ds months REGIONS = Ok product /\
      length product = length REGIONS /\
      map fst product = map fst REGIONS /\
      Forall (fun entry => length (snd entry) = length months /\
                           map fst (snd entry) = months) product /\
      (forall r m key reg month,
         nth_error REGIONS r = Some (key, reg) ->
         nth_error months m = Some month ->
         exists recs rec,
           nth_error product r = Some (key, recs) /\
           nth_error recs m = Some (month, rec) /\
           calc_binned_stats PRTHRESH (sel_month (sel_box ds reg) month)
                             BINPARAMS PRTHRESH = Ok rec).
Proof.
  intros F A REGIONS BINPARAMS PRTHRESH ds months Hnd Hreg Hmon Hal.
  pose (fm := fun regiondata month =>
               monthstats <- calc_binned_stats PRTHRESH (sel_month regiondata month)
                                               BINPARAMS PRTHRESH ;;
               Ok (month, monthstats)).
  pose (fr := fun region =>
               regiondata <- get_region ds region REGIONS ;;
               monthstatslist <- mapM (fm regiondata) months ;;
               regionstats <- xr_concat monthstatslist ;;
               Ok (region, regionstats)).
  change (process_by_subregion REGIONS BINPARAMS PRTHRESH ds months REGIONS)
    with (regionstatslist <- mapM fr (map fst REGIONS) ;; xr_concat regionstatslist).
  (* the months of one region *)
  assert (M : forall data, aligned data ->
            exists recs, mapM (fm data) months = Ok recs /\
              xr_concat recs = Ok recs /\
              Forall2 (fun month y =>
                         exists rec, y = (month, rec) /\
                           calc_binned_stats PRTHRESH (sel_month data month)
                                             BINPARAMS PRTHRESH = Ok rec)
                      months recs).
  { intros data Hd.
    destruct (mapM_Forall2 (fm data) months) as (recs & E & H2).
    - intros month _. unfold fm.
      destruct (calc_binned_stats_ok PRTHRESH (sel_month data month) BINPARAMS PRTHRESH
                  (aligned_sel_month data month Hd)) as [rec ->].
      simpl. eauto.
    - exists recs. split; [exact E|]. split.
      + destruct H2; [contradiction|reflexivity].
      + eapply Forall2_impl; [|exact H2]. intros month y Hy. unfold fm in Hy.
        destruct (calc_binned_stats PRTHRESH (sel_month data month) BINPARAMS PRTHRESH)
          as [rec|e]; simpl in Hy; [|discriminate].
        inversion Hy; subst. eauto. }
  (* the regions *)
  assert (R : forall key, In key (map fst REGIONS) ->
            exists reg recs, In (key, reg) REGIONS /\ dict_get REGIONS key = Ok reg /\
              fr key = Ok (key, recs) /\
              Forall2 (fun month y =>
                         exists rec, y = (month, rec) /\
                           calc_binned_stats PRTHRESH (sel_month (sel_box ds reg) month)
                                             BINPARAMS PRTHRESH = Ok rec)
                      months recs).
  { intros key Hk. apply in_map_iff in Hk. destruct Hk as ([k reg] & Ek & Hin).
    simpl in Ek. subst k.
    destruct (In_nth_error _ _ Hin) as [i Hi].
    pose proof (dict_get_nth REGIONS i key reg Hnd Hi) as Hget.
    destruct (M (sel_box ds reg) (aligned_sel_box ds reg Hal)) as (recs & E1 & E2 & H3).
    exists reg, recs. split; [exact Hin|]. split; [exact Hget|]. split; [|exact H3].
    unfold fr, get_region. rewrite Hget. simpl. rewrite E1. simpl. rewrite E2.
    reflexivity. }
  destruct (mapM_Forall2 fr (map fst REGIONS)) as (product & E & H2).
  { intros key Hk. destruct (R key Hk) as (reg & recs & _ & _ & Hfr & _). eauto. }
  exists product. rewrite E. simpl.
  assert (Lp : length product = length REGIONS).
  { apply Forall2_length in H2. now rewrite length_map in H2. }
  split; [destruct product; [destruct REGIONS; [contradiction|discriminate]|reflexivity]|].
  split; [exact Lp|].
  split; [|split].
  - clear - H2. remember (map fst REGIONS) as keys eqn:Ekeys. clear Ekeys.
    induction H2 as [|key y l l' Hy H2 IH]; simpl; auto.
    unfold fr in Hy. destruct (get_region ds key REGIONS); simpl in Hy; [|discriminate].
    destruct (mapM _ months); simpl in Hy; [|discriminate].
    destruct (xr_concat _); simpl in Hy; [|discriminate].
    inversion Hy; subst y. simpl. now rewrite IH.
  - apply Forall_forall. intros [key recs] Hin.
    destruct (In_nth_error _ _ Hin) as [i Hi].
    assert (Hlen : i < length (map fst REGIONS)).
    { rewrite length_map, <- Lp. apply nth_error_Some. congruence. }
    destruct (nth_error (map fst REGIONS) i) as [k|] eqn:Ek;
      [|apply nth_error_None in Ek; lia].
    destruct (Forall2_nth_error _ _ _ _ _ H2 Ek) as (y & Hy & Hfr).
    rewrite Hi in Hy. inversion Hy; subst y.
    destruct (R k (nth_error_In _ _ Ek)) as (reg & recs' & _ & _ & Hfr' & H3).
    rewrite Hfr in Hfr'. inversion Hfr'; subst. simpl.
    split; [symmetry; eapply Forall2_length; eauto|].
    clear - H3. induction H3 as [|month y l l' (rec & -> & _) H3 IH]; simpl; auto.
    now rewrite IH.
  - intros r m key reg month Hr Hm.
    assert (Ek : nth_error (map fst REGIONS) r = Some key)
      by (rewrite nth_error_map, Hr; reflexivity).
    destruct (Forall2_nth_error _ _ _ _ _ H2 Ek) as (y & Hy & Hfr).
    destruct (R key (nth_error_In _ _ Ek)) as (reg' & recs & _ & Hget & Hfr' & H3).
    rewrite (dict_get_nth REGIONS r key reg Hnd Hr) in Hget.
    inversion Hget; subst reg'.
    rewrite Hfr in Hfr'. inversion Hfr'; subst y.
    destruct (Forall2_nth_error _ _ _ _ _ H3 Hm) as (z & Hz & rec & -> & Hcalc).
    exists recs, rec. auto.
Qed.

(* ================================================================== *)
(** * Masks *)

Lemma select_map_filter {X Y} (f : Y -> bool) (g : X -> Y) (l : list X) :
  select (map f (map g l)) l = filter (fun x => f (g x)) l.
Proof.
  induction l as [|x l IH]; simpl; auto.
  destruct (f (g x)); simpl; congruence.
Qed.

Lemma points_select {F} (mask : list bool) blidxs capeidxs subsatidxs (prdata : list F) :
  length blidxs = length prdata -> length capeidxs = length prdata ->
  length subsatidxs = length prdata ->
  points (select mask blidxs) (select mask capeidxs) (select mask subsatidxs)
         (select mask prdata)
  = select mask (points blidxs capeidxs subsatidxs prdata).
Proof.
  unfold points. revert blidxs capeidxs subsatidxs prdata.
  induction mask as [|m mask IH]; intros [|b bs] [|c cs] [|s ss] [|v vs] L1 L2 L3;
    simpl in *; try discriminate; auto.
  destruct m; simpl; rewrite IH by congruence; reflexivity.
Qed.

Section Drop.
Context {F : Type} {A : Arith F}.
Variables nblbins ncapebins nsubsatbins : nat.
Variable prthresh : F.

(** A point the guards reject leaves the accumulators as they are. *)
Lemma step_rejected st (p : point F) :
  valid1 nblbins p = false -> valid2 ncapebins nsubsatbins p = false ->
  step nblbins ncapebins nsubsatbins prthresh st p = st.
Proof. unfold step. intros -> ->. reflexivity. Qed.

Lemma fold_step_filter (keep : point F -> bool) pts st :
  (forall p, keep p = false ->
             valid1 nblbins p = false /\ valid2 ncapebins nsubsatbins p = false) ->
  fold_left (step nblbins ncapebins nsubsatbins prthresh) (filter keep pts) st
  = fold_left (step nblbins ncapebins nsubsatbins prthresh) pts st.
Proof.
  intros H. revert st. induction pts as [|p pts IH]; intros st; simpl; auto.
  destruct (keep p) eqn:E; simpl.
  - apply IH.
  - destruct (H p E) as [H1 H2]. rewrite (step_rejected st p H1 H2). apply IH.
Qed.
End Drop.

(** X1.  Points whose precipitation is not finite (nan, inf) count for
    nothing: on input arrays of one length, dropping those points from the
    four arrays leaves the six accumulators as they are, in every
    arithmetic. *)
Theorem fast_binned_stats_skips_nonfinite :
  forall (F : Type) (A : Arith F) blidxs capeidxs subsatidxs (prdata : list F)
         nblbins ncapebins nsubsatbins prthresh,
    length blidxs = length prdata ->
    length capeidxs = length prdata ->
    length subsatidxs = length prdata ->
    let finite := map isfinite prdata in
    exists r,
      fast_binned_stats blidxs capeidxs subsatidxs prdata
                        nblbins ncapebins nsubsatbins prthresh = Ok r /\
      fast_binned_stats (select finite blidxs) (select finite capeidxs)
                        (select finite subsatidxs) (select finite prdata)
                        nblbins ncapebins nsubsatbins prthresh = Ok r.
Proof.
  intros F A blidxs capeidxs subsatidxs prdata nblbins ncapebins nsubsatbins
         prthresh L1 L2 L3 finite.
  eexists. split; [now apply fast_binned_stats_run|].
  rewrite fast_binned_stats_run by (apply length_select; assumption).
  f_equal. rewrite points_select by assumption.
  unfold finite.
  rewrite <- (map_pr_points blidxs capeidxs subsatidxs prdata L1 L2 L3) at 1.
  rewrite select_map_filter. unfold run. apply fold_step_filter.
  intros p E. unfold valid1, valid2. rewrite E, !andb_false_r. auto.
Qed.

(** Four points in binary64, one nan and one inf. *)
Lemma fast_binned_stats_skips_nonfinite_witness :
  exists r,
    fast_binned_stats (A:=binary64) [0; 1; 1; 0]%Z [0; 0; 1; 1]%Z [1; 1; 0; 0]%Z
                      [0.5; nan; 3; infinity]%float 2 2 2 0.25%float = Ok r /\
    fast_binned_stats (A:=binary64) [0; 1]%Z [0; 1]%Z [1; 0]%Z
                      [0.5; 3]%float 2 2 2 0.25%float = Ok r.
Proof.
  exact (fast_binned_stats_skips_nonfinite float binary64
           [0; 1; 1; 0]%Z [0; 0; 1; 1]%Z [1; 1; 0; 0]%Z
           [0.5; nan; 3; infinity]%float 2 2 2 0.25%float eq_refl eq_refl eq_refl).
Defined.

(* ================================================================== *)
(** * The 1-D and the 2-D statistics do not see each other *)

Lemma fold_left_Forall2 {P T} (R : P -> P -> Prop) (h h' : T -> P -> T) l l' :
  (forall a p p', R p p' -> h a p = h' a p') ->
  Forall2 R l l' -> forall a, fold_left h l a = fold_left h' l' a.
Proof.
  intros H. induction 1 as [|p p' l l' Hp _ IH]; intros a; simpl; auto.
  rewrite (H a p p' Hp). apply IH.
Qed.

Lemma points_Forall2 {F} (R : point F -> point F -> Prop)
    b1 c1 s1 b2 c2 s2 (pr : list F) :
  length b1 = length pr -> length c1 = length pr -> length s1 = length pr ->
  length b2 = length pr -> length c2 = length pr -> length s2 = length pr ->
  (forall i x1 y1 z1 x2 y2 z2 v,
     nth_error b1 i = Some x1 -> nth_error c1 i = Some y1 -> nth_error s1 i = Some z1 ->
     nth_error b2 i = Some x2 -> nth_error c2 i = Some y2 -> nth_error s2 i = Some z2 ->
     nth_error pr i = Some v ->
     R (Build_point x1 y1 z1 v) (Build_point x2 y2 z2 v)) ->
  Forall2 R (points b1 c1 s1 pr) (points b2 c2 s2 pr).
Proof.
  unfold points. revert c1 s1 b2 c2 s2 pr.
  induction b1 as [|x1 b1 IH]; intros [|y1 c1] [|z1 s1] [|x2 b2] [|y2 c2] [|z2 s2] [|v pr]
    L1 L2 L3 L4 L5 L6 H; simpl in *; try discriminate; constructor.
  - apply (H 0); reflexivity.
  - apply IH; try congruence.
    intros i. apply (H (S i)).
Qed.

Section Separate.
Context {F : Type} {A : Arith F}.

Lemma run_marginal_ext nblbins ncapebins nsubsatbins ncapebins' nsubsatbins'
    (prthresh : F) pts pts' :
  Forall2 (fun p p' => p_bl p = p_bl p' /\ p_pr p = p_pr p') pts pts' ->
  let r := run nblbins ncapebins nsubsatbins prthresh pts in
  let r' := run nblbins ncapebins' nsubsatbins' prthresh pts' in
  Q0 r = Q0 r' /\ QE r = QE r' /\ Q1 r = Q1 r'.
Proof.
  intros H r r'. unfold r, r', run.
  rewrite !Q0_fold, !QE_fold, !Q1_fold. simpl.
  rewrite <- !fold_left_if.
  repeat split; (eapply fold_left_Forall2; [|exact H]);
    intros a p p' [Hb Hv]; unfold valid1, exceeds; simpl; rewrite Hb, Hv; reflexivity.
Qed.

Lemma run_joint_ext nblbins nblbins' ncapebins nsubsatbins (prthresh : F) pts pts' :
  Forall2 (fun p p' => p_cape p = p_cape p' /\ p_subsat p = p_subsat p' /\
                       p_pr p = p_pr p') pts pts' ->
  let r := run nblbins ncapebins nsubsatbins prthresh pts in
  let r' := run nblbins' ncapebins nsubsatbins prthresh pts' in
  P0 r = P0 r' /\ PE r = PE r' /\ P1 r = P1 r'.
Proof.
  intros H r r'. unfold r, r', run.
  rewrite !P0_fold, !PE_fold, !P1_fold. simpl.
  rewrite <- !fold_left_if.
  repeat split; (eapply fold_left_Forall2; [|exact H]);
    intros a p p' (Hc & Hs & Hv); unfold valid2, exceeds; simpl;
    rewrite Hc, Hs, Hv; reflexivity.
Qed.
End Separate.

(** X2.  The 1-D statistics read no 2-D index and the 2-D statistics no 1-D
    index: with the same 1-D indices and values, [Q0], [QE], [Q1] are the
    same whatever the 2-D index arrays and the 2-D bin counts; with the same
    2-D indices and values, [P0], [PE], [P1] are the same whatever the 1-D
    index array and the 1-D bin count. *)
Theorem fast_binned_stats_marginal_joint_separate :
  forall (F : Type) (A : Arith F)
         blidxs capeidxs subsatidxs blidxs' capeidxs' subsatidxs' (prdata : list F)
         nblbins ncapebins nsubsatbins nblbins' ncapebins' nsubsatbins' prthresh,
    length blidxs = length prdata -> length capeidxs = length prdata ->
    length subsatidxs = length prdata ->
    length blidxs' = length prdata -> length capeidxs' = length prdata ->
    length subsatidxs' = length prdata ->
    exists r r1 r2,
      fast_binned_stats blidxs capeidxs subsatidxs prdata
                        nblbins ncapebins nsubsatbins prthresh = Ok r /\
      fast_binned_stats blidxs capeidxs' subsatidxs' prdata
                        nblbins ncapebins' nsubsatbins' prthresh = Ok r1 /\
      fast_binned_stats blidxs' capeidxs subsatidxs prdata
                        nblbins' ncapebins nsubsatbins prthresh = Ok r2 /\
      Q0 r1 = Q0 r /\ QE r1 = QE r /\ Q1 r1 = Q1 r /\
      P0 r2 = P0 r /\ PE r2 = PE r /\ P1 r2 = P1 r.
Proof.
  intros F A blidxs capeidxs subsatidxs blidxs' capeidxs' subsatidxs' prdata
         nblbins ncapebins nsubsatbins nblbins' ncapebins' nsubsatbins' prthresh
         L1 L2 L3 L4 L5 L6.
  do 3 eexists.
  split; [now apply fast_binned_stats_run|].
  split; [now apply fast_binned_stats_run|].
  split; [now apply fast_binned_stats_run|].
  assert (M : Forall2 (fun p p' => p_bl p = p_bl p' /\ p_pr p = p_pr p')
                (points blidxs capeidxs' subsatidxs' prdata)
                (points blidxs capeidxs subsatidxs prdata)).
  { apply points_Forall2; auto. intros i x1 y1 z1 x2 y2 z2 v H1 _ _ H2 _ _ _.
    simpl. split; congruence. }
  assert (J : Forall2 (fun p p' => p_cape p = p_cape p' /\ p_subsat p = p_subsat p' /\
                                   p_pr p = p_pr p')
                (points blidxs' capeidxs subsatidxs prdata)
                (points blidxs capeidxs subsatidxs prdata)).
  { apply points_Forall2; auto. intros i x1 y1 z1 x2 y2 z2 v _ H1 H2 _ H3 H4 _.
    simpl. repeat split; congruence. }
  destruct (run_marginal_ext nblbins ncapebins' nsubsatbins' ncapebins nsubsatbins
              prthresh _ _ M) as (E1 & E2 & E3).
  destruct (run_joint_ext nblbins' nblbins ncapebins nsubsatbins prthresh _ _ J)
    as (E4 & E5 & E6).
  repeat split; assumption.
Qed.

(** Three points in binary64, against other 2-D indices and against other
    1-D indices. *)
Lemma fast_binned_stats_marginal_joint_separate_witness :
  exists r r1 r2,
    fast_binned_stats (A:=binary64) [0; 1; 1]%Z [0; 0; 1]%Z [1; 1; 0]%Z
                      [0.5; 0; 3]%float 2 2 2 0.25%float = Ok r /\
    fast_binned_stats (A:=binary64) [0; 1; 1]%Z [5; -1; 0]%Z [0; 0; 0]%Z
                      [0.5; 0; 3]%float 2 1 3 0.25%float = Ok r1 /\
    fast_binned_stats (A:=binary64) [7; 7; 0]%Z [0; 0; 1]%Z [1; 1; 0]%Z
                      [0.5; 0; 3]%float 4 2 2 0.25%float = Ok r2 /\
    Q0 r1 = Q0 r /\ QE r1 = QE r /\ Q1 r1 = Q1 r /\
    P0 r2 = P0 r /\ PE r2 = PE r /\ P1 r2 = P1 r.
Proof.
  exact (fast_binned_stats_marginal_joint_separate float binary64
           [0; 1; 1]%Z [0; 0; 1]%Z [1; 1; 0]%Z [7; 7; 0]%Z [5; -1; 0]%Z [0; 0; 0]%Z
           [0.5; 0; 3]%float 2 2 2 4 1 3 0.25%float
           eq_refl eq_refl eq_refl eq_refl eq_refl eq_refl).
Defined.

(* ================================================================== *)
(** * The threshold *)

Lemma count_mono {T} (f g : T -> bool) (l : list T) :
  (forall x, f x = true -> g x = true) -> (count f l <= count g l)%Z.
Proof.
  intros H. unfold count. apply inj_le.
  induction l as [|x l IH]; simpl; auto.
  destruct (f x) eqn:E.
  - rewrite (H x E). simpl. lia.
  - destruct (g x); simpl; lia.
Qed.

(** [t1 <= t2] and [t2 < v] give [t1 < v], for the rationals. *)
Lemma Qleb_ltb_trans (t1 t2 v : Q) :
  Qle_bool t1 t2 = true -> Qltb t2 v = true -> Qltb t1 v = true.
Proof.
  unfold Qltb. intros H1 H2.
  apply Qle_bool_iff in H1. apply negb_true_iff in H2.
  apply negb_true_iff. destruct (Qle_bool v t1) eqn:E; [|reflexivity].
  apply Qle_bool_iff in E.
  assert (H : Qle_bool v t2 = true)
    by (apply Qle_bool_iff; eapply Qle_trans; eauto).
  congruence.
Qed.

(** The same for the comparison of binary64, which orders finite values by
    sign, then exponent, then significand. *)
Lemma SFleb_ltb_trans (a b c : spec_float) :
  SFleb a b = true -> SFltb b c = true -> SFltb a c = true.
Proof.
  unfold SFleb, SFltb, SFcompare.
  destruct a as [sa|sa| |sa ma ea], b as [sb|sb| |sb mb eb], c as [sc|sc| |sc mc ec];
    try discriminate;
    try (destruct sa); try (destruct sb); try (destruct sc);
    try discriminate; try reflexivity.
  all: rewrite !Pos.compare_cont_spec; cbv [Pos.switch_Eq].
  all: destruct (Z.compare_spec ea eb) as [E1|E1|E1];
    destruct (Z.compare_spec eb ec) as [E2|E2|E2];
    destruct (Z.compare_spec ea ec) as [E3|E3|E3];
    try discriminate; try reflexivity; try (exfalso; lia).
  all: destruct (Pos.compare_spec ma mb) as [P1|P1|P1];
    destruct (Pos.compare_spec mb mc) as [P2|P2|P2];
    destruct (Pos.compare_spec ma mc) as [P3|P3|P3];
    simpl; try discriminate; try reflexivity; try (exfalso; lia).
Qed.

Lemma float_leb_ltb_trans (t1 t2 v : float) :
  PrimFloat.leb t1 t2 = true -> PrimFloat.ltb t2 v = true ->
  PrimFloat.ltb t1 v = true.
Proof. rewrite leb_spec, !ltb_spec. apply SFleb_ltb_trans. Qed.

Section Threshold.
Context {F : Type} {A : Arith F}.
Variables nblbins ncapebins nsubsatbins : nat.

Lemma run_threshold_free (t1 t2 : F) pts :
  let r1 := run nblbins ncapebins nsubsatbins t1 pts in
  let r2 := run nblbins ncapebins nsubsatbins t2 pts in
  Q0 r1 = Q0 r2 /\ Q1 r1 = Q1 r2 /\ P0 r1 = P0 r2 /\ P1 r1 = P1 r2.
Proof.
  intros r1 r2. unfold r1, r2, run.
  rewrite !Q0_fold, !Q1_fold, !P0_fold, !P1_fold. auto.
Qed.

Lemma run_threshold_antitone (t1 t2 : F) pts :
  (forall v, fltb t2 v = true -> fltb t1 v = true) ->
  let r1 := run nblbins ncapebins nsubsatbins t1 pts in
  let r2 := run nblbins ncapebins nsubsatbins t2 pts in
  (forall i, i < nblbins -> (nth i (QE r2) 0 <= nth i (QE r1) 0)%Z) /\
  (forall a b, a < nsubsatbins -> b < ncapebins ->
     (nth b (nth a (PE r2) []) 0 <= nth b (nth a (PE r1) []) 0)%Z).
Proof.
  intros H r1 r2. split.
  - intros i Hi.
    destruct (run_cells1 nblbins ncapebins nsubsatbins t1 pts _ Hi) as (_ & _ & E1).
    destruct (run_cells1 nblbins ncapebins nsubsatbins t2 pts _ Hi) as (_ & _ & E2).
    unfold r1, r2. rewrite E1, E2. apply count_mono.
    intros p Hp. apply andb_prop in Hp. destruct Hp as [Hb He].
    rewrite Hb. simpl. unfold exceeds in *. now apply H.
  - intros a b Ha Hb.
    destruct (run_cells2 nblbins ncapebins nsubsatbins t1 pts _ _ Ha Hb) as (_ & _ & E1).
    destruct (run_cells2 nblbins ncapebins nsubsatbins t2 pts _ _ Ha Hb) as (_ & _ & E2).
    unfold r1, r2. rewrite E1, E2. apply count_mono.
    intros p Hp. apply andb_prop in Hp. destruct Hp as [Hc He].
    rewrite Hc. simpl. unfold exceeds in *. now apply H.
Qed.
End Threshold.

(** X3.  The threshold reaches the exceedance counts only: [Q0], [Q1], [P0],
    [P1] are the same for every threshold.  Raising the threshold never
    raises an exceedance count: when every value above [t2] is above [t1],
    each cell of [QE] and [PE] under [t2] is at most the cell under [t1]; and
    [t1 <= t2] gives that, in binary64 and in exact arithmetic. *)
Theorem fast_binned_stats_threshold :
  (forall (F : Type) (A : Arith F) blidxs capeidxs subsatidxs (prdata : list F)
          nblbins ncapebins nsubsatbins (t1 t2 : F),
     length blidxs = length prdata -> length capeidxs = length prdata ->
     length subsatidxs = length prdata ->
     exists r1 r2,
       fast_binned_stats blidxs capeidxs subsatidxs prdata
                         nblbins ncapebins nsubsatbins t1 = Ok r1 /\
       fast_binned_stats blidxs capeidxs subsatidxs prdata
                         nblbins ncapebins nsubsatbins t2 = Ok r2 /\
       Q0 r1 = Q0 r2 /\ Q1 r1 = Q1 r2 /\ P0 r1 = P0 r2 /\ P1 r1 = P1 r2 /\
       ((forall v, fltb t2 v = true -> fltb t1 v = true) ->
        (forall i, i < nblbins -> (nth i (QE r2) 0 <= nth i (QE r1) 0)%Z) /\
        (forall a b, a < nsubsatbins -> b < ncapebins ->
           (nth b (nth a (PE r2) []) 0 <= nth b (nth a (PE r1) []) 0)%Z))) /\
  (forall t1 t2 : float, fleb t1 t2 = true ->
     forall v, fltb t2 v = true -> fltb t1 v = true) /\
  (forall t1 t2 : Q, fleb t1 t2 = true ->
     forall v, fltb t2 v = true -> fltb t1 v = true).
Proof.
  split; [|split].
  - intros F A blidxs capeidxs subsatidxs prdata nblbins ncapebins nsubsatbins
           t1 t2 L1 L2 L3.
    do 2 eexists.
    split; [now apply fast_binned_stats_run|].
    split; [now apply fast_binned_stats_run|].
    destruct (run_threshold_free nblbins ncapebins nsubsatbins t1 t2
                (points blidxs capeidxs subsatidxs prdata)) as (E1 & E2 & E3 & E4).
    repeat (split; [assumption|]).
    intros H. now apply run_threshold_antitone.
  - intros t1 t2 H v. now apply float_leb_ltb_trans.
  - intros t1 t2 H v. now apply Qleb_ltb_trans.
Qed.

(** Thresholds 0.25 and 1 in binary64. *)
Lemma fast_binned_stats_threshold_witness :
  exists r1 r2,
    fast_binned_stats (A:=binary64) [0; 0; 1]%Z [0; 0; 1]%Z [1; 1; 0]%Z
                      [0.5; 0.1; 3]%float 2 2 2 0.25%float = Ok r1 /\
    fast_binned_stats (A:=binary64) [0; 0; 1]%Z [0; 0; 1]%Z [1; 1; 0]%Z
                      [0.5; 0.1; 3]%float 2 2 2 1%float = Ok r2 /\
    Q0 r1 = Q0 r2 /\ Q1 r1 = Q1 r2 /\ P0 r1 = P0 r2 /\ P1 r1 = P1 r2 /\
    (nth 0 (QE r2) 0 <= nth 0 (QE r1) 0)%Z.
Proof.
  destruct (proj1 fast_binned_stats_threshold float binary64
              [0; 0; 1]%Z [0; 0; 1]%Z [1; 1; 0]%Z [0.5; 0.1; 3]%float 2 2 2
              0.25%float 1%float eq_refl eq_refl eq_refl)
    as (r1 & r2 & E1 & E2 & H0 & H1 & H2 & H3 & H).
  exists r1, r2. repeat (split; [assumption|]).
  apply (H (proj1 (proj2 fast_binned_stats_threshold) 0.25%float 1%float eq_refl)).
  apply Nat.lt_0_succ.
Defined.

(* ================================================================== *)
(** * The sums of squares of the earlier revision *)

Section Squares.
Context {F : Type} {A : Arith F}.
Variable square : F -> F.
Variables nblbins ncapebins nsubsatbins : nat.
Variable prthresh : F.

Lemma Q2_fold pts st :
  Earlier.Q2 (fold_left (step8 square nblbins ncapebins nsubsatbins prthresh) pts st)
  = fold_left (fun a p => apply_at (Z.to_nat (p_bl p))
                            (fun s => fadd s (square (p_pr p))) a)
              (filter (valid1 nblbins) pts) (Earlier.Q2 st).
Proof.
  rewrite <- fold_left_if.
  revert st; induction pts as [|p pts IH]; intros st; simpl; auto.
  rewrite IH. f_equal. unfold step8.
  destruct (valid1 nblbins p), (valid2 ncapebins nsubsatbins p); reflexivity.
Qed.

Lemma P2_fold pts st :
  Earlier.P2 (fold_left (step8 square nblbins ncapebins nsubsatbins prthresh) pts st)
  = fold_left (fun a p => apply_at (Z.to_nat (p_subsat p))
                            (apply_at (Z.to_nat (p_cape p))
                               (fun s => fadd s (square (p_pr p)))) a)
              (filter (valid2 ncapebins nsubsatbins) pts) (Earlier.P2 st).
Proof.
  rewrite <- fold_left_if.
  revert st; induction pts as [|p pts IH]; intros st; simpl; auto.
  rewrite IH. f_equal. unfold step8.
  destruct (valid1 nblbins p), (valid2 ncapebins nsubsatbins p); reflexivity.
Qed.

Lemma fold8_squares pts :
  let r := fold_left (step8 square nblbins ncapebins nsubsatbins prthresh) pts
                     (init8 nblbins ncapebins nsubsatbins) in
  let sq := fun p : point F => square (p_pr p) in
  (forall i, i < nblbins ->
     nth i (Earlier.Q2 r) fzero = fsum (map sq (filter (in_bin i) pts))) /\
  (forall a b, a < nsubsatbins -> b < ncapebins ->
     nth b (nth a (Earlier.P2 r) []) fzero = fsum (map sq (filter (in_cell a b) pts))).
Proof.
  intros r sq. unfold r. split.
  - intros i Hi. rewrite Q2_fold. unfold init8; simpl.
    rewrite (filter_true_r (valid1 nblbins)).
    rewrite (cell1 nblbins (fun _ => true)
               (fun p s => fadd s (square (p_pr p))))
      by (auto; unfold zeros; apply repeat_length).
    rewrite nth_zeros, <- filter_true_r.
    unfold fsum. now rewrite <- fold_left_map_r.
  - intros a b Ha Hb. rewrite P2_fold. unfold init8; simpl.
    rewrite (filter_true_r (valid2 ncapebins nsubsatbins)).
    rewrite (cell2 ncapebins nsubsatbins (fun _ => true)
               (fun p s => fadd s (square (p_pr p))))
      by (auto; unfold zeros2; rewrite ?repeat_length; auto;
          rewrite nth_repeat_lt by assumption; apply repeat_length).
    rewrite nth_zeros2 by assumption.
    rewrite nth_zeros, <- filter_true_r.
    unfold fsum. now rewrite <- fold_left_map_r.
Qed.
End Squares.

(** X5.  The two accumulators the earlier revision has besides: on four
    arrays of one shape the loops run to the end, [Q2] and [P2] have the shape
    of [Q1] and [P1], [Q2[i]] is the sum of the powers [prval**2], whatever
    the power function returns for them, over the points with 1-D index [i]
    and finite value, added in visiting order to [0.0], and [P2[a, b]] the
    same over the points with 2-D indices [(a, b)]. *)
Theorem accumulate_squares_cells :
  forall (F : Type) (A : Arith F) (square : F -> F) blidxs capeidxs subsatidxs
         (pr : list (list (list F))) ntime nlat nlon
         nblbins ncapebins nsubsatbins prthresh,
    shape3 blidxs ntime nlat nlon -> shape3 capeidxs ntime nlat nlon ->
    shape3 subsatidxs ntime nlat nlon -> shape3 pr ntime nlat nlon ->
    let pts := points (flat3 blidxs) (flat3 capeidxs) (flat3 subsatidxs) (flat3 pr) in
    let sq := fun p : point F => square (p_pr p) in
    exists r8,
      Earlier.accumulate square blidxs capeidxs subsatidxs pr ntime nlat nlon
                         nblbins ncapebins nsubsatbins prthresh = Ok r8 /\
      length (Earlier.Q2 r8) = nblbins /\
      length (Earlier.P2 r8) = nsubsatbins /\
      Forall (fun row => length row = ncapebins) (Earlier.P2 r8) /\
      (forall i, i < nblbins ->
         nth i (Earlier.Q2 r8) fzero = fsum (map sq (filter (in_bin i) pts))) /\
      (forall a b, a < nsubsatbins -> b < ncapebins ->
         nth b (nth a (Earlier.P2 r8) []) fzero
         = fsum (map sq (filter (in_cell a b) pts))).
Proof.
  intros F A square blidxs capeidxs subsatidxs pr ntime nlat nlon
         nblbins ncapebins nsubsatbins prthresh S1 S2 S3 S4 pts sq.
  eexists.
  split; [now apply (accumulate_run _ _ _ _ _ _ _ _ _ ntime nlat nlon)|].
  rewrite (flat3_points3 blidxs capeidxs subsatidxs pr ntime nlat nlon S1 S2 S3 S4).
  fold pts.
  destruct (shaped8_fold8 square nblbins ncapebins nsubsatbins prthresh pts _
              (shaped8_init nblbins ncapebins nsubsatbins)) as (_ & G1 & G2 & G3).
  destruct (fold8_squares square nblbins ncapebins nsubsatbins prthresh pts) as [H1 H2].
  repeat split; assumption.
Qed.

(** A 2 x 1 x 2 grid in binary64; the squares of 0.5, 3 and 2 are exact, so
    that the rounded product is their power. *)
Lemma accumulate_squares_cells_witness :
  exists r8,
    Earlier.accumulate (A:=binary64) (fun x => PrimFloat.mul x x)
      [[[0; 1]]; [[1; 7]]]%Z [[[0; 0]]; [[1; -1]]]%Z [[[0; 1]]; [[1; 1]]]%Z
      [[[0.5; 3]]; [[nan; 2]]]%float 2 1 2 2 2 2 0.25%float = Ok r8 /\
    nth 0 (Earlier.Q2 r8) 0%float = 0.25%float /\
    nth 1 (Earlier.Q2 r8) 0%float = 9%float /\
    nth 0 (nth 1 (Earlier.P2 r8) []) 0%float = 9%float.
Proof.
  destruct (accumulate_squares_cells float binary64 (fun x => PrimFloat.mul x x)
              [[[0; 1]]; [[1; 7]]]%Z [[[0; 0]]; [[1; -1]]]%Z [[[0; 1]]; [[1; 1]]]%Z
              [[[0.5; 3]]; [[nan; 2]]]%float 2 1 2 2 2 2 0.25%float)
    as (r8 & E & _ & _ & _ & H1 & H2);
    try (split; [reflexivity|]; repeat constructor).
  exists r8. split; [exact E|].
  split; [exact (H1 0 (Nat.lt_0_succ 1))|].
  split; [exact (H1 1 (Nat.lt_succ_diag_r 1))|].
  exact (H2 1 0 (Nat.lt_succ_diag_r 1) (Nat.lt_0_succ 1)).
Defined.

(* ================================================================== *)
(** * The builder *)

Lemma flat3_map3 {X Y} (f : X -> Y) (a : list (list (list X))) :
  flat3 (map3 f a) = map f (flat3 a).
Proof.
  unfold flat3, map3. rewrite !concat_map. reflexivity.
Qed.

Section BuilderFacts.
Context {F : Type} {A : Arith F}.
Variable PRTHRESH : F.

(** The points the builder hands to the kernel: the three index expressions
    applied to the variables, cell by cell, and the precipitation. *)
Lemma calc_binned_stats_run (data : dataset F) (binparams : binparams F)
    (prthresh : F) :
  aligned data ->
  calc_binned_stats PRTHRESH data binparams prthresh
  = Ok {| data_vars :=
            run (length (get_bin_edges bl binparams))
                (length (get_bin_edges cape binparams))
                (length (get_bin_edges subsat binparams)) PRTHRESH
                (points (map (blidx_of (bp_bl binparams)) (flat3 (var_bl data)))
                        (map (jointidx_of (bp_cape binparams)) (flat3 (var_cape data)))
                        (map (jointidx_of (bp_subsat binparams)) (flat3 (var_subsat data)))
                        (flat3 (var_pr data)));
          coord_bl := get_bin_edges bl binparams;
          coord_cape := get_bin_edges cape binparams;
          coord_subsat := get_bin_edges subsat binparams |}.
Proof.
  intros (H1 & H2 & H3). unfold calc_binned_stats.
  rewrite fast_binned_stats_run.
  - simpl. now rewrite !flat3_map3.
  - now apply same_shape3_flat3, same_shape3_map3.
  - now apply same_shape3_flat3, same_shape3_map3.
  - now apply same_shape3_flat3, same_shape3_map3.
Qed.
End BuilderFacts.

(** X6.  The dataset the builder returns is well formed: on a dataset whose
    variables share one index space it runs to the end, the three coordinates
    are the edges of the bin parameters it was given, [Q0], [QE], [Q1] have
    one cell per [bl] edge, and [P0], [PE], [P1] one row per [subsat] edge and
    one column per [cape] edge. *)
Theorem calc_binned_stats_conforms :
  forall (F : Type) (A : Arith F) (PRTHRESH : F) (data : dataset F)
         (binparams : binparams F) (prthresh : F),
    aligned data ->
    exists rec,
      calc_binned_stats PRTHRESH data binparams prthresh = Ok rec /\
      coord_bl rec = get_bin_edges bl binparams /\
      coord_cape rec = get_bin_edges cape binparams /\
      coord_subsat rec = get_bin_edges subsat binparams /\
      shaped (length (coord_bl rec)) (length (coord_cape rec))
             (length (coord_subsat rec)) (data_vars rec).
Proof.
  intros F A PRTHRESH data binparams prthresh Hal.
  eexists. split; [now apply calc_binned_stats_run|]. simpl.
  repeat (split; [reflexivity|]). apply shaped_run.
Qed.

(** The sample dataset with the notebook's parameters: 281 bins and 91
    rows. *)
Lemma calc_binned_stats_conforms_witness :
  exists rec,
    calc_binned_stats Notebook.PRTHRESH Sample.data Notebook.BINPARAMS
                      Notebook.PRTHRESH = Ok rec /\
    length (Q0 (data_vars rec)) = 281 /\ length (P0 (data_vars rec)) = 91.
Proof.
  destruct (calc_binned_stats_conforms float binary64 Notebook.PRTHRESH Sample.data
              Notebook.BINPARAMS Notebook.PRTHRESH)
    as (rec & E & C1 & C2 & C3 & S1 & _ & _ & S4 & _).
  - repeat split; repeat constructor.
  - exists rec. split; [exact E|].
    rewrite S1, S4, C1, C3. split; vm_compute; reflexivity.
Defined.

(** X7.  What the builder counts.  Each grid point gets the 1-D index of its
    [bl] value and the 2-D indices of its [cape] and [subsat] values, with the
    bin parameters given; [Q0[i]] is the number of grid points with 1-D index
    [i] and finite precipitation, [Q1[i]] the sum of their precipitation, and
    likewise for the 2-D cells.  The exceedance counts [QE], [PE] compare with
    the global [PRTHRESH]: the argument [prthresh] changes nothing in the
    result. *)
Theorem calc_binned_stats_counts :
  forall (F : Type) (A : Arith F) (PRTHRESH : F) (data : dataset F)
         (binparams : binparams F) (prthresh : F),
    aligned data ->
    let pts :=
      points (map (blidx_of (bp_bl binparams)) (flat3 (var_bl data)))
             (map (jointidx_of (bp_cape binparams)) (flat3 (var_cape data)))
             (map (jointidx_of (bp_subsat binparams)) (flat3 (var_subsat data)))
             (flat3 (var_pr data)) in
    exists rec,
      calc_binned_stats PRTHRESH data binparams prthresh = Ok rec /\
      (forall prthresh', calc_binned_stats PRTHRESH data binparams prthresh' = Ok rec) /\
      (forall i, i < length (get_bin_edges bl binparams) ->
         nth i (Q0 (data_vars rec)) 0%Z = count (in_bin i) pts /\
         nth i (Q1 (data_vars rec)) fzero
           = fsum (map (@p_pr F) (filter (in_bin i) pts)) /\
         nth i (QE (data_vars rec)) 0%Z
           = count (fun p => in_bin i p && exceeds PRTHRESH p) pts) /\
      (forall a b, a < length (get_bin_edges subsat binparams) ->
                   b < length (get_bin_edges cape binparams) ->
         nth b (nth a (P0 (data_vars rec)) []) 0%Z = count (in_cell a b) pts /\
         nth b (nth a (P1 (data_vars rec)) []) fzero
           = fsum (map (@p_pr F) (filter (in_cell a b) pts)) /\
         nth b (nth a (PE (data_vars rec)) []) 0%Z
           = count (fun p => in_cell a b p && exceeds PRTHRESH p) pts).
Proof.
  intros F A PRTHRESH data binparams prthresh Hal pts.
  eexists. split; [now apply calc_binned_stats_run|].
  split; [intros prthresh'; now apply calc_binned_stats_run|].
  simpl. split.
  - intros i Hi. now apply run_cells1.
  - intros a b Ha Hb. now apply run_cells2.
Qed.

(** The sample dataset with the argument [prthresh = 100]: bin 120 holds two
    points, one of them above the global threshold 0.25. *)
Lemma calc_binned_stats_counts_witness :
  exists rec,
    calc_binned_stats Notebook.PRTHRESH Sample.data Notebook.BINPARAMS 100%float
      = Ok rec /\
    nth 120 (Q0 (data_vars rec)) 0%Z = 2%Z /\
    nth 120 (QE (data_vars rec)) 0%Z = 1%Z.
Proof.
  destruct (calc_binned_stats_counts float binary64 Notebook.PRTHRESH Sample.data
              Notebook.BINPARAMS 100%float)
    as (rec & E & _ & H1 & _).
  - repeat split; repeat constructor.
  - exists rec. split; [exact E|].
    assert (L : 120 < length (get_bin_edges (A:=binary64) bl Notebook.BINPARAMS))
      by (vm_compute; lia).
    destruct (H1 120 L) as (-> & _ & ->).
    split; vm_compute; reflexivity.
Defined.

(* ================================================================== *)
(** * The two revisions of the builder *)

Section Widths.
Context {F : Type} {A : Arith F}.

(** The 64-bit and the 32-bit conversion give an index that passes the bounds
    check for the same values, and then the same index. *)
Lemma astype_in_range (x : F) (n : nat) :
  (Z.of_nat n <= 2 ^ 31)%Z ->
  in_range (astype_int x) n = in_range (astype_int32 x) n /\
  (in_range (astype_int32 x) n = true -> astype_int x = astype_int32 x).
Proof.
  intros Hn. unfold astype_int, astype_int32, in_range.
  assert (E1 : INT32_MIN = (-2147483648)%Z) by reflexivity.
  assert (E2 : INT32_MAX = 2147483647%Z) by reflexivity.
  assert (E3 : INT64_MIN = (-9223372036854775808)%Z) by reflexivity.
  assert (E4 : INT64_MAX = 9223372036854775807%Z) by reflexivity.
  assert (E5 : (2 ^ 31 = 2147483648)%Z) by reflexivity.
  rewrite E1, E2, E3, E4. rewrite E5 in Hn. clear E1 E2 E3 E4 E5.
  destruct (ftrunc x) as [z|]; [|split; [reflexivity|simpl; discriminate]].
  destruct (Z.leb_spec (-2147483648) z), (Z.leb_spec z 2147483647),
    (Z.leb_spec (-9223372036854775808) z), (Z.leb_spec z 9223372036854775807);
    simpl; try lia; (split; [|intros H; revert H]);
    repeat match goal with
           | |- context [(?a <=? ?b)%Z] => destruct (Z.leb_spec a b)
           | |- context [(?a <? ?b)%Z] => destruct (Z.ltb_spec a b)
           end; simpl; try reflexivity; try discriminate; try lia.
Qed.

Variables nblbins ncapebins nsubsatbins : nat.
Variable prthresh : F.

Lemma step_same_bins st p p' :
  same_bins nblbins ncapebins nsubsatbins p p' ->
  step nblbins ncapebins nsubsatbins prthresh st p
  = step nblbins ncapebins nsubsatbins prthresh st p'.
Proof.
  intros (Hv & B1 & B2 & C1 & C2 & S1 & S2).
  unfold step, valid1, valid2, exceeds. rewrite Hv, B1, C1, S1.
  destruct (in_range (p_bl p') nblbins) eqn:Eb;
    destruct (in_range (p_cape p') ncapebins) eqn:Ec;
    destruct (in_range (p_subsat p') nsubsatbins) eqn:Es;
    rewrite ?B2, ?C2, ?S2 by reflexivity; reflexivity.
Qed.
End Widths.

Lemma shape3_map3 {X Y} (f : X -> Y) (a : list (list (list X))) ntime nlat nlon :
  shape3 a ntime nlat nlon -> shape3 (map3 f a) ntime nlat nlon.
Proof.
  unfold shape3, map3. intros [L Fa]. split; [now rewrite length_map|].
  apply Forall_map. eapply Forall_impl; [|exact Fa].
  intros plane [Lp Fp]. split; [now rewrite length_map|].
  apply Forall_map. eapply Forall_impl; [|exact Fp].
  intros row Lr. now rewrite length_map.
Qed.

Lemma shape3_same_shape3 {X Y} (a : list (list (list X))) (b : list (list (list Y)))
    ntime nlat nlon :
  shape3 a ntime nlat nlon -> shape3 b ntime nlat nlon -> same_shape3 a b.
Proof.
  unfold shape3, same_shape3. intros [La Fa] [Lb Fb].
  assert (G : forall T U (P : T -> Prop) (Q : U -> Prop) (R : T -> U -> Prop)
                (l : list T) (l' : list U),
             (forall x y, P x -> Q y -> R x y) ->
             length l = length l' -> Forall P l -> Forall Q l' -> Forall2 R l l').
  { intros T U P Q R l l' H. revert l'.
    induction l as [|x l IH]; intros [|y l'] L Hl Hl'; simpl in L; try discriminate;
      constructor.
    - apply H; [now inversion Hl|now inversion Hl'].
    - apply IH; [lia|now inversion Hl|now inversion Hl']. }
  eapply G; [|congruence|exact Fa|exact Fb].
  intros p q [Lp Fp] [Lq Fq]. eapply G; [|congruence|exact Fp|exact Fq].
  simpl. intros; congruence.
Qed.

(** X8.  The two revisions of the builder agree.  On a dataset of shape
    [(len(time), len(lat), len(lon))], with the bin parameters and the
    threshold of the configuration and at most 2^31 edges per variable, the
    earlier [calc_binned_stats] (64-bit indices, explicit loops) and the
    later one (32-bit indices, single-pass kernel) both run to the end and
    return the same coordinates and the same [Q0], [QE], [Q1], [P0], [PE],
    [P1]: an offset that does not fit 32 bits is out of range in both.  The
    power [prval**2] of the earlier revision reaches none of the six. *)
Theorem calc_binned_stats_revisions_agree :
  forall (F : Type) (A : Arith F) (BINPARAMS : binparams F) (PRTHRESH : F)
         (square : F -> F) (data : dataset F),
    let ntime := length (time_month data) in
    let nlat := length (lat data) in
    let nlon := length (lon data) in
    shape3 (var_bl data) ntime nlat nlon -> shape3 (var_cape data) ntime nlat nlon ->
    shape3 (var_subsat data) ntime nlat nlon -> shape3 (var_pr data) ntime nlat nlon ->
    (Z.of_nat (length (get_bin_edges bl BINPARAMS)) <= 2 ^ 31)%Z ->
    (Z.of_nat (length (get_bin_edges cape BINPARAMS)) <= 2 ^ 31)%Z ->
    (Z.of_nat (length (get_bin_edges subsat BINPARAMS)) <= 2 ^ 31)%Z ->
    exists old new,
      Earlier.calc_binned_stats BINPARAMS square data BINPARAMS PRTHRESH = Ok old /\
      calc_binned_stats PRTHRESH data BINPARAMS PRTHRESH = Ok new /\
      Earlier.shared (Earlier.data_vars old) = data_vars new /\
      Earlier.coord_bl old = coord_bl new /\
      Earlier.coord_cape old = coord_cape new /\
      Earlier.coord_subsat old = coord_subsat new.
Proof.
  intros F A BINPARAMS PRTHRESH square data ntime nlat nlon S1 S2 S3 S4 N1 N2 N3.
  do 2 eexists. split.
  - unfold Earlier.calc_binned_stats.
    rewrite (accumulate_run _ _ _ _ _ _ _ _ _ ntime nlat nlon)
      by (try apply shape3_map3; assumption).
    reflexivity.
  - split.
    + apply calc_binned_stats_run.
      repeat split; eapply shape3_same_shape3; eassumption.
    + simpl. repeat split.
      rewrite shared_fold8.
      rewrite (flat3_points3 _ _ _ _ ntime nlat nlon)
        by (try apply shape3_map3; assumption).
      rewrite !flat3_map3.
      change (Earlier.shared (init8 _ _ _))
        with (init_stats (F:=F) (length (get_bin_edges bl BINPARAMS))
                (length (get_bin_edges cape BINPARAMS))
                (length (get_bin_edges subsat BINPARAMS))).
      unfold run.
      apply (fold_left_Forall2
               (same_bins (length (get_bin_edges bl BINPARAMS))
                          (length (get_bin_edges cape BINPARAMS))
                          (length (get_bin_edges subsat BINPARAMS)))).
      * intros st p p' Hp. now apply step_same_bins.
      * assert (L : forall T (a : list (list (list T))),
                   shape3 a ntime nlat nlon -> length (flat3 a) = ntime * nlat * nlon).
        { intros T a Sa. apply shape3_rows in Sa. destruct Sa as (_ & _ & C & R).
          unfold flat3. now rewrite (length_concat_rect _ _ R), C. }
        apply points_Forall2;
          try (rewrite ?length_map, !L by assumption; reflexivity).
        intros i x1 y1 z1 x2 y2 z2 v H1 H2 H3 H4 H5 H6 _.
        rewrite nth_error_map in H1, H2, H3, H4, H5, H6.
        destruct (nth_error (flat3 (var_bl data)) i) as [vb|]; [|discriminate].
        destruct (nth_error (flat3 (var_cape data)) i) as [vc|]; [|discriminate].
        destruct (nth_error (flat3 (var_subsat data)) i) as [vs|]; [|discriminate].
        simpl in *.
        injection H1 as <-. injection H2 as <-. injection H3 as <-.
        injection H4 as <-. injection H5 as <-. injection H6 as <-.
        unfold same_bins, blidx_of, jointidx_of; simpl.
        split; [reflexivity|].
        split; [apply astype_in_range; assumption|].
        split; [apply astype_in_range; assumption|].
        split; [apply astype_in_range; assumption|].
        split; [apply astype_in_range; assumption|].
        split; apply astype_in_range; assumption.
Qed.

(** The sample dataset with the notebook's configuration, and the rounded
    product for the square. *)
Lemma calc_binned_stats_revisions_agree_witness :
  exists old new,
    Earlier.calc_binned_stats Notebook.BINPARAMS (fun x => PrimFloat.mul x x)
                              Sample.data Notebook.BINPARAMS
                              Notebook.PRTHRESH = Ok old /\
    calc_binned_stats Notebook.PRTHRESH Sample.data Notebook.BINPARAMS
                      Notebook.PRTHRESH = Ok new /\
    Earlier.shared (Earlier.data_vars old) = data_vars new /\
    Earlier.coord_bl old = coord_bl new /\
    Earlier.coord_cape old = coord_cape new /\
    Earlier.coord_subsat old = coord_subsat new.
Proof.
  apply (calc_binned_stats_revisions_agree float binary64 Notebook.BINPARAMS
           Notebook.PRTHRESH (fun x => PrimFloat.mul x x) Sample.data);
    try (split; [reflexivity|]; repeat constructor);
    vm_compute; discriminate.
Defined.

(* ================================================================== *)
(** * More on rounding of rationals *)

Lemma Qfloor_unique (x : Q) (z : Z) :
  (inject_Z z <= x)%Q -> (x < inject_Z z + 1)%Q -> Qfloor x = z.
Proof.
  intros H1 H2.
  pose proof (Qfloor_le x) as H3. pose proof (Qlt_floor x) as H4.
  assert (A1 : (inject_Z z < inject_Z (Qfloor x + 1))%Q)
    by (eapply Qle_lt_trans; eauto).
  assert (A2 : (inject_Z (Qfloor x) < inject_Z (z + 1))%Q).
  { eapply Qle_lt_trans; [exact H3|]. now rewrite inject_Z_plus. }
  rewrite <- Zlt_Qlt in A1, A2. lia.
Qed.

(** Truncation of a value in [[z, z + 1)], for [z >= 0]. *)
Lemma Qtrunc_unique (x : Q) (z : Z) :
  (0 <= z)%Z -> (inject_Z z <= x)%Q -> (x < inject_Z z + 1)%Q -> Qtrunc x = z.
Proof.
  intros Hz H1 H2. rewrite Qtrunc_nonneg.
  - now apply Qfloor_unique.
  - eapply Qle_trans; [|exact H1].
    change 0%Q with (inject_Z 0). now rewrite <- Zle_Qle.
Qed.

(* ================================================================== *)
(** * Edges and bins *)

(** X12.  From an edge back to its index.  In exact arithmetic, for
    [width > 0] and at most 2^31 edges, the value of edge [i] has 1-D index
    [i], and the value of edge [i + 1] has 2-D index [i]: a cell of [Q0] is
    labelled with the value at its centre, a cell of [P0] with the value one
    width below.  In binary64 the same holds for every edge of the notebook's
    three specifications. *)
Theorem edges_index_round_trip :
  (forall (key : varkey) (binparams : binparams Q),
     let b := bp_get binparams key in
     let edges := get_bin_edges (A:=exact) key binparams in
     (0 < bin_width b)%Q -> (Z.of_nat (length edges) <= 2 ^ 31)%Z ->
     (forall i, i < length edges -> blidx_of b (nth i edges 0%Q) = Z.of_nat i) /\
     (forall i, S i < length edges ->
        jointidx_of b (nth (S i) edges 0%Q) = Z.of_nat i)) /\
  map (blidx_of (A:=binary64) (bp_bl Notebook.BINPARAMS))
      (get_bin_edges bl Notebook.BINPARAMS) = map Z.of_nat (seq 0 281) /\
  map (jointidx_of (A:=binary64) (bp_cape Notebook.BINPARAMS))
      (get_bin_edges cape Notebook.BINPARAMS) = 0%Z :: map Z.of_nat (seq 0 90) /\
  map (jointidx_of (A:=binary64) (bp_subsat Notebook.BINPARAMS))
      (get_bin_edges subsat Notebook.BINPARAMS) = 0%Z :: map Z.of_nat (seq 0 90).
Proof.
  split; [|repeat split; vm_compute; reflexivity].
  intros key binparams b edges Hw Hn.
  assert (N : forall i, i < length edges ->
                (nth i edges 0 == bin_min b + inject_Z (Z.of_nat i) * bin_width b)%Q)
    by (intros i Hi; now apply np_arange_exact_nth).
  assert (E5 : (2 ^ 31 = 2147483648)%Z) by reflexivity. rewrite E5 in Hn.
  assert (R : forall i, i < length edges ->
                (INT32_MIN <= Z.of_nat i <= INT32_MAX)%Z).
  { intros i Hi. assert (E1 : INT32_MIN = (-2147483648)%Z) by reflexivity.
    assert (E2 : INT32_MAX = 2147483647%Z) by reflexivity.
    rewrite E1, E2. lia. }
  assert (Q : forall i, i < length edges ->
                ((nth i edges 0 - bin_min b) / bin_width b == inject_Z (Z.of_nat i))%Q).
  { intros i Hi. rewrite (N i Hi). field.
    intros Z. rewrite Z in Hw. discriminate. }
  split.
  - intros i Hi. unfold blidx_of.
    assert (T : Qtrunc (fadd (fdiv (fsub (nth i edges 0%Q) (bin_min b)) (bin_width b))
                             fhalf) = Z.of_nat i).
    { apply Qtrunc_unique; [lia| |]; simpl; rewrite (Q i Hi); lra. }
    rewrite astype_int32_exact; rewrite T; [reflexivity|now apply R].
  - intros i Hi. unfold jointidx_of.
    assert (T : Qtrunc (fsub (fdiv (fsub (nth (S i) edges 0%Q) (bin_min b))
                                   (bin_width b)) fhalf) = Z.of_nat i).
    { apply Qtrunc_unique; [lia| |]; simpl; rewrite (Q (S i) Hi);
        rewrite Nat2Z.inj_succ; unfold Z.succ; rewrite inject_Z_plus;
        change (inject_Z 1) with 1%Q; lra. }
    rewrite astype_int32_exact; rewrite T; [reflexivity|apply R; lia].
Qed.

(** The last edge of the notebook's [cape] specification, read exactly. *)
Lemma edges_index_round_trip_witness :
  let edges := get_bin_edges (A:=exact) cape Notebook.BINPARAMS_exact in
  blidx_of (bp_cape Notebook.BINPARAMS_exact) (nth 90 edges 0%Q) = 90%Z /\
  jointidx_of (bp_cape Notebook.BINPARAMS_exact) (nth 90 edges 0%Q) = 89%Z.
Proof.
  destruct (proj1 edges_index_round_trip cape Notebook.BINPARAMS_exact) as [H1 H2];
    [reflexivity|vm_compute; discriminate|].
  split.
  - apply (H1 90). apply Nat.leb_le. reflexivity.
  - apply (H2 89). apply Nat.leb_le. reflexivity.
Defined.

(* ================================================================== *)
(** * The loops of the aggregator *)

Lemma dict_get_cases {V} (d : list (string * V)) (key : string) :
  (exists v, dict_get d key = Ok v) \/ dict_get d key = Err KeyError.
Proof.
  induction d as [|[k v] d IH]; simpl; auto.
  destruct (String.eqb k key); eauto.
Qed.

Section Aggregator.
Context {F : Type} {A : Arith F}.
Variable REGIONS : list (string * region F).
Variable BINPARAMS : binparams F.
Variable PRTHRESH : F.
Variable ds : dataset F.
Variable months : list Z.

(** The bodies of the two loops of [process_by_subregion]. *)
Local Abbreviation month_body regiondata :=
  (fun month =>
     monthstats <- calc_binned_stats PRTHRESH (sel_month regiondata month)
                                     BINPARAMS PRTHRESH ;;
     Ok (month, monthstats)).

Local Abbreviation region_body :=
  (fun region =>
     regiondata <- get_region ds region REGIONS ;;
     monthstatslist <- mapM (month_body regiondata) months ;;
     regionstats <- xr_concat monthstatslist ;;
     Ok (region, regionstats)).

Lemma month_loop (data : dataset F) (l : list Z) :
  aligned data ->
  exists recs,
    mapM (month_body data) l = Ok recs /\ map fst recs = l /\
    (forall m month, nth_error l m = Some month ->
       exists rec, nth_error recs m = Some (month, rec) /\
         calc_binned_stats PRTHRESH (sel_month data month) BINPARAMS PRTHRESH = Ok rec).
Proof.
  intros Hd. induction l as [|month l (recs & E & Hf & Hn)]; simpl.
  - exists []. repeat split; auto. intros [|m] month H; discriminate.
  - destruct (calc_binned_stats_ok PRTHRESH (sel_month data month) BINPARAMS PRTHRESH
                (aligned_sel_month data month Hd)) as [rec Hrec].
    exists ((month, rec) :: recs). rewrite Hrec, E. simpl.
    split; [reflexivity|]. split; [now rewrite Hf|].
    intros [|m] month' H; simpl in *.
    + inversion H; subst. eauto.
    + now apply Hn.
Qed.

Lemma region_body_ok (key : string) (reg : region F) :
  aligned ds -> months <> [] -> dict_get REGIONS key = Ok reg ->
  exists recs,
    region_body key = Ok (key, recs) /\ map fst recs = months /\
    (forall m month, nth_error months m = Some month ->
       exists rec, nth_error recs m = Some (month, rec) /\
         calc_binned_stats PRTHRESH (sel_month (sel_box ds reg) month)
                           BINPARAMS PRTHRESH = Ok rec).
Proof.
  intros Hal Hm Hget.
  destruct (month_loop (sel_box ds reg) months (aligned_sel_box ds reg Hal))
    as (recs & E & Hf & Hn).
  exists recs. unfold get_region. rewrite Hget. simpl. rewrite E. simpl.
  destruct recs as [|r recs]; [simpl in Hf; congruence|]. auto.
Qed.

Lemma region_loop (keys : list string) :
  aligned ds -> months <> [] ->
  (forall key, In key keys -> exists reg, dict_get REGIONS key = Ok reg) ->
  exists product,
    mapM region_body keys = Ok product /\ map fst product = keys /\
    (forall r key, nth_error keys r = Some key ->
       exists reg recs,
         dict_get REGIONS key = Ok reg /\ nth_error product r = Some (key, recs) /\
         map fst recs = months /\
         (forall m month, nth_error months m = Some month ->
            exists rec, nth_error recs m = Some (month, rec) /\
              calc_binned_stats PRTHRESH (sel_month (sel_box ds reg) month)
                                BINPARAMS PRTHRESH = Ok rec)).
Proof.
  intros Hal Hm. induction keys as [|key keys IH]; intros Hk.
  - exists []. repeat split; auto. intros [|r] key H; discriminate.
  - destruct (Hk key (or_introl eq_refl)) as [reg Hget].
    destruct (region_body_ok key reg Hal Hm Hget) as (recs & E & Hf & Hn).
    destruct IH as (product & E' & Hf' & Hn'); [intros k Hin; apply Hk; now right|].
    exists ((key, recs) :: product).
    cbn [mapM]. rewrite E. cbn [bind]. rewrite E'. cbn [bind].
    split; [reflexivity|]. split; [simpl; now rewrite Hf'|].
    intros [|r] key' H; simpl in H.
    + inversion H; subst. exists reg, recs. auto.
    + now apply Hn'.
Qed.

Lemma region_loop_missing (keys : list string) :
  aligned ds -> months <> [] ->
  (exists key, In key keys /\ dict_get REGIONS key = Err KeyError) ->
  mapM region_body keys = Err KeyError.
Proof.
  intros Hal Hm. induction keys as [|key keys IH]; intros (k & Hin & Hk).
  - destruct Hin.
  - cbn [mapM].
    destruct (dict_get_cases REGIONS key) as [[reg Hget]|Hget].
    + destruct (region_body_ok key reg Hal Hm Hget) as (recs & E & _).
      rewrite E. cbn [bind].
      rewrite IH; [reflexivity|].
      destruct Hin as [->|Hin]; [congruence|eauto].
    + unfold get_region. rewrite Hget. reflexivity.
Qed.
End Aggregator.

(** X13.  The aggregator takes the region keys from its argument [regions]
    and the boxes from the global [REGIONS].  For a month list that is not
    empty, an aligned dataset and an argument that is not empty and whose keys
    are all keys of [REGIONS], it runs to the end; the result has one entry
    per key of the argument, in order; the records of an entry are the
    builder's on the box the global gives for the key, month by month; and
    another argument with the same keys, whatever its boxes, gives the same
    result. *)
Theorem process_by_subregion_reads_global_regions :
  forall (F : Type) (A : Arith F) (REGIONS : list (string * region F))
         (BINPARAMS : binparams F) (PRTHRESH : F) (ds : dataset F)
         (months : list Z) (regions : list (string * region F)),
    regions <> [] -> months <> [] -> aligned ds ->
    (forall key, In key (map fst regions) -> exists reg, dict_get REGIONS key = Ok reg) ->
    exists product,
      process_by_subregion REGIONS BINPARAMS PRTHRESH ds months regions = Ok product /\
      map fst product = map fst regions /\
      (forall r key box, nth_error regions r = Some (key, box) ->
         exists reg recs,
           dict_get REGIONS key = Ok reg /\ nth_error product r = Some (key, recs) /\
           map fst recs = months /\
           (forall m month, nth_error months m = Some month ->
              exists rec, nth_error recs m = Some (month, rec) /\
                calc_binned_stats PRTHRESH (sel_month (sel_box ds reg) month)
                                  BINPARAMS PRTHRESH = Ok rec)) /\
      (forall regions', map fst regions' = map fst regions ->
         process_by_subregion REGIONS BINPARAMS PRTHRESH ds months regions'
         = Ok product).
Proof.
  intros F A REGIONS BINPARAMS PRTHRESH ds months regions Hr Hm Hal Hk.
  destruct (region_loop REGIONS BINPARAMS PRTHRESH ds months (map fst regions)
              Hal Hm Hk) as (product & E & Hf & Hn).
  assert (P : forall regions', map fst regions' = map fst regions ->
                process_by_subregion REGIONS BINPARAMS PRTHRESH ds months regions'
                = Ok product).
  { intros regions' Hsame. unfold process_by_subregion. rewrite Hsame, E. simpl.
    destruct product; [|reflexivity].
    destruct regions; [contradiction|discriminate]. }
  exists product. split; [now apply P|]. split; [exact Hf|]. split; [|exact P].
  intros r key box H. apply (Hn r key).
  rewrite nth_error_map, H. reflexivity.
Qed.

(** The argument names two regions of the notebook, with boxes of its own:
    the statistics are those of the notebook's boxes. *)
Lemma process_by_subregion_reads_global_regions_witness :
  let elsewhere := {| latmin := 0%float; latmax := 1%float;
                      lonmin := 0%float; lonmax := 1%float |} in
  let regions := [("Central India"%string, elsewhere);
                  ("Eastern Arabian Sea"%string, elsewhere)] in
  exists product recs rec,
    process_by_subregion Notebook.REGIONS Notebook.BINPARAMS Notebook.PRTHRESH
                         Sample.data Notebook.MONTHS regions = Ok product /\
    nth_error product 1 = Some ("Eastern Arabian Sea"%string, recs) /\
    nth_error recs 0 = Some (6%Z, rec) /\
    calc_binned_stats Notebook.PRTHRESH
      (sel_month (sel_box Sample.data
                    {| latmin := 9%float; latmax := 19.5%float;
                       lonmin := 64%float; lonmax := 72%float |}) 6)
      Notebook.BINPARAMS Notebook.PRTHRESH = Ok rec.
Proof.
  intros elsewhere regions.
  destruct (process_by_subregion_reads_global_regions float binary64
              Notebook.REGIONS Notebook.BINPARAMS Notebook.PRTHRESH Sample.data
              Notebook.MONTHS regions) as (product & E & _ & Hn & _).
  - discriminate.
  - discriminate.
  - repeat split; repeat constructor.
  - intros key [<-|[<-|[]]]; eexists; reflexivity.
  - destruct (Hn 1 "Eastern Arabian Sea"%string elsewhere eq_refl)
      as (reg & recs & Hget & Hp & _ & Hm).
    injection Hget as <-.
    destruct (Hm 0 6%Z eq_refl) as (rec & Hr & Hc).
    exists product, recs, rec. auto.
Defined.

(** X14.  A key of the argument [regions] that is no key of the global
    [REGIONS] stops the aggregator with [KeyError] (for a month list that is
    not empty and an aligned dataset). *)
Theorem process_by_subregion_unknown_region :
  forall (F : Type) (A : Arith F) (REGIONS : list (string * region F))
         (BINPARAMS : binparams F) (PRTHRESH : F) (ds : dataset F)
         (months : list Z) (regions : list (string * region F)),
    months <> [] -> aligned ds ->
    (exists key, In key (map fst regions) /\ dict_get REGIONS key = Err KeyError) ->
    process_by_subregion REGIONS BINPARAMS PRTHRESH ds months regions = Err KeyError.
Proof.
  intros F A REGIONS BINPARAMS PRTHRESH ds months regions Hm Hal Hk.
  unfold process_by_subregion.
  now rewrite (region_loop_missing REGIONS BINPARAMS PRTHRESH ds months
                 (map fst regions) Hal Hm Hk).
Qed.

(** A region the notebook does not configure. *)
Lemma process_by_subregion_unknown_region_witness :
  process_by_subregion Notebook.REGIONS Notebook.BINPARAMS Notebook.PRTHRESH
    Sample.data Notebook.MONTHS
    [("Central India"%string,
      {| latmin := 18%float; latmax := 24%float; lonmin := 76%float; lonmax := 83%float |});
     ("Western Ghats"%string,
      {| latmin := 8%float; latmax := 20%float; lonmin := 73%float; lonmax := 77%float |})]
  = Err KeyError.
Proof.
  apply (process_by_subregion_unknown_region float binary64).
  - discriminate.
  - repeat split; repeat constructor.
  - exists "Western Ghats"%string. split; [simpl; auto|reflexivity].
Defined.

(** X15.  Empty lists stop the aggregator with [ValueError], the error of
    [xr.concat] on no dataset: an empty [regions], whatever the months; and an
    empty month list, as soon as the first region is looked up. *)
Theorem process_by_subregion_empty_lists :
  forall (F : Type) (A : Arith F) (REGIONS : list (string * region F))
         (BINPARAMS : binparams F) (PRTHRESH : F) (ds : dataset F),
    (forall months,
       process_by_subregion REGIONS BINPARAMS PRTHRESH ds months [] = Err ValueError) /\
    (forall key box rest reg,
       dict_get REGIONS key = Ok reg ->
       process_by_subregion REGIONS BINPARAMS PRTHRESH ds [] ((key, box) :: rest)
       = Err ValueError).
Proof.
  intros F A REGIONS BINPARAMS PRTHRESH ds. split.
  - intros months. reflexivity.
  - intros key box rest reg Hget. unfold process_by_subregion, get_region.
    simpl. rewrite Hget. reflexivity.
Qed.

(** One region of the notebook and no month. *)
Lemma process_by_subregion_empty_lists_witness :
  process_by_subregion Notebook.REGIONS Notebook.BINPARAMS Notebook.PRTHRESH
    Sample.data []
    [("Central India"%string,
      {| latmin := 18%float; latmax := 24%float; lonmin := 76%float; lonmax := 83%float |})]
  = Err ValueError.
Proof.
  eapply (proj2 (process_by_subregion_empty_lists float binary64 Notebook.REGIONS
                   Notebook.BINPARAMS Notebook.PRTHRESH Sample.data)).
  reflexivity.
Defined.

(* ================================================================== *)
(** * Masks, again *)

Lemma select_nil {T} (mask : list bool) : select mask (@nil T) = [].
Proof. now destruct mask as [|[|] mask]. Qed.

Lemma select_map {X Y} (f : X -> Y) (mask : list bool) (l : list X) :
  select mask (map f l) = map f (select mask l).
Proof.
  revert l; induction mask as [|[|] mask IH]; intros [|x l]; simpl; auto.
  now rewrite IH.
Qed.

Lemma select_Forall {X} (p : X -> bool) (c : list X) :
  Forall (fun x => p x = true) (select (map p c) c).
Proof.
  induction c as [|x c IH]; simpl; auto.
  destruct (p x) eqn:E; auto.
Qed.

(** Masking twice with the mask of one predicate is masking once. *)
Lemma select_select {X T} (p : X -> bool) (c : list X) (l : list T) :
  select (map p (select (map p c) c)) (select (map p c) l) = select (map p c) l.
Proof.
  revert l; induction c as [|x c IH]; intros l; simpl.
  - reflexivity.
  - destruct l as [|y l].
    + rewrite !select_nil. reflexivity.
    + destruct (p x) eqn:E; simpl; rewrite ?E; [f_equal|]; apply IH.
Qed.

Lemma select_none {T} (mask : list bool) (l : list T) :
  Forall (fun b => b = false) mask -> select mask l = [].
Proof.
  intros H; revert l; induction H as [|b mask Hb _ IH]; intros [|x l]; simpl; auto.
  subst b. apply IH.
Qed.

(* ================================================================== *)
(** * Regions and months of a dataset *)

Section Subsets.
Context {F : Type} {A : Arith F}.

Lemma sel_box_idempotent (ds : dataset F) (r : region F) :
  sel_box (sel_box ds r) r = sel_box ds r.
Proof.
  unfold sel_box; simpl.
  set (inlat := fun y => fleb (latmin r) y && fleb y (latmax r)).
  set (inlon := fun x => fleb (lonmin r) x && fleb x (lonmax r)).
  assert (C : forall v : list (list (list F)),
    map (fun plane => map (select (map inlon (select (map inlon (lon ds)) (lon ds))))
                          (select (map inlat (select (map inlat (lat ds)) (lat ds))) plane))
        (map (fun plane => map (select (map inlon (lon ds)))
                               (select (map inlat (lat ds)) plane)) v)
    = map (fun plane => map (select (map inlon (lon ds)))
                            (select (map inlat (lat ds)) plane)) v).
  { intros v. rewrite map_map. apply map_ext. intros plane.
    rewrite select_map, select_select, map_map.
    apply map_ext. intros row. apply select_select. }
  rewrite !C, !select_select. reflexivity.
Qed.

Lemma sel_month_sel_box (ds : dataset F) (r : region F) (month : Z) :
  sel_month (sel_box ds r) month = sel_box (sel_month ds month) r.
Proof.
  unfold sel_month, sel_box; simpl.
  rewrite !select_map. reflexivity.
Qed.
End Subsets.

(** X16.  [get_region] with a key of the dict returns a dataset whose
    latitudes all lie in [[latmin, latmax]] and whose longitudes all lie in
    [[lonmin, lonmax]], ends included, with the time axis untouched; and
    selecting the same region again changes nothing. *)
Theorem get_region_inside_box :
  forall (F : Type) (A : Arith F) (ds : dataset F) (key : string)
         (regions : list (string * region F)) (reg : region F),
    dict_get regions key = Ok reg ->
    exists sub,
      get_region ds key regions = Ok sub /\
      Forall (fun y => fleb (latmin reg) y = true /\ fleb y (latmax reg) = true)
             (lat sub) /\
      Forall (fun x => fleb (lonmin reg) x = true /\ fleb x (lonmax reg) = true)
             (lon sub) /\
      time_month sub = time_month ds /\
      get_region sub key regions = Ok sub.
Proof.
  intros F A ds key regions reg Hget.
  exists (sel_box ds reg). unfold get_region. rewrite Hget. simpl.
  split; [reflexivity|]. split; [|split; [|split; [reflexivity|]]].
  - eapply Forall_impl;
      [|apply (select_Forall (fun y => fleb (latmin reg) y && fleb y (latmax reg)))].
    intros y H. now apply andb_prop in H.
  - eapply Forall_impl;
      [|apply (select_Forall (fun x => fleb (lonmin reg) x && fleb x (lonmax reg)))].
    intros x H. now apply andb_prop in H.
  - now rewrite sel_box_idempotent.
Qed.

(** Central India in the sample dataset: one latitude, one longitude. *)
Lemma get_region_inside_box_witness :
  exists sub,
    get_region Sample.data "Central India"%string Notebook.REGIONS = Ok sub /\
    lat sub = [20%float] /\ lon sub = [80%float] /\
    get_region sub "Central India"%string Notebook.REGIONS = Ok sub.
Proof.
  destruct (get_region_inside_box float binary64 Sample.data "Central India"%string
              Notebook.REGIONS
              {| latmin := 18%float; latmax := 24%float;
                 lonmin := 76%float; lonmax := 83%float |} eq_refl)
    as (sub & E & _ & _ & _ & I).
  exists sub. split; [exact E|].
  injection E as <-. split; [reflexivity|]. split; [reflexivity|exact I].
Defined.

(** X17.  The region and the month can be selected in either order: the
    month of the region, which the aggregator takes, is the region of the
    month; so the builder returns the same on both. *)
Theorem subsets_commute :
  forall (F : Type) (A : Arith F) (PRTHRESH : F) (ds : dataset F) (r : region F)
         (month : Z) (binparams : binparams F) (prthresh : F),
    sel_month (sel_box ds r) month = sel_box (sel_month ds month) r /\
    calc_binned_stats PRTHRESH (sel_month (sel_box ds r) month) binparams prthresh
    = calc_binned_stats PRTHRESH (sel_box (sel_month ds month) r) binparams prthresh.
Proof.
  intros F A PRTHRESH ds r month binparams prthresh.
  rewrite sel_month_sel_box. split; reflexivity.
Qed.

(* ================================================================== *)
(** * No data *)

Section NoData.
Context {F : Type} {A : Arith F}.
Variable PRTHRESH : F.

Lemma calc_binned_stats_zeros (data : dataset F) (binparams : binparams F)
    (prthresh : F) :
  aligned data -> flat3 (var_pr data) = [] ->
  calc_binned_stats PRTHRESH data binparams prthresh
  = Ok {| data_vars := init_stats (length (get_bin_edges bl binparams))
                                  (length (get_bin_edges cape binparams))
                                  (length (get_bin_edges subsat binparams));
          coord_bl := get_bin_edges bl binparams;
          coord_cape := get_bin_edges cape binparams;
          coord_subsat := get_bin_edges subsat binparams |}.
Proof.
  intros Hal Hpr. rewrite calc_binned_stats_run by assumption.
  rewrite Hpr. unfold points.
  destruct (map _ (flat3 (var_bl data))), (map _ (flat3 (var_cape data))),
    (map _ (flat3 (var_subsat data))); reflexivity.
Qed.

Lemma sel_month_absent (ds : dataset F) (month : Z) :
  ~ In month (time_month ds) -> var_pr (sel_month ds month) = [].
Proof.
  intros H. unfold sel_month; simpl. apply select_none.
  apply Forall_map, Forall_forall. intros m Hm.
  apply Z.eqb_neq. intros ->. contradiction.
Qed.

Lemma sel_box_outside (ds : dataset F) (r : region F) :
  Forall (fun y => fleb (latmin r) y && fleb y (latmax r) = false) (lat ds) ->
  flat3 (var_pr (sel_box ds r)) = [].
Proof.
  intros H. unfold sel_box; simpl. unfold flat3.
  assert (E : forall plane : list (list F),
             select (map (fun y => fleb (latmin r) y && fleb y (latmax r)) (lat ds)) plane
             = []).
  { intros plane. apply select_none. now apply Forall_map. }
  induction (var_pr ds) as [|plane v IH]; simpl; auto.
  rewrite E. simpl. exact IH.
Qed.
End NoData.

(** X18.  No data is no error.  On an aligned dataset, a month that no time
    stamp has, and a region whose latitude band holds no latitude of the grid,
    both give the record with the full coordinates and zero in every cell of
    the six accumulators. *)
Theorem calc_binned_stats_no_data :
  forall (F : Type) (A : Arith F) (PRTHRESH : F) (ds : dataset F)
         (binparams : binparams F) (prthresh : F),
    aligned ds ->
    let zero := {| data_vars := init_stats (length (get_bin_edges bl binparams))
                                           (length (get_bin_edges cape binparams))
                                           (length (get_bin_edges subsat binparams));
                   coord_bl := get_bin_edges bl binparams;
                   coord_cape := get_bin_edges cape binparams;
                   coord_subsat := get_bin_edges subsat binparams |} in
    (forall month, ~ In month (time_month ds) ->
       calc_binned_stats PRTHRESH (sel_month ds month) binparams prthresh = Ok zero) /\
    (forall r, Forall (fun y => fleb (latmin r) y && fleb y (latmax r) = false) (lat ds) ->
       calc_binned_stats PRTHRESH (sel_box ds r) binparams prthresh = Ok zero).
Proof.
  intros F A PRTHRESH ds binparams prthresh Hal zero. split.
  - intros month H. apply calc_binned_stats_zeros.
    + now apply aligned_sel_month.
    + now rewrite (sel_month_absent ds month H).
  - intros r H. apply calc_binned_stats_zeros.
    + now apply aligned_sel_box.
    + now apply sel_box_outside.
Qed.

(** September in the sample dataset, which has June to August. *)
Lemma calc_binned_stats_no_data_witness :
  exists rec,
    calc_binned_stats Notebook.PRTHRESH (sel_month Sample.data 9)
                      Notebook.BINPARAMS Notebook.PRTHRESH = Ok rec /\
    Zsum (Q0 (data_vars rec)) = 0%Z /\ length (Q0 (data_vars rec)) = 281.
Proof.
  eexists. split.
  - apply (calc_binned_stats_no_data float binary64 Notebook.PRTHRESH Sample.data
             Notebook.BINPARAMS Notebook.PRTHRESH).
    + repeat split; repeat constructor.
    + simpl. intuition discriminate.
  - split; vm_compute; reflexivity.
Defined.

(* ================================================================== *)
(** * Bins without points *)

(** X19.  A bin that counted no point holds no sum and no exceedance: when
    [Q0[i]] is 0, [Q1[i]] is the [0.0] it was created with and [QE[i]] is 0;
    and likewise for a 2-D cell. *)
Theorem fast_binned_stats_empty_bins :
  forall (F : Type) (A : Arith F) blidxs capeidxs subsatidxs (prdata : list F)
         nblbins ncapebins nsubsatbins prthresh,
    length blidxs = length prdata -> length capeidxs = length prdata ->
    length subsatidxs = length prdata ->
    exists r,
      fast_binned_stats blidxs capeidxs subsatidxs prdata
                        nblbins ncapebins nsubsatbins prthresh = Ok r /\
      (forall i, i < nblbins -> nth i (Q0 r) 0%Z = 0%Z ->
         nth i (Q1 r) fzero = fzero /\ nth i (QE r) 0%Z = 0%Z) /\
      (forall a b, a < nsubsatbins -> b < ncapebins ->
         nth b (nth a (P0 r) []) 0%Z = 0%Z ->
         nth b (nth a (P1 r) []) fzero = fzero /\ nth b (nth a (PE r) []) 0%Z = 0%Z).
Proof.
  intros F A blidxs capeidxs subsatidxs prdata nblbins ncapebins nsubsatbins
         prthresh L1 L2 L3.
  set (pts := points blidxs capeidxs subsatidxs prdata).
  assert (Z0 : forall (f g : point F -> bool),
             count f pts = 0%Z ->
             filter f pts = [] /\ count (fun p => f p && g p) pts = 0%Z).
  { intros f g H. unfold count in H.
    assert (E : filter f pts = [])
      by (destruct (filter f pts); [reflexivity|simpl in H; lia]).
    split; [exact E|].
    pose proof (count_le f g pts) as Hle. unfold count in *. rewrite E in Hle.
    simpl in Hle. lia. }
  eexists. split; [now apply fast_binned_stats_run|]. fold pts. split.
  - intros i Hi.
    destruct (run_cells1 nblbins ncapebins nsubsatbins prthresh pts _ Hi)
      as (-> & -> & ->).
    intros H. destruct (Z0 (in_bin i) (exceeds prthresh) H) as [-> ->]. auto.
  - intros a b Ha Hb.
    destruct (run_cells2 nblbins ncapebins nsubsatbins prthresh pts _ _ Ha Hb)
      as (-> & -> & ->).
    intros H. destruct (Z0 (in_cell a b) (exceeds prthresh) H) as [-> ->]. auto.
Qed.

(** Bin 1 of three points in binary64, none of which falls in it. *)
Lemma fast_binned_stats_empty_bins_witness :
  exists r,
    fast_binned_stats (A:=binary64) [0; 0; 5]%Z [0; 0; 1]%Z [1; 1; 0]%Z
                      [0.5; nan; 3]%float 2 2 2 0.25%float = Ok r /\
    nth 1 (Q1 r) 0%float = 0%float /\ nth 1 (QE r) 0%Z = 0%Z.
Proof.
  destruct (fast_binned_stats_empty_bins float binary64
              [0; 0; 5]%Z [0; 0; 1]%Z [1; 1; 0]%Z [0.5; nan; 3]%float 2 2 2 0.25%float
              eq_refl eq_refl eq_refl) as (r & E & H1 & _).
  exists r. split; [exact E|].
  apply (H1 1 (Nat.lt_succ_diag_r 1)).
  injection E as <-. reflexivity.
Defined.

(* ================================================================== *)
(** * The months of a dataset partition it *)

Lemma concat_concat' {T} (a : list (list (list T))) :
  concat (concat a) = concat (map (@concat T) a).
Proof.
  induction a as [|p a IH]; simpl; auto.
  now rewrite concat_app, IH.
Qed.

Lemma zip4_select {X1 X2 X3 X4 Y} (f : X1 -> X2 -> X3 -> X4 -> Y)
    (mask : list bool) l1 l2 l3 l4 :
  length l1 = length l4 -> length l2 = length l4 -> length l3 = length l4 ->
  zip4 f (select mask l1) (select mask l2) (select mask l3) (select mask l4)
  = select mask (zip4 f l1 l2 l3 l4).
Proof.
  revert l1 l2 l3 l4.
  induction mask as [|m mask IH]; intros [|x1 l1] [|x2 l2] [|x3 l3] [|x4 l4] L1 L2 L3;
    simpl in *; try discriminate; auto.
  destruct m; simpl; rewrite IH by congruence; reflexivity.
Qed.

Lemma shape3_select {T} (mask : list bool) (tm : list Z)
    (a : list (list (list T))) nlat nlon :
  shape3 a (length tm) nlat nlon ->
  shape3 (select mask a) (length (select mask tm)) nlat nlon.
Proof.
  intros [L Fa]. split.
  - now apply length_select.
  - clear L. revert mask. induction Fa as [|p a Hp _ IH]; intros [|[|] mask];
      simpl; auto.
Qed.

Lemma mapM_map {X Y} (f : X -> result Y) (g : X -> Y) (l : list X) :
  (forall x, In x l -> f x = Ok (g x)) -> mapM f l = Ok (map g l).
Proof.
  induction l as [|x l IH]; intros H; simpl; auto.
  rewrite (H x (or_introl eq_refl)), IH by (intros; apply H; now right).
  reflexivity.
Qed.

Lemma Zsum_map_add {X} (f g : X -> Z) (l : list X) :
  Zsum (map (fun x => (f x + g x)%Z) l) = (Zsum (map f l) + Zsum (map g l))%Z.
Proof.
  induction l as [|x l IH]; simpl map; rewrite ?Zsum_cons; [reflexivity|].
  rewrite IH. lia.
Qed.

(** One term of a sum over distinct months is picked by the month of a time
    stamp. *)
Lemma Zsum_pick (t : Z) (c : Z) (months : list Z) :
  NoDup months -> In t months ->
  Zsum (map (fun m => if (t =? m)%Z then c else 0%Z) months) = c.
Proof.
  induction 1 as [|m months Hm Hnd IH]; intros Hin; [destruct Hin|].
  simpl map. rewrite Zsum_cons.
  destruct (Z.eqb_spec t m) as [E|E].
  - subst m.
    assert (Z0 : Zsum (map (fun m => if (t =? m)%Z then c else 0%Z) months) = 0%Z).
    { clear IH Hnd Hin. induction months as [|m months IH]; [reflexivity|].
      simpl map. rewrite Zsum_cons.
      destruct (Z.eqb_spec t m) as [E|E]; [subst; exfalso; apply Hm; now left|].
      rewrite IH; [reflexivity|]. intros H. apply Hm. now right. }
    rewrite Z0. lia.
  - destruct Hin as [->|Hin]; [contradiction|]. rewrite IH by assumption. lia.
Qed.

Lemma count_months {T} (f : T -> bool) (months tm : list Z) (planes : list (list T)) :
  NoDup months -> (forall t, In t tm -> In t months) -> length planes = length tm ->
  Zsum (map (fun m => count f (concat (select (map (fun t => (t =? m)%Z) tm) planes)))
            months)
  = count f (concat planes).
Proof.
  intros Hnd. revert planes.
  induction tm as [|t tm IH]; intros [|P planes] Hin L; simpl in L; try discriminate.
  - simpl. clear. induction months as [|m months IH]; [reflexivity|].
    simpl map. rewrite Zsum_cons, IH. reflexivity.
  - simpl concat. rewrite count_app.
    rewrite <- (IH planes) by (auto; intros; apply Hin; now right).
    rewrite <- (Zsum_pick t (count f P) months Hnd (Hin t (or_introl eq_refl))).
    rewrite <- Zsum_map_add. f_equal. apply map_ext. intros m. simpl.
    destruct (t =? m)%Z; simpl; [apply count_app|reflexivity].
Qed.

Section Months.
Context {F : Type} {A : Arith F}.
Variable PRTHRESH : F.
Variable binparams : binparams F.

(** The points of a dataset, one list per time stamp. *)
Local Abbreviation planes data :=
  (map (@concat (point F))
       (points3 (map3 (blidx_of (bp_bl binparams)) (var_bl data))
                (map3 (jointidx_of (bp_cape binparams)) (var_cape data))
                (map3 (jointidx_of (bp_subsat binparams)) (var_subsat data))
                (var_pr data))).

Lemma dataset_points (data : dataset F) nlat nlon :
  shape3 (var_bl data) (length (time_month data)) nlat nlon ->
  shape3 (var_cape data) (length (time_month data)) nlat nlon ->
  shape3 (var_subsat data) (length (time_month data)) nlat nlon ->
  shape3 (var_pr data) (length (time_month data)) nlat nlon ->
  points (map (blidx_of (bp_bl binparams)) (flat3 (var_bl data)))
         (map (jointidx_of (bp_cape binparams)) (flat3 (var_cape data)))
         (map (jointidx_of (bp_subsat binparams)) (flat3 (var_subsat data)))
         (flat3 (var_pr data))
  = concat (planes data).
Proof.
  intros S1 S2 S3 S4.
  rewrite <- !flat3_map3.
  rewrite <- (flat3_points3 _ _ _ _ (length (time_month data)) nlat nlon)
    by (try apply shape3_map3; assumption).
  unfold flat3. apply concat_concat'.
Qed.

Lemma planes_sel_month (data : dataset F) (month : Z) nlat nlon :
  shape3 (var_bl data) (length (time_month data)) nlat nlon ->
  shape3 (var_cape data) (length (time_month data)) nlat nlon ->
  shape3 (var_subsat data) (length (time_month data)) nlat nlon ->
  shape3 (var_pr data) (length (time_month data)) nlat nlon ->
  planes (sel_month data month)
  = select (map (fun t => (t =? month)%Z) (time_month data)) (planes data).
Proof.
  intros [L1 _] [L2 _] [L3 _] [L4 _]. unfold sel_month; simpl.
  unfold map3. rewrite <- !select_map. unfold points3.
  rewrite zip4_select by (rewrite !length_map; congruence).
  symmetry. apply select_map.
Qed.
End Months.

(** X21.  The months partition the data.  On a dataset of shape
    [(len(time), nlat, nlon)] whose time stamps all fall in the months of the
    list, and for a list without repetition, the builder runs to the end on
    the dataset and on each of its months, and every cell of [Q0], [QE], [P0],
    [PE] of the whole is the sum of the cell over the monthly records: the
    loop over months loses no point and counts none twice. *)
Theorem monthly_counts_add_up :
  forall (F : Type) (A : Arith F) (PRTHRESH : F) (data : dataset F)
         (binparams : binparams F) (prthresh : F) (months : list Z) nlat nlon,
    shape3 (var_bl data) (length (time_month data)) nlat nlon ->
    shape3 (var_cape data) (length (time_month data)) nlat nlon ->
    shape3 (var_subsat data) (length (time_month data)) nlat nlon ->
    shape3 (var_pr data) (length (time_month data)) nlat nlon ->
    NoDup months -> (forall t, In t (time_month data) -> In t months) ->
    exists whole recs,
      calc_binned_stats PRTHRESH data binparams prthresh = Ok whole /\
      mapM (fun month => calc_binned_stats PRTHRESH (sel_month data month)
                                           binparams prthresh) months = Ok recs /\
      length recs = length months /\
      (forall i, i < length (get_bin_edges bl binparams) ->
         nth i (Q0 (data_vars whole)) 0%Z
           = Zsum (map (fun rec => nth i (Q0 (data_vars rec)) 0%Z) recs) /\
         nth i (QE (data_vars whole)) 0%Z
           = Zsum (map (fun rec => nth i (QE (data_vars rec)) 0%Z) recs)) /\
      (forall a b, a < length (get_bin_edges subsat binparams) ->
                   b < length (get_bin_edges cape binparams) ->
         nth b (nth a (P0 (data_vars whole)) []) 0%Z
           = Zsum (map (fun rec => nth b (nth a (P0 (data_vars rec)) []) 0%Z) recs) /\
         nth b (nth a (PE (data_vars whole)) []) 0%Z
           = Zsum (map (fun rec => nth b (nth a (PE (data_vars rec)) []) 0%Z) recs)).
Proof.
  intros F A PRTHRESH data binparams prthresh months nlat nlon S1 S2 S3 S4 Hnd Hin.
  set (nbl := length (get_bin_edges bl binparams)).
  set (ncape := length (get_bin_edges cape binparams)).
  set (nsubsat := length (get_bin_edges subsat binparams)).
  pose (pl := fun d : dataset F =>
          map (@concat (point F))
              (points3 (map3 (blidx_of (bp_bl binparams)) (var_bl d))
                       (map3 (jointidx_of (bp_cape binparams)) (var_cape d))
                       (map3 (jointidx_of (bp_subsat binparams)) (var_subsat d))
                       (var_pr d))).
  pose (rec_of := fun d : dataset F =>
          {| data_vars := run nbl ncape nsubsat PRTHRESH (concat (pl d));
             coord_bl := get_bin_edges bl binparams;
             coord_cape := get_bin_edges cape binparams;
             coord_subsat := get_bin_edges subsat binparams |}).
  assert (R : forall d,
             shape3 (var_bl d) (length (time_month d)) nlat nlon ->
             shape3 (var_cape d) (length (time_month d)) nlat nlon ->
             shape3 (var_subsat d) (length (time_month d)) nlat nlon ->
             shape3 (var_pr d) (length (time_month d)) nlat nlon ->
             calc_binned_stats PRTHRESH d binparams prthresh = Ok (rec_of d)).
  { intros d T1 T2 T3 T4.
    rewrite calc_binned_stats_run
      by (repeat split; eapply shape3_same_shape3; eassumption).
    unfold rec_of, pl. now rewrite (dataset_points binparams d nlat nlon). }
  assert (Rm : forall month,
             calc_binned_stats PRTHRESH (sel_month data month) binparams prthresh
             = Ok (rec_of (sel_month data month))).
  { intros month. apply R; unfold sel_month; simpl; now apply shape3_select. }
  exists (rec_of data), (map (fun month => rec_of (sel_month data month)) months).
  split; [now apply R|].
  split; [apply mapM_map; intros month _; apply Rm|].
  split; [apply length_map|].
  assert (Lp : length (pl data) = length (time_month data)).
  { unfold pl, points3. rewrite length_map, length_zip4;
      unfold map3; rewrite ?length_map;
      destruct S1 as [L1 _], S2 as [L2 _], S3 as [L3 _], S4 as [L4 _]; congruence. }
  assert (Pm : forall month,
             pl (sel_month data month)
             = select (map (fun t => (t =? month)%Z) (time_month data)) (pl data))
    by (intros month; now apply (planes_sel_month binparams data month nlat nlon)).
  assert (C : forall f : point F -> bool,
             count f (concat (pl data))
             = Zsum (map (fun rec => count f (concat (pl rec)))
                         (map (sel_month data) months))).
  { intros f. rewrite map_map.
    rewrite <- (count_months f months (time_month data) (pl data) Hnd Hin Lp).
    f_equal. apply map_ext. intros month. now rewrite Pm. }
  split.
  - intros i Hi. rewrite !map_map. cbn [data_vars rec_of].
    destruct (run_cells1 nbl ncape nsubsat PRTHRESH (concat (pl data)) _ Hi)
      as (-> & _ & ->).
    rewrite !C, !map_map. split; f_equal; apply map_ext; intros month;
      destruct (run_cells1 nbl ncape nsubsat PRTHRESH
                  (concat (pl (sel_month data month))) _ Hi) as (E0 & _ & EE);
      symmetry; assumption.
  - intros a b Ha Hb. rewrite !map_map. cbn [data_vars rec_of].
    destruct (run_cells2 nbl ncape nsubsat PRTHRESH (concat (pl data)) _ _ Ha Hb)
      as (-> & _ & ->).
    rewrite !C, !map_map. split; f_equal; apply map_ext; intros month;
      destruct (run_cells2 nbl ncape nsubsat PRTHRESH
                  (concat (pl (sel_month data month))) _ _ Ha Hb) as (E0 & _ & EE);
      symmetry; assumption.
Qed.

(** The sample dataset and the months of the notebook. *)
Lemma monthly_counts_add_up_witness :
  exists whole recs,
    calc_binned_stats Notebook.PRTHRESH Sample.data Notebook.BINPARAMS
                      Notebook.PRTHRESH = Ok whole /\
    mapM (fun month => calc_binned_stats Notebook.PRTHRESH (sel_month Sample.data month)
                                         Notebook.BINPARAMS Notebook.PRTHRESH)
         Notebook.MONTHS = Ok recs /\
    length recs = 3 /\
    nth 120 (Q0 (data_vars whole)) 0%Z
    = Zsum (map (fun rec => nth 120 (Q0 (data_vars rec)) 0%Z) recs).
Proof.
  destruct (monthly_counts_add_up float binary64 Notebook.PRTHRESH Sample.data
              Notebook.BINPARAMS Notebook.PRTHRESH Notebook.MONTHS 2 2)
    as (whole & recs & E1 & E2 & L & H1 & _);
    try (split; [reflexivity|]; repeat constructor).
  - repeat constructor; simpl; intuition discriminate.
  - simpl. intuition.
  - exists whole, recs. split; [exact E1|]. split; [exact E2|]. split; [exact L|].
    apply H1. vm_compute. lia.
Defined.

(* ================================================================== *)
(** * Comparisons *)

Lemma comparison_laws_Q : comparison_laws (A:=exact).
Proof.
  unfold comparison_laws. cbn [fltb fleb exact]. unfold Qltb. split; [|split].
  - intros x y z H1 H2. apply negb_true_iff in H1, H2. apply negb_true_iff.
    destruct (Qle_bool z x) eqn:E; [|reflexivity].
    apply Qle_bool_iff in E.
    destruct (Qlt_le_dec x y) as [L|L]; [|apply Qle_bool_iff in L; congruence].
    assert (H : Qle_bool z y = true).
    { apply Qle_bool_iff. apply Qlt_le_weak. eapply Qle_lt_trans; eauto. }
    congruence.
  - intros x y H. now rewrite H.
  - intros x y _ _ H. now apply negb_false_iff in H.
Qed.

Lemma SFltb_trans (a b c : spec_float) :
  SFltb a b = true -> SFltb b c = true -> SFltb a c = true.
Proof.
  unfold SFltb, SFcompare.
  destruct a as [sa|sa| |sa ma ea], b as [sb|sb| |sb mb eb], c as [sc|sc| |sc mc ec];
    try discriminate;
    try (destruct sa); try (destruct sb); try (destruct sc);
    try discriminate; try reflexivity.
  all: rewrite !Pos.compare_cont_spec; cbv [Pos.switch_Eq].
  all: destruct (Z.compare_spec ea eb) as [E1|E1|E1];
    destruct (Z.compare_spec eb ec) as [E2|E2|E2];
    destruct (Z.compare_spec ea ec) as [E3|E3|E3];
    try discriminate; try reflexivity; try (exfalso; lia).
  all: destruct (Pos.compare_spec ma mb) as [P1|P1|P1];
    destruct (Pos.compare_spec mb mc) as [P2|P2|P2];
    destruct (Pos.compare_spec ma mc) as [P3|P3|P3];
    simpl; try discriminate; try reflexivity; try (exfalso; lia).
Qed.

Lemma SFleb_not_ltb (a b : spec_float) : SFleb a b = true -> SFltb b a = false.
Proof.
  unfold SFleb, SFltb, SFcompare.
  destruct a as [sa|sa| |sa ma ea], b as [sb|sb| |sb mb eb];
    try discriminate; try reflexivity;
    try (destruct sa); try (destruct sb);
    try discriminate; try reflexivity.
  all: rewrite !Pos.compare_cont_spec; cbv [Pos.switch_Eq].
  all: destruct (Z.compare_spec ea eb) as [E1|E1|E1];
    destruct (Z.compare_spec eb ea) as [E2|E2|E2];
    try discriminate; try reflexivity; try (exfalso; lia).
  all: destruct (Pos.compare_spec ma mb) as [P1|P1|P1];
    destruct (Pos.compare_spec mb ma) as [P2|P2|P2];
    simpl; try discriminate; try reflexivity; try (exfalso; lia).
Qed.

Lemma SFltb_total (a b : spec_float) :
  SFleb a a = true -> SFleb b b = true -> SFltb a b = false -> SFleb b a = true.
Proof.
  unfold SFleb, SFltb, SFcompare.
  destruct a as [sa|sa| |sa ma ea], b as [sb|sb| |sb mb eb];
    try discriminate; try reflexivity;
    try (destruct sa); try (destruct sb);
    try discriminate; try reflexivity.
  all: rewrite !Pos.compare_cont_spec; cbv [Pos.switch_Eq].
  all: destruct (Z.compare_spec ea eb) as [E1|E1|E1];
    destruct (Z.compare_spec eb ea) as [E2|E2|E2];
    try discriminate; try reflexivity; try (exfalso; lia).
  all: destruct (Pos.compare_spec ma mb) as [P1|P1|P1];
    destruct (Pos.compare_spec mb ma) as [P2|P2|P2];
    simpl; try discriminate; try reflexivity; try (exfalso; lia).
  all: intros; try discriminate; try reflexivity.
Qed.

Lemma comparison_laws_binary64 : comparison_laws (A:=binary64).
Proof.
  unfold comparison_laws. cbn [fltb fleb binary64]. split; [|split].
  - intros x y z. rewrite !ltb_spec. apply SFltb_trans.
  - intros x y. rewrite leb_spec, ltb_spec. apply SFleb_not_ltb.
  - intros x y. rewrite !leb_spec, ltb_spec. apply SFltb_total.
Qed.

(* ================================================================== *)
(** * Pressure levels around a pressure *)

Section Levels.
Context {F : Type} {A : Arith F}.
Hypothesis Laws : comparison_laws.

Lemma ascending_tail (x : F) (t : list F) :
  ascending (x :: t) = true -> ascending t = true.
Proof.
  destruct t as [|y t]; [reflexivity|]. simpl. intros H.
  apply andb_prop in H. tauto.
Qed.

Lemma ascending_head (x : F) (t : list F) :
  ascending (x :: t) = true -> Forall (fun y => fltb x y = true) t.
Proof.
  destruct Laws as (T & _ & _).
  revert x; induction t as [|y t IH]; intros x H; [constructor|].
  simpl in H. apply andb_prop in H. destruct H as [Hxy Ht].
  constructor; [exact Hxy|].
  eapply Forall_impl; [|apply (IH y Ht)].
  intros z Hz. eapply T; eauto.
Qed.

(** On ascending levels, a test that passes down the order holds on a prefix
    and nowhere else. *)
Lemma filter_prefix (p : F -> bool) (levels : list F) :
  (forall x y, In x levels -> In y levels ->
               fltb x y = true -> p y = true -> p x = true) ->
  ascending levels = true ->
  let k := length (filter p levels) in
  k <= length levels /\
  (forall i l, i < k -> nth_error levels i = Some l -> p l = true) /\
  (forall i l, k <= i -> nth_error levels i = Some l -> p l = false).
Proof.
  induction levels as [|x t IH]; intros Hp Hasc k.
  - simpl in k. split; [lia|]. split; intros [|i] l; simpl; discriminate.
  - pose proof (ascending_head x t Hasc) as Hx.
    destruct (IH (fun u v Hu Hv => Hp u v (or_intror Hu) (or_intror Hv))
                 (ascending_tail x t Hasc)) as (K1 & K2 & K3).
    unfold k. simpl. destruct (p x) eqn:E; simpl.
    + split; [lia|]. split; intros [|i] l Hi Hl; simpl in Hl.
      * inversion Hl; subst; exact E.
      * eapply K2; [|exact Hl]. lia.
      * lia.
      * eapply K3; [|exact Hl]. lia.
    + assert (N : Forall (fun y => p y = false) t).
      { rewrite Forall_forall in Hx. apply Forall_forall. intros y Hy.
        destruct (p y) eqn:Ey; [|reflexivity].
        rewrite (Hp x y (or_introl eq_refl) (or_intror Hy) (Hx y Hy) Ey) in E.
        discriminate. }
      assert (Z : filter p t = []).
      { clear - N. induction N as [|y t Hy _ IH]; simpl; [reflexivity|].
        now rewrite Hy. }
      rewrite Z. simpl. split; [lia|]. split; [intros i l Hi; lia|].
      intros [|i] l _ Hl; simpl in Hl.
      * inversion Hl; subst; exact E.
      * rewrite Forall_forall in N. apply N. eapply nth_error_In; eauto.
Qed.

Lemma cell_nth_error (levels : list F) (i : nat) (l : F) :
  nth_error levels i = Some l -> cell levels (Z.of_nat i) = Ok l.
Proof.
  intros H. unfold cell.
  destruct (Z.ltb_spec (Z.of_nat i) 0) as [?|_]; [lia|].
  now rewrite Nat2Z.id, H.
Qed.

Lemma np_less_number (x y : F) : fleb y y = true -> CalcBL.np_less x y = fltb x y.
Proof. intros H. unfold CalcBL.np_less. rewrite H. simpl. apply orb_false_r. Qed.
End Levels.

Lemma nth_error_hd {T} (l : list T) (d : T) : l <> [] -> nth_error l 0 = Some (hd d l).
Proof. destruct l; [contradiction|reflexivity]. Qed.

Lemma nth_error_last {T} (l : list T) (d : T) :
  l <> [] -> nth_error l (length l - 1) = Some (last l d).
Proof.
  induction l as [|x l IH]; [contradiction|]. intros _.
  destruct l as [|y l]; [reflexivity|].
  specialize (IH ltac:(discriminate)).
  change (last (x :: y :: l) d) with (last (y :: l) d). rewrite <- IH.
  replace (length (x :: y :: l) - 1) with (S (length (y :: l) - 1)) by (simpl; lia).
  reflexivity.
Qed.

(** X23.  [get_p_above] and [get_p_below] return neighbouring levels around
    the pressure.  For ascending levels without nan, not empty, and a pressure
    [a] that is a number, both return a level.  With [side = 'right']: when
    [a] is at least the first level, the level above is at most [a]; when [a]
    is below the last level, the level below is beyond [a]; when both hold,
    the two are consecutive levels; a pressure below the first level gives the
    first level twice, and one at or beyond the last level the last level
    twice.  With [side = 'left'] the same holds with the strict and the weak
    comparison exchanged.  Proved from three laws of the comparisons, which
    binary64 and the rationals satisfy. *)
Theorem pressure_levels_bracket :
  forall (F : Type) (A : Arith F) (levels : list F) (a : F) (s : CalcBL.side),
    comparison_laws ->
    levels <> [] -> ascending levels = true ->
    Forall (fun l => fleb l l = true) levels -> fleb a a = true ->
    let first := hd a levels in
    let top := last levels a in
    exists ia ib pabove pbelow,
      CalcBL.get_p_above a levels s = Ok pabove /\
      CalcBL.get_p_below a levels s = Ok pbelow /\
      nth_error levels ia = Some pabove /\ nth_error levels ib = Some pbelow /\
      match s with
      | CalcBL.side_right =>
          (fleb first a = true -> fleb pabove a = true) /\
          (fltb a top = true -> fltb a pbelow = true) /\
          (fleb first a = true -> fltb a top = true -> ib = S ia) /\
          (fltb a first = true -> ia = 0 /\ ib = 0) /\
          (fleb top a = true -> ia = length levels - 1 /\ ib = length levels - 1)
      | CalcBL.side_left =>
          (fltb first a = true -> fltb pabove a = true) /\
          (fleb a top = true -> fleb a pbelow = true) /\
          (fltb first a = true -> fleb a top = true -> ib = S ia) /\
          (fleb a first = true -> ia = 0 /\ ib = 0) /\
          (fltb top a = true -> ia = length levels - 1 /\ ib = length levels - 1)
      end.
Proof.
  intros F A levels a s Laws Hne Hasc Hnum Ha first top.
  pose proof Laws as (T & NL & TOT).
  rewrite Forall_forall in Hnum.
  set (p := fun l => match s with
                     | CalcBL.side_left => CalcBL.np_less l a
                     | CalcBL.side_right => negb (CalcBL.np_less a l)
                     end).
  assert (Pv : forall l, In l levels ->
                 p l = match s with
                       | CalcBL.side_left => fltb l a
                       | CalcBL.side_right => negb (fltb a l)
                       end).
  { intros l Hl. unfold p. destruct s; rewrite np_less_number; auto. }
  assert (Hp : forall x y, In x levels -> In y levels ->
                 fltb x y = true -> p y = true -> p x = true).
  { intros x y Hx Hy Hxy. rewrite (Pv x Hx), (Pv y Hy). destruct s.
    - intros H. eapply T; eauto.
    - intros H. apply negb_true_iff in H. apply negb_true_iff.
      destruct (fltb a x) eqn:E; [|reflexivity].
      rewrite (T a x y E Hxy) in H. discriminate. }
  destruct (filter_prefix Laws p levels Hp Hasc) as (K1 & K2 & K3).
  set (k := length (filter p levels)) in *.
  assert (Hn : 1 <= length levels) by (destruct levels; [contradiction|simpl; lia]).
  pose proof (nth_error_hd levels a Hne) as Hhd. fold first in Hhd.
  pose proof (nth_error_last levels a Hne) as Hlast. fold top in Hlast.
  assert (Ifirst : In first levels) by (eapply nth_error_In; eauto).
  assert (Itop : In top levels) by (eapply nth_error_In; eauto).
  destruct (nth_error levels (k - 1)) as [pa|] eqn:Ea;
    [|apply nth_error_None in Ea; lia].
  destruct (nth_error levels (Nat.min k (length levels - 1))) as [pb|] eqn:Eb;
    [|apply nth_error_None in Eb; lia].
  assert (Ipa : In pa levels) by (eapply nth_error_In; eauto).
  assert (Ipb : In pb levels) by (eapply nth_error_In; eauto).
  exists (k - 1), (Nat.min k (length levels - 1)), pa, pb.
  split.
  { unfold CalcBL.get_p_above, CalcBL.np_searchsorted. fold p. fold k.
    replace (Z.max (Z.of_nat k - 1) 0) with (Z.of_nat (k - 1)) by lia.
    now apply cell_nth_error. }
  split.
  { unfold CalcBL.get_p_below, CalcBL.np_searchsorted. fold p. fold k.
    replace (Z.min (Z.of_nat k) (Z.of_nat (length levels) - 1))
      with (Z.of_nat (Nat.min k (length levels - 1))) by lia.
    now apply cell_nth_error. }
  split; [exact Ea|]. split; [exact Eb|].
  (* the first level passes the test: the index is positive *)
  assert (Pos : p first = true -> 1 <= k).
  { intros H. destruct (Nat.le_gt_cases 1 k) as [?|G]; [assumption|].
    rewrite (K3 0 first) in H by (auto; lia). discriminate. }
  (* the last level fails it: the index is below the length *)
  assert (Low : p top = false -> k <= length levels - 1).
  { intros H. destruct (Nat.le_gt_cases k (length levels - 1)) as [?|G]; [assumption|].
    rewrite (K2 (length levels - 1) top) in H by (auto; lia). discriminate. }
  assert (Zero : p first = false -> k = 0).
  { intros H. destruct k as [|k']; [reflexivity|].
    rewrite (K2 0 first) in H by (auto; lia). discriminate. }
  assert (Full : p top = true -> k = length levels).
  { intros H. destruct (Nat.le_gt_cases (length levels) k) as [?|G]; [lia|].
    rewrite (K3 (length levels - 1) top) in H by (auto; lia). discriminate. }
  rewrite (Pv first Ifirst) in Pos, Zero. rewrite (Pv top Itop) in Low, Full.
  destruct s.
  - (* left *)
    split; [|split; [|split; [|split]]].
    + intros H. specialize (Pos H).
      rewrite <- (Pv pa Ipa). apply (K2 (k - 1)); [lia|assumption].
    + intros H. specialize (Low (NL _ _ H)).
      apply TOT; auto. rewrite <- (Pv pb Ipb).
      apply (K3 (Nat.min k (length levels - 1))); [lia|assumption].
    + intros H1 H2. specialize (Pos H1). specialize (Low (NL _ _ H2)). lia.
    + intros H. specialize (Zero (NL _ _ H)). lia.
    + intros H. specialize (Full H). lia.
  - (* right *)
    split; [|split; [|split; [|split]]].
    + intros H. assert (P1 : 1 <= k) by (apply Pos; now rewrite (NL _ _ H)).
      apply TOT; auto.
      apply negb_true_iff. rewrite <- (Pv pa Ipa).
      apply (K2 (k - 1)); [lia|assumption].
    + intros H. assert (P2 : k <= length levels - 1) by (apply Low; now rewrite H).
      apply negb_false_iff. rewrite <- (Pv pb Ipb).
      apply (K3 (Nat.min k (length levels - 1))); [lia|assumption].
    + intros H1 H2.
      assert (P1 : 1 <= k) by (apply Pos; now rewrite (NL _ _ H1)).
      assert (P2 : k <= length levels - 1) by (apply Low; now rewrite H2). lia.
    + intros H. assert (P0 : k = 0) by (apply Zero; now rewrite H). lia.
    + intros H. assert (P3 : k = length levels)
        by (apply Full; now rewrite (NL _ _ H)). lia.
Qed.

(** Five pressure levels and a surface pressure of 912.5 hPa. *)
Lemma pressure_levels_bracket_witness :
  CalcBL.get_p_above (A:=binary64) 912.5%float [500; 700; 850; 925; 1000]%float
                     CalcBL.side_right = Ok 850%float /\
  CalcBL.get_p_below (A:=binary64) 912.5%float [500; 700; 850; 925; 1000]%float
                     CalcBL.side_right = Ok 925%float.
Proof.
  destruct (pressure_levels_bracket float binary64 [500; 700; 850; 925; 1000]%float
              912.5%float CalcBL.side_right comparison_laws_binary64)
    as (ia & ib & pa & pb & E1 & E2 & _); try reflexivity.
  - discriminate.
  - repeat constructor.
  - split; [rewrite E1|rewrite E2]; vm_compute in E1, E2; congruence.
Defined.

(* ================================================================== *)
(** * Selection by mask and selection by position *)

Lemma select_positions_from {X T} (keep : X -> bool) (dc : X) (d : T)
    (c : list X) (l : list T) (k : nat) :
  length l = length c ->
  select (map keep c) l
  = map (fun i => nth (i - k) l d)
        (filter (fun i => keep (nth (i - k) c dc)) (seq k (length c))).
Proof.
  revert l k; induction c as [|x c IH]; intros [|y l] k L;
    try discriminate; try reflexivity.
  injection L as L.
  assert (E : filter (fun i => keep (nth (i - k) (x :: c) dc)) (seq (S k) (length c))
              = filter (fun i => keep (nth (i - S k) c dc)) (seq (S k) (length c))).
  { apply filter_ext_in. intros i Hi. apply in_seq in Hi.
    replace (i - k) with (S (i - S k)) by lia. reflexivity. }
  assert (M : map (fun i => nth (i - k) (y :: l) d)
                  (filter (fun i => keep (nth (i - S k) c dc)) (seq (S k) (length c)))
              = map (fun i => nth (i - S k) l d)
                  (filter (fun i => keep (nth (i - S k) c dc)) (seq (S k) (length c)))).
  { apply map_ext_in. intros i Hi. apply filter_In in Hi. destruct Hi as [Hi _].
    apply in_seq in Hi. replace (i - k) with (S (i - S k)) by lia. reflexivity. }
  assert (K : keep (nth (k - k) (x :: c) dc) = keep x) by now rewrite Nat.sub_diag.
  assert (N : nth (k - k) (y :: l) d = y) by now rewrite Nat.sub_diag.
  set (f := fun i => keep (nth (i - k) (x :: c) dc)) in *.
  set (g := fun i => nth (i - k) (y :: l) d) in *.
  cbn [map select length seq filter].
  change (f k) with (keep (nth (k - k) (x :: c) dc)). rewrite K, E.
  destruct (keep x); cbn [map]; rewrite M, <- (IH l (S k) L); [|reflexivity].
  f_equal. exact (eq_sym N).
Qed.

(** Selecting by the mask of a predicate keeps the cells at the positions
    where the predicate holds. *)
Lemma select_positions {X T} (keep : X -> bool) (dc : X) (d : T)
    (c : list X) (l : list T) :
  length l = length c ->
  select (map keep c) l = map (fun i => nth i l d) (positions keep c dc).
Proof.
  intros L. rewrite (select_positions_from keep dc d c l 0 L). unfold positions.
  rewrite (filter_ext (fun i => keep (nth (i - 0) c dc)) (fun i => keep (nth i c dc)))
    by (intros i; now rewrite Nat.sub_0_r).
  apply map_ext. intros i. now rewrite Nat.sub_0_r.
Qed.

Lemma positions_lt {X} (keep : X -> bool) (dc : X) (c : list X) (i : nat) :
  In i (positions keep c dc) -> i < length c.
Proof.
  unfold positions. intros H. apply filter_In in H. destruct H as [H _].
  apply in_seq in H. lia.
Qed.

(** The month of the region, as the aggregator selects it, is the subset of
    the specification. *)
Lemma sel_month_sel_box_subset {F} {A : Arith F} (ds : dataset F) (r : region F)
    (month : Z) :
  on_grid ds -> sel_month (sel_box ds r) month = spec_subset ds r month.
Proof.
  intros (S1 & S2 & S3 & S4).
  unfold sel_month, sel_box, spec_subset; cbn [time_month lat lon var_bl var_cape
                                                var_subsat var_pr].
  set (inmonth := fun m : Z => (m =? month)%Z).
  set (inlat := fun y : F => fleb (latmin r) y && fleb y (latmax r)).
  set (inlon := fun x : F => fleb (lonmin r) x && fleb x (lonmax r)).
  assert (V : forall v : list (list (list F)),
    shape3 v (length (time_month ds)) (length (lat ds)) (length (lon ds)) ->
    select (map inmonth (time_month ds))
           (map (fun plane => map (select (map inlon (lon ds)))
                                  (select (map inlat (lat ds)) plane)) v)
    = map (fun t =>
             map (fun la =>
                    map (fun lo => nth lo (nth la (nth t v []) []) fzero)
                        (positions inlon (lon ds) fzero))
                 (positions inlat (lat ds) fzero))
          (positions inmonth (time_month ds) 0%Z)).
  { intros v [Lv Fv]. rewrite Forall_forall in Fv.
    rewrite select_map.
    rewrite (select_positions inmonth 0%Z [] (time_month ds) v Lv).
    rewrite map_map. apply map_ext_in. intros t Ht.
    apply positions_lt in Ht. rewrite <- Lv in Ht.
    destruct (Fv (nth t v []) (nth_In v [] Ht)) as [Lp Fp].
    rewrite Forall_forall in Fp.
    rewrite (select_positions inlat fzero [] (lat ds) (nth t v []) Lp).
    rewrite map_map. apply map_ext_in. intros la Hla.
    apply positions_lt in Hla. rewrite <- Lp in Hla.
    apply (select_positions inlon fzero fzero (lon ds)).
    apply Fp. now apply nth_In. }
  rewrite (V _ S1), (V _ S2), (V _ S3), (V _ S4).
  rewrite (select_positions inmonth 0%Z 0%Z (time_month ds) (time_month ds) eq_refl).
  rewrite (select_positions inlat fzero fzero (lat ds) (lat ds) eq_refl).
  rewrite (select_positions inlon fzero fzero (lon ds) (lon ds) eq_refl).
  reflexivity.
Qed.

Lemma on_grid_aligned {F} (ds : dataset F) : on_grid ds -> aligned ds.
Proof.
  intros (S1 & S2 & S3 & S4).
  repeat split; eapply shape3_same_shape3; eassumption.
Qed.

Lemma zip4_map {X X1 X2 X3 X4 Y} (f : X1 -> X2 -> X3 -> X4 -> Y)
    (a : X -> X1) (b : X -> X2) (c : X -> X3) (d : X -> X4) (l : list X) :
  zip4 f (map a l) (map b l) (map c l) (map d l)
  = map (fun x => f (a x) (b x) (c x) (d x)) l.
Proof. induction l as [|x l IH]; simpl; congruence. Qed.

(** The cells of the subset, flattened, are the cells at the positions
    inside. *)
Lemma flat3_spec_subset {F} {A : Arith F} (ds : dataset F) (r : region F)
    (month : Z) (v : list (list (list F))) :
  flat3 (map (fun t =>
                map (fun la => map (fun lo => at_pos v (t, la, lo)) (lons_in ds r))
                    (lats_in ds r))
             (times_in ds month))
  = map (at_pos v) (inside ds r month).
Proof.
  unfold flat3, inside.
  induction (times_in ds month) as [|t ts IH]; [reflexivity|].
  cbn [map concat flat_map]. rewrite concat_app, map_app, IH. f_equal.
  clear IH. induction (lats_in ds r) as [|la las IHl]; [reflexivity|].
  cbn [map concat flat_map]. rewrite map_app, IHl, map_map. reflexivity.
Qed.

(** The points of the subset are the points at the positions inside. *)
Lemma points_spec_subset {F} {A : Arith F} (ds : dataset F) (r : region F)
    (month : Z) (binparams : binparams F) :
  let sub := spec_subset ds r month in
  points (map (blidx_of (bp_bl binparams)) (flat3 (var_bl sub)))
         (map (jointidx_of (bp_cape binparams)) (flat3 (var_cape sub)))
         (map (jointidx_of (bp_subsat binparams)) (flat3 (var_subsat sub)))
         (flat3 (var_pr sub))
  = map (point_at ds binparams) (inside ds r month).
Proof.
  intros sub. unfold sub, spec_subset; cbn [var_bl var_cape var_subsat var_pr].
  rewrite !flat3_spec_subset, !map_map.
  rewrite <- (map_id (map (at_pos (var_pr ds)) (inside ds r month))), map_map.
  unfold points. rewrite zip4_map. reflexivity.
Qed.

(** C4.  With the configured region dict (distinct keys, not empty), a month
    list that is not empty, valid bin parameters and a dataset on its grid
    (the four variables have the shape of the coordinates, and latitudes and
    longitudes ascend, as the preprocessing leaves them), the aggregator runs
    to the end.  Its result has one entry per configured region, in the
    configured order and labelled with the region's key, each holding one
    record per configured month, in the configured order and labelled with the
    month.  The record of region [r] and month [m] is exactly what the
    builder returns on the subset of the specification; and its cells count
    and sum the grid points at the time stamps of month [m], the latitudes
    within [[latmin, latmax]] and the longitudes within [[lonmin, lonmax]] of
    region [r], and no other: [Q0[i]] is the number of those with 1-D index
    [i] and finite precipitation, and so on as for the kernel. *)
Theorem process_by_subregion_slices :
  forall (F : Type) (A : Arith F) (REGIONS : list (string * region F))
         (BINPARAMS : binparams F) (PRTHRESH : F) (ds : dataset F)
         (months : list Z),
    NoDup (map fst REGIONS) -> REGIONS <> [] -> months <> [] ->
    valid_binparams BINPARAMS ->
    on_grid ds -> ascending (lat ds) = true -> ascending (lon ds) = true ->
    exists product,
      process_by_subregion REGIONS BINPARAMS PRTHRESH ds months REGIONS = Ok product /\
      length product = length REGIONS /\
      map fst product = map fst REGIONS /\
      Forall (fun entry => length (snd entry) = length months /\
                           map fst (snd entry) = months) product /\
      (forall r m key reg month,
         nth_error REGIONS r = Some (key, reg) ->
         nth_error months m = Some month ->
         let pts := map (point_at ds BINPARAMS) (inside ds reg month) in
         exists recs rec,
           nth_error product r = Some (key, recs) /\
           nth_error recs m = Some (month, rec) /\
           calc_binned_stats PRTHRESH (spec_subset ds reg month)
                             BINPARAMS PRTHRESH = Ok rec /\
           (forall i, i < length (get_bin_edges bl BINPARAMS) ->
              nth i (Q0 (data_vars rec)) 0%Z = count (in_bin i) pts /\
              nth i (Q1 (data_vars rec)) fzero
                = fsum (map (@p_pr F) (filter (in_bin i) pts)) /\
              nth i (QE (data_vars rec)) 0%Z
                = count (fun p => in_bin i p && exceeds PRTHRESH p) pts) /\
           (forall a b, a < length (get_bin_edges subsat BINPARAMS) ->
                        b < length (get_bin_edges cape BINPARAMS) ->
              nth b (nth a (P0 (data_vars rec)) []) 0%Z = count (in_cell a b) pts /\
              nth b (nth a (P1 (data_vars rec)) []) fzero
                = fsum (map (@p_pr F) (filter (in_cell a b) pts)) /\
              nth b (nth a (PE (data_vars rec)) []) 0%Z
                = count (fun p => in_cell a b p && exceeds PRTHRESH p) pts)).
Proof.
  intros F A REGIONS BINPARAMS PRTHRESH ds months Hnd Hreg Hmon _ Hgrid _ _.
  destruct (process_by_subregion_product F A REGIONS BINPARAMS PRTHRESH ds months
              Hnd Hreg Hmon (on_grid_aligned ds Hgrid))
    as (product & E & L & K & M & S).
  exists product. repeat (split; [assumption|]).
  intros r m key reg month Hr Hm pts.
  destruct (S r m key reg month Hr Hm) as (recs & rec & H1 & H2 & H3).
  exists recs, rec.
  assert (Hal : aligned (sel_month (sel_box ds reg) month))
    by (apply aligned_sel_month, aligned_sel_box, on_grid_aligned, Hgrid).
  rewrite (sel_month_sel_box_subset ds reg month Hgrid) in H3, Hal.
  split; [exact H1|]. split; [exact H2|]. split; [exact H3|].
  rewrite (calc_binned_stats_run PRTHRESH _ BINPARAMS PRTHRESH Hal) in H3.
  rewrite (points_spec_subset ds reg month BINPARAMS) in H3. fold pts in H3.
  injection H3 as <-. cbn [data_vars]. split.
  - intros i Hi.
    exact (run_cells1 _ (length (get_bin_edges cape BINPARAMS))
             (length (get_bin_edges subsat BINPARAMS)) PRTHRESH pts i Hi).
  - intros a b Ha Hb.
    exact (run_cells2 (length (get_bin_edges bl BINPARAMS)) _ _ PRTHRESH pts a b Ha Hb).
Qed.

(** Two regions and three months on the sample dataset.  Central India in
    August is the one grid point at 20 N, 80 E of the third time stamp, with
    [bl = -0.3], [cape = 3], [subsat = 20] and 7 mm/h: one count in 1-D bin
    120, where the whole dataset has two, and one in 2-D cell [(39, 72)]. *)
Lemma process_by_subregion_slices_witness :
  exists product recs rec,
    process_by_subregion Sample.regions Notebook.BINPARAMS Notebook.PRTHRESH
                         Sample.data Notebook.MONTHS Sample.regions = Ok product /\
    length product = 2 /\
    Forall (fun entry => length (snd entry) = 3) product /\
    nth_error product 1 = Some ("Central India"%string, recs) /\
    nth_error recs 2 = Some (8%Z, rec) /\
    Zsum (Q0 (data_vars rec)) = 1%Z /\
    nth 120 (Q0 (data_vars rec)) 0%Z = 1%Z /\
    nth 120 (QE (data_vars rec)) 0%Z = 1%Z /\
    nth 120 (Q1 (data_vars rec)) 0%float = 7%float /\
    nth 72 (nth 39 (P0 (data_vars rec)) []) 0%Z = 1%Z.
Proof.
  destruct (process_by_subregion_slices float binary64 Sample.regions
              Notebook.BINPARAMS Notebook.PRTHRESH Sample.data Notebook.MONTHS)
    as (product & E & L & _ & Hm & Hs).
  - repeat constructor; simpl; intuition discriminate.
  - discriminate.
  - discriminate.
  - intros [| |]; (split; [|split]); vm_compute; congruence.
  - repeat split; repeat constructor.
  - reflexivity.
  - reflexivity.
  - destruct (Hs 1 2 "Central India"%string
                {| latmin := 18%float; latmax := 24%float;
                   lonmin := 76%float; lonmax := 83%float |} 8%Z eq_refl eq_refl)
      as (recs & rec & H1 & H2 & H3 & _ & _).
    exists product, recs, rec.
    split; [exact E|]. split; [exact L|].
    split; [eapply Forall_impl; [|exact Hm]; intros entry [H _]; exact H|].
    split; [exact H1|]. split; [exact H2|].
    vm_compute in H3. injection H3 as <-.
    repeat split; vm_compute; reflexivity.
Defined.
